(** * MXFP4 tile codec and the matmul reader / writer dataflow kernels

    Shallow embedding of
      ttnn/cpp/ttnn/operations/matmul/device/kernels/dataflow/reader_bmm_tile_layout.cpp
      ttnn/cpp/ttnn/operations/matmul/device/kernels/dataflow/writer_bmm_tile_layout.cpp

    - [uint32_t] values are [Z] with the wrap-around of every addition,
      multiplication and left shift written out ([add32], [mul32], [shl32]);
    - memory is a list of blocks of 32-bit words, a pointer is a block and a
      word offset, so that two pointers may alias; an access outside its
      block is undefined behaviour in C and is [None] here;
    - the kernels thread their tile indices, their L1 address and the trace
      of the calls they make through their loop nests; the calls of a
      trace are then run on memory. *)

From stdpp Require Import base option list numbers.
From Stdlib Require Import ZArith Lia.

Local Open Scope Z_scope.

(** ** Machine arithmetic *)

Definition wrap32 (x : Z) : Z := x mod 2 ^ 32.
Definition wrap8 (x : Z) : Z := x mod 2 ^ 8.
Definition add32 (a b : Z) : Z := wrap32 (a + b).
Definition mul32 (a b : Z) : Z := wrap32 (a * b).
Definition shl32 (a n : Z) : Z := wrap32 (Z.shiftl a n).

(** ** Memory: blocks of words, pointers with an offset *)

Record ptr := Ptr { p_blk : nat; p_off : Z }.

Abbreviation mem := (list (list Z)).

(** [p[i]] as an rvalue. *)
Definition load (m : mem) (p : ptr) (i : Z) : option Z :=
  b ← m !! p_blk p;
  if 0 <=? p_off p + i then b !! Z.to_nat (p_off p + i) else None.

(** [p[i] = v]. *)
Definition store (m : mem) (p : ptr) (i : Z) (v : Z) : option mem :=
  b ← m !! p_blk p;
  if (0 <=? p_off p + i) && (p_off p + i <? Z.of_nat (length b))
  then Some (<[p_blk p := <[Z.to_nat (p_off p + i) := v]> b]> m)
  else None.

(** The [n] words found at [p]. *)
Definition read_words (m : mem) (p : ptr) (n : Z) : option (list Z) :=
  mapM (fun i => load m p i) (seqZ 0 n).

(** The location a pointer and an index designate. *)
Definition loc (p : ptr) (i : Z) : nat * Z := (p_blk p, p_off p + i).

(** Every word of [p[0..n)] can be accessed. *)
Definition readable (m : mem) (p : ptr) (n : Z) : Prop :=
  forall k, 0 <= k < n -> is_Some (load m p k).

(** The regions [p[0..n)] and [q[0..k)] have no word in common. *)
Definition separate (p : ptr) (n : Z) (q : ptr) (k : Z) : Prop :=
  forall a b, 0 <= a < n -> 0 <= b < k -> loc p a <> loc q b.

(** Every word of [p[0..n)] is 0. *)
Definition zeroed (m : mem) (p : ptr) (n : Z) : Prop :=
  forall k, 0 <= k < n -> load m p k = Some 0.

(** ** Counted loops

    [for (uint32_t i = 0; i < n; i++) body] with a body that may fail, and
    the same with a body that cannot. *)

Fixpoint for_loopM {St : Type} (n : nat) (i : Z)
    (body : Z -> St -> option St) (s : St) : option St :=
  match n with
  | O => Some s
  | S n' => s' ← body i s; for_loopM n' (i + 1) body s'
  end.

Fixpoint for_loop {St : Type} (n : nat) (i : Z)
    (body : Z -> St -> St) (s : St) : St :=
  match n with
  | O => s
  | S n' => for_loop n' (i + 1) body (body i s)
  end.

(** ** The codec *)

Definition MXFP4_BLOCK_SIZE : Z := 32.

(** [(w >> 24) & 0xFF]: the shared exponent held by an exponent word. *)
Definition shared_exp_of (w : Z) : Z := Z.land (Z.shiftr w 24) 255.

(** [(w >> (nibble_idx * 4)) & 0x0F]. *)
Definition nibble (w nibble_idx : Z) : Z :=
  Z.land (Z.shiftr w (nibble_idx * 4)) 15.

(** Lines 28-34 of the reader: the word stored for one magnitude. *)
Definition decode_value (shared_exp mxfp4_val : Z) : Z :=
  if mxfp4_val =? 0 then 0
  else Z.lor (shl32 shared_exp 23) (shl32 mxfp4_val 19).

(** Lines 20-35 of the reader: the 32 values of block [i]. *)
Definition unpack_block (mxfp4_tile fp32_tile : ptr) (i shared_exp : Z)
    (m : mem) : option mem :=
  for_loopM (Z.to_nat MXFP4_BLOCK_SIZE) 0 (fun j m =>
    let byte_idx := add32 (add32 (mul32 i 5) (j / 8)) 1 in
    let nibble_idx := j mod 8 in
    w ← load m mxfp4_tile byte_idx;
    let mxfp4_val := nibble w nibble_idx in
    store m fp32_tile (add32 (mul32 i MXFP4_BLOCK_SIZE) j)
          (decode_value shared_exp mxfp4_val)) m.

Definition convert_mxfp4_to_fp32_tile
    (mxfp4_tile fp32_tile : ptr) (tile_size : Z) (m : mem) : option mem :=
  for_loopM (Z.to_nat (tile_size / MXFP4_BLOCK_SIZE)) 0 (fun i m =>
    w0 ← load m mxfp4_tile (mul32 i 5);
    let shared_exp := shared_exp_of w0 in
    unpack_block mxfp4_tile fp32_tile i shared_exp m) m.

(** [(fp32_val >> 23) & 0xFF]. *)
Definition exp_field (fp32_val : Z) : Z := Z.land (Z.shiftr fp32_val 23) 255.

(** [(fp32_val & 0x7FFFFF) >> 19]: the top four bits of the mantissa. *)
Definition mantissa4 (fp32_val : Z) : Z :=
  Z.shiftr (Z.land fp32_val 8388607) 19.

(** Lines 17-23 of the writer: one step of the maximum-exponent scan. *)
Definition max_exp_step (fp32_val max_exp : Z) : Z :=
  if fp32_val =? 0 then max_exp
  else
    let exp := exp_field fp32_val in
    if exp >? max_exp then exp else max_exp.

(** Lines 31-44 of the writer: the 4-bit magnitude of one value. *)
Definition quantize (max_exp fp32_val : Z) : Z :=
  if fp32_val =? 0 then 0
  else
    let mantissa := mantissa4 fp32_val in
    let exp := exp_field fp32_val in
    let exp_diff := max_exp - exp in
    if (0 <=? exp_diff) && (exp_diff <? 16)
    then wrap8 (Z.shiftr mantissa exp_diff)
    else 0.

(** Lines 15-24 of the writer: the maximum exponent of block [i]. *)
Definition find_max_exp (fp32_tile : ptr) (i : Z) (m : mem) : option Z :=
  for_loopM (Z.to_nat MXFP4_BLOCK_SIZE) 0 (fun j max_exp =>
    fp32_val ← load m fp32_tile (add32 (mul32 i MXFP4_BLOCK_SIZE) j);
    Some (max_exp_step fp32_val max_exp)) 0.

(** Lines 30-50 of the writer: the 32 magnitudes of block [i]. *)
Definition pack_block (fp32_tile mxfp4_tile : ptr) (i max_exp : Z)
    (m : mem) : option mem :=
  for_loopM (Z.to_nat MXFP4_BLOCK_SIZE) 0 (fun j m =>
    fp32_val ← load m fp32_tile (add32 (mul32 i MXFP4_BLOCK_SIZE) j);
    let mxfp4_val := quantize max_exp fp32_val in
    let byte_idx := add32 (add32 (mul32 i 5) (j / 8)) 1 in
    let nibble_idx := j mod 8 in
    w ← load m mxfp4_tile byte_idx;
    store m mxfp4_tile byte_idx
          (Z.lor w (shl32 mxfp4_val (nibble_idx * 4)))) m.

Definition convert_fp32_to_mxfp4_tile
    (fp32_tile mxfp4_tile : ptr) (tile_size : Z) (m : mem) : option mem :=
  for_loopM (Z.to_nat (tile_size / MXFP4_BLOCK_SIZE)) 0 (fun i m =>
    max_exp ← find_max_exp fp32_tile i m;
    m ← store m mxfp4_tile (mul32 i 5) (shl32 max_exp 24);
    pack_block fp32_tile mxfp4_tile i max_exp m) m.

(** ** What the loops compute

    The word the core finds at [p[k]]; the maximum exponent after the
    first [n] values of a block; the part of magnitude word [w] that the
    first [n] magnitudes of a block contribute. *)

Definition word_at (m : mem) (p : ptr) (k : Z) : Z := default 0 (load m p k).

Fixpoint max_exp_upto (val : Z -> Z) (n : nat) : Z :=
  match n with
  | O => 0
  | S n' => max_exp_step (val (Z.of_nat n')) (max_exp_upto val n')
  end.

Fixpoint pack_word (mag : Z -> Z) (w : Z) (n : nat) : Z :=
  match n with
  | O => 0
  | S n' =>
      let j := Z.of_nat n' in
      if j / 8 =? w
      then Z.lor (pack_word mag w n') (shl32 (mag j) (j mod 8 * 4))
      else pack_word mag w n'
  end.

(** The values of block [i] of the tile at [p], its shared exponent and
    its magnitudes, as the encoder computes them from memory [m]. *)
Definition block_val (m : mem) (p : ptr) (i j : Z) : Z :=
  word_at m p (32 * i + j).

Definition block_max_exp (m : mem) (p : ptr) (i : Z) : Z :=
  max_exp_upto (block_val m p i) 32.

Definition block_mag (m : mem) (p : ptr) (i j : Z) : Z :=
  quantize (block_max_exp m p i) (block_val m p i j).

(** Within every block of the tile at [p], the nonzero values have the
    same exponent field. *)
Definition uniform_exponents (m : mem) (p : ptr) (n : Z) : Prop :=
  forall i j j', 0 <= i < n / 32 -> 0 <= j < 32 -> 0 <= j' < 32 ->
    block_val m p i j <> 0 -> block_val m p i j' <> 0 ->
    exp_field (block_val m p i j) = exp_field (block_val m p i j').

(** ** The dataflow API, as a trace of calls

    The kernels branch on their arguments only, never on tile data, so a
    kernel is modelled by the sequence of calls it makes (and of the local
    arrays it declares); [exec] below gives the effect on memory of the
    calls the core carries out itself. *)

Inductive operand := In0 | In1 | Out.

#[global] Instance operand_eq_dec : EqDecision operand.
Proof. solve_decision. Defined.

(** [TensorAccessor(args, addr, page_size)]. *)
Record TensorAccessor := Accessor {
  acc_operand : operand;
  address : Z;
  page_size : Z
}.

Inductive event :=
| E_cb_reserve_back (cb_id num_tiles : Z)
| E_cb_push_back (cb_id num_tiles : Z)
| E_cb_wait_front (cb_id num_tiles : Z)
| E_cb_pop_front (cb_id num_tiles : Z)
| E_noc_async_read_tile (tile_id : Z) (s : TensorAccessor) (l1_addr : Z)
| E_noc_async_read_barrier
| E_noc_async_write (tile_id addr l1_addr size : Z)
| E_noc_async_write_tile (tile_id : Z) (s : TensorAccessor) (l1_addr : Z)
| E_noc_async_write_barrier
| E_alloca (p : ptr) (len : Z)
| E_convert_mxfp4_to_fp32_tile (mxfp4_tile fp32_tile : ptr) (tile_size : Z)
| E_convert_fp32_to_mxfp4_tile (fp32_tile mxfp4_tile : ptr) (tile_size : Z).

(** What [dataflow_api.h] answers: the tile size of a circular buffer and
    its current write and read pointers, which depend on the calls made
    so far. *)
Record platform := Platform {
  get_tile_size : Z -> Z;
  get_write_ptr : Z -> list event -> Z;
  get_read_ptr : Z -> list event -> Z
}.

(** L1 is block 0, addressed in bytes; the kernel's stack frame is block 1. *)
Definition L1 : nat := 0.
Definition STACK : nat := 1.
Definition sizeof_uint32_t : Z := 4.

(** [(uint32_t* )addr]. *)
Definition l1_ptr (addr : Z) : ptr := Ptr L1 (addr / sizeof_uint32_t).

Module Reader.

Record args := Args {
  in0_tensor_addr : Z;
  in0_tensor_start_tile_id : Z;
  in0_tensor_stride_w : Z;
  in0_tensor_stride_h : Z;
  in0_tensor_next_block_stride : Z;
  in0_block_w : Z;
  in0_block_h : Z;
  in0_block_num_tiles : Z;
  in1_tensor_addr : Z;
  in1_tensor_start_tile_id : Z;
  in1_tensor_stride_w : Z;
  in1_tensor_stride_h : Z;
  in1_tensor_next_block_stride : Z;
  in1_block_w : Z;
  in1_block_h : Z;
  in1_block_num_tiles : Z;
  num_blocks : Z;
  MtKt : Z;
  KtNt : Z;
  batch : Z;
  bcast_B : Z;
  in0_is_mxfp4 : Z;
  in1_is_mxfp4 : Z
}.

Definition cb_id_in0 : Z := 0.
Definition cb_id_in1 : Z := 1.

(** Lines 108-118 (in0) and 128-138 (in1): one tile of a row. *)
Definition read_tile (s : TensorAccessor) (is_mxfp4 single_tile_size_bytes : Z)
    (tile_id : Z) (st : Z * list event) : Z * list event :=
  let '(l1_write_addr, tr) := st in
  let tr := tr ++ [E_noc_async_read_tile tile_id s l1_write_addr] in
  let tr :=
    if is_mxfp4 =? 0 then tr
    else
      let tile_ptr := l1_ptr l1_write_addr in
      let tile_elements := single_tile_size_bytes / sizeof_uint32_t in
      tr ++ [E_convert_mxfp4_to_fp32_tile tile_ptr tile_ptr tile_elements] in
  (add32 l1_write_addr single_tile_size_bytes, tr).

(** Lines 104-121 (in0) and 124-141 (in1): the tiles of one block, row by
    row.  The two loop nests of the source differ in their variables only. *)
Definition read_block (s : TensorAccessor) (is_mxfp4 single_tile_size_bytes : Z)
    (block_w block_h stride_w stride_h : Z)
    (current_block_start_tile_id : Z) (st : Z * list event) : Z * list event :=
  snd (for_loop (Z.to_nat block_h) 0 (fun h '(row_start_tile_id, st) =>
    (add32 row_start_tile_id stride_h,
     snd (for_loop (Z.to_nat block_w) 0 (fun w '(tile_id, st) =>
       (add32 tile_id stride_w,
        read_tile s is_mxfp4 single_tile_size_bytes tile_id st))
       (row_start_tile_id, st))))
    (current_block_start_tile_id, st)).

(** Lines 98-147: one block of both operands. *)
Definition block_body (a : args) (pf : platform)
    (current_block_start : Z * Z) (tr : list event) : list event :=
  let '(in0_start, in1_start) := current_block_start in
  let in0_single_tile_size_bytes := get_tile_size pf cb_id_in0 in
  let in1_single_tile_size_bytes := get_tile_size pf cb_id_in1 in
  let s0 := Accessor In0 (in0_tensor_addr a) in0_single_tile_size_bytes in
  let s1 := Accessor In1 (in1_tensor_addr a) in1_single_tile_size_bytes in
  let tr := tr ++ [E_cb_reserve_back cb_id_in0 (in0_block_num_tiles a)] in
  let tr := tr ++ [E_cb_reserve_back cb_id_in1 (in1_block_num_tiles a)] in
  let l1_write_addr_in0 := get_write_ptr pf cb_id_in0 tr in
  let l1_write_addr_in1 := get_write_ptr pf cb_id_in1 tr in
  let '(_, tr) :=
    read_block s0 (in0_is_mxfp4 a) in0_single_tile_size_bytes
      (in0_block_w a) (in0_block_h a)
      (in0_tensor_stride_w a) (in0_tensor_stride_h a)
      in0_start (l1_write_addr_in0, tr) in
  let '(_, tr) :=
    read_block s1 (in1_is_mxfp4 a) in1_single_tile_size_bytes
      (in1_block_w a) (in1_block_h a)
      (in1_tensor_stride_w a) (in1_tensor_stride_h a)
      in1_start (l1_write_addr_in1, tr) in
  tr ++ [E_noc_async_read_barrier;
         E_cb_push_back cb_id_in0 (in0_block_num_tiles a);
         E_cb_push_back cb_id_in1 (in1_block_num_tiles a)].

Definition next_block (a : args) (current_block_start : Z * Z) : Z * Z :=
  let '(in0_start, in1_start) := current_block_start in
  (add32 in0_start (in0_tensor_next_block_stride a),
   add32 in1_start (in1_tensor_next_block_stride a)).

(** Lines 95-152: one batch; the state is the two start tile ids and the
    trace. *)
Definition batch_body (a : args) (pf : platform)
    (start_tile_id : Z * Z) (tr : list event) : list event :=
  snd (for_loop (Z.to_nat (num_blocks a)) 0 (fun block '(cur, tr) =>
    (next_block a cur, block_body a pf cur tr)) (start_tile_id, tr)).

Definition next_batch (a : args) (start_tile_id : Z * Z) : Z * Z :=
  let '(in0_start, in1_start) := start_tile_id in
  let in1_start :=
    if bcast_B a =? 0 then add32 in1_start (KtNt a) else in1_start in
  (add32 in0_start (MtKt a), in1_start).

(** Lines 94-153, the first [n] batches. *)
Definition batches (a : args) (pf : platform) (n : nat) : Z * Z * list event :=
  for_loop n 0 (fun b '(start, tr) =>
    (next_batch a start, batch_body a pf start tr))
    (in0_tensor_start_tile_id a, in1_tensor_start_tile_id a, []).

Definition kernel_main (a : args) (pf : platform) : list event :=
  snd (batches a pf (Z.to_nat (batch a))).

End Reader.

Module Writer.

Record args := Args {
  out_tensor_addr : Z;
  out_tensor_start_tile_id : Z;
  out_tensor_stride_w : Z;
  out_tensor_stride_h : Z;
  out_tensor_next_subblock_stride_w : Z;
  out_tensor_next_subblock_stride_h : Z;
  out_subblock_w : Z;
  out_subblock_h : Z;
  out_subblock_tile_count : Z;
  out_num_subblocks_w : Z;
  out_num_subblocks_h : Z;
  MtNt : Z;
  batch : Z;
  out_is_mxfp4 : Z
}.

Definition cb_id_out0 : Z := 16.

(** The variable-length array of line 106 and its length. *)
Definition mxfp4_buffer : ptr := Ptr STACK 0.
Definition mxfp4_buffer_len (tile_elements : Z) : Z := tile_elements / 6.

(** Line 110. *)
Definition mxfp4_size (tile_elements : Z) : Z :=
  mul32 (mul32 (tile_elements / 32) 5) sizeof_uint32_t.

(** Lines 99-115: one tile of a subblock row. *)
Definition write_tile (s : TensorAccessor) (is_mxfp4 single_tile_size_bytes : Z)
    (tile_id : Z) (st : Z * list event) : Z * list event :=
  let '(l1_read_addr, tr) := st in
  let tr :=
    if is_mxfp4 =? 0
    then tr ++ [E_noc_async_write_tile tile_id s l1_read_addr]
    else
      let tile_ptr := l1_ptr l1_read_addr in
      let tile_elements := single_tile_size_bytes / sizeof_uint32_t in
      tr ++ [E_alloca mxfp4_buffer (mxfp4_buffer_len tile_elements);
             E_convert_fp32_to_mxfp4_tile tile_ptr mxfp4_buffer tile_elements;
             E_noc_async_write tile_id (address s) l1_read_addr
               (mxfp4_size tile_elements)] in
  (add32 l1_read_addr single_tile_size_bytes, tr).

(** Lines 91-124: one subblock. *)
Definition subblock_body (a : args) (pf : platform)
    (sbw_start_tile_id : Z) (tr : list event) : list event :=
  let single_tile_size_bytes := get_tile_size pf cb_id_out0 in
  let s := Accessor Out (out_tensor_addr a) single_tile_size_bytes in
  let tr := tr ++ [E_cb_wait_front cb_id_out0 (out_subblock_tile_count a)] in
  let l1_read_addr := get_read_ptr pf cb_id_out0 tr in
  let '(_, tr) :=
    snd (for_loop (Z.to_nat (out_subblock_h a)) 0 (fun h '(row_start_tile_id, st) =>
      (add32 row_start_tile_id (out_tensor_stride_h a),
       snd (for_loop (Z.to_nat (out_subblock_w a)) 0 (fun w '(tile_id, st) =>
         (add32 tile_id (out_tensor_stride_w a),
          write_tile s (out_is_mxfp4 a) single_tile_size_bytes tile_id st))
         (row_start_tile_id, st))))
      (sbw_start_tile_id, (l1_read_addr, tr))) in
  tr ++ [E_noc_async_write_barrier;
         E_cb_pop_front cb_id_out0 (out_subblock_tile_count a)].

(** Lines 87-128: one batch. *)
Definition batch_body (a : args) (pf : platform)
    (start_tile_id : Z) (tr : list event) : list event :=
  snd (for_loop (Z.to_nat (out_num_subblocks_h a)) 0 (fun sbh '(sbh_start_tile_id, tr) =>
    (add32 sbh_start_tile_id (out_tensor_next_subblock_stride_h a),
     snd (for_loop (Z.to_nat (out_num_subblocks_w a)) 0 (fun sbw '(sbw_start_tile_id, tr) =>
       (add32 sbw_start_tile_id (out_tensor_next_subblock_stride_w a),
        subblock_body a pf sbw_start_tile_id tr))
       (sbh_start_tile_id, tr))))
    (start_tile_id, tr)).

(** Lines 86-129, the first [n] batches. *)
Definition batches (a : args) (pf : platform) (n : nat) : Z * list event :=
  for_loop n 0 (fun b '(start, tr) =>
    (add32 start (MtNt a), batch_body a pf start tr))
    (out_tensor_start_tile_id a, []).

Definition kernel_main (a : args) (pf : platform) : list event :=
  snd (batches a pf (Z.to_nat (batch a))).

End Writer.

(** ** What the calls do to memory *)

(** The effect of the calls the core executes itself.  A variable-length
    array takes the first [len] words of its block, with whatever they
    hold; the words a transfer moves are owned by the transfer engine and
    are not modelled. *)
Definition exec (e : event) (m : mem) : option mem :=
  match e with
  | E_alloca p len =>
      b ← m !! p_blk p;
      if (0 <=? len) && (len <=? Z.of_nat (length b))
      then Some (<[p_blk p := take (Z.to_nat len) b]> m)
      else None
  | E_convert_mxfp4_to_fp32_tile src dst n => convert_mxfp4_to_fp32_tile src dst n m
  | E_convert_fp32_to_mxfp4_tile src dst n => convert_fp32_to_mxfp4_tile src dst n m
  | _ => Some m
  end.

(** Modelled from the spec: what a write transfer moves
    ([noc_async_write] and [noc_async_write_tile] of [dataflow_api.h] are
    not among the sources).  A transfer copies one tile, or the given
    number of bytes, out of the staging slot at [l1_addr]: [size] bytes
    for [noc_async_write], a whole page for [noc_async_write_tile]. *)
Definition payload (e : event) (m : mem) : option (list Z) :=
  match e with
  | E_noc_async_write _ _ l1_addr size =>
      read_words m (l1_ptr l1_addr) (size / sizeof_uint32_t)
  | E_noc_async_write_tile _ s l1_addr =>
      read_words m (l1_ptr l1_addr) (page_size s / sizeof_uint32_t)
  | _ => None
  end.

Definition is_write (e : event) : bool :=
  match e with
  | E_noc_async_write _ _ _ _ | E_noc_async_write_tile _ _ _ => true
  | _ => false
  end.

(** Run a trace on memory, collecting what each write transfer moves. *)
Fixpoint transfers (tr : list event) (m : mem) : option (list (list Z) * mem) :=
  match tr with
  | [] => Some ([], m)
  | e :: tr =>
      m ← exec e m;
      if is_write e
      then d ← payload e m; '(ds, m) ← transfers tr m; Some (d :: ds, m)
      else transfers tr m
  end.

(** ** Transfers in flight *)

#[global] Instance ptr_eq_dec : EqDecision ptr.
Proof. solve_decision. Defined.

(** Modelled from the spec: when a read transfer is complete
    ([noc_async_read_tile] and [noc_async_read_barrier] of
    [dataflow_api.h] are not among the sources).  Transfers are issued
    without waiting, and a barrier blocks until every transfer issued
    since the previous barrier has completed; so a read is outstanding
    from its issue to the next barrier.  The check walks a trace with the
    L1 pointers of the outstanding reads and fails at a decode whose
    source is one of them. *)
Fixpoint decodes_after_barrier (outstanding : list ptr) (tr : list event) : bool :=
  match tr with
  | [] => true
  | E_noc_async_read_tile _ _ l1_addr :: tr =>
      decodes_after_barrier (l1_ptr l1_addr :: outstanding) tr
  | E_noc_async_read_barrier :: tr => decodes_after_barrier [] tr
  | E_convert_mxfp4_to_fp32_tile mxfp4_tile _ _ :: tr =>
      negb (bool_decide (mxfp4_tile ∈ outstanding))
      && decodes_after_barrier outstanding tr
  | _ :: tr => decodes_after_barrier outstanding tr
  end.

(** ** Observations on a trace *)

(** The tile index a transfer is issued for, if it is one of [op]. *)
Definition tile_id_of (op : operand) (e : event) : list Z :=
  match e with
  | E_noc_async_read_tile tile_id s _ =>
      if decide (acc_operand s = op) then [tile_id] else []
  | E_noc_async_write_tile tile_id s _ =>
      if decide (acc_operand s = op) then [tile_id] else []
  | E_noc_async_write tile_id _ _ _ =>
      if decide (Out = op) then [tile_id] else []
  | _ => []
  end.

Definition tile_ids (op : operand) (tr : list event) : list Z :=
  tr ≫= tile_id_of op.

(** The traversal as the specification words it: the tiles of one block in
    row-major order, and the blocks of all batches. *)
Definition block_tile_ids (block_start stride_h stride_w block_h block_w : Z)
    : list Z :=
  h ← seqZ 0 block_h; w ← seqZ 0 block_w;
  [wrap32 (block_start + h * stride_h + w * stride_w)].

Definition traversal_spec (start batch_stride next_block_stride stride_h stride_w
    batch num_blocks block_h block_w : Z) : list Z :=
  b ← seqZ 0 batch; block ← seqZ 0 num_blocks;
  block_tile_ids (wrap32 (start + b * batch_stride + block * next_block_stride))
    stride_h stride_w block_h block_w.

Definition subblock_traversal_spec (start batch_stride
    next_subblock_stride_h next_subblock_stride_w stride_h stride_w
    batch num_subblocks_h num_subblocks_w subblock_h subblock_w : Z) : list Z :=
  b ← seqZ 0 batch; sbh ← seqZ 0 num_subblocks_h; sbw ← seqZ 0 num_subblocks_w;
  block_tile_ids
    (wrap32 (start + b * batch_stride + sbh * next_subblock_stride_h
             + sbw * next_subblock_stride_w))
    stride_h stride_w subblock_h subblock_w.

(** The traversal as the loop nests compute it: every index is reached
    from the start index by repeated wrapping additions. *)
Definition emit (op owner : operand) (tile_id : Z) : list Z :=
  if decide (owner = op) then [tile_id] else [].

Definition block_ids (op owner : operand) (stride_h stride_w block_h block_w start : Z)
    : list Z :=
  seq 0 (Z.to_nat block_h) ≫= fun kh =>
  seq 0 (Z.to_nat block_w) ≫= fun kw =>
    emit op owner (Nat.iter kw (fun x => add32 x stride_w)
                  (Nat.iter kh (fun x => add32 x stride_h) start)).

Definition reader_block_ids (op : operand) (a : Reader.args) (cur : Z * Z)
    : list Z :=
  block_ids op In0 (Reader.in0_tensor_stride_h a) (Reader.in0_tensor_stride_w a)
    (Reader.in0_block_h a) (Reader.in0_block_w a) (fst cur) ++
  block_ids op In1 (Reader.in1_tensor_stride_h a) (Reader.in1_tensor_stride_w a)
    (Reader.in1_block_h a) (Reader.in1_block_w a) (snd cur).

Definition reader_batch_ids (op : operand) (a : Reader.args) (start : Z * Z)
    : list Z :=
  seq 0 (Z.to_nat (Reader.num_blocks a)) ≫= fun k =>
    reader_block_ids op a (Nat.iter k (Reader.next_block a) start).

Definition writer_batch_ids (op : operand) (a : Writer.args) (start : Z)
    : list Z :=
  seq 0 (Z.to_nat (Writer.out_num_subblocks_h a)) ≫= fun kh =>
  seq 0 (Z.to_nat (Writer.out_num_subblocks_w a)) ≫= fun kw =>
    block_ids op Out (Writer.out_tensor_stride_h a) (Writer.out_tensor_stride_w a)
      (Writer.out_subblock_h a) (Writer.out_subblock_w a)
      (Nat.iter kw (fun x => add32 x (Writer.out_tensor_next_subblock_stride_w a))
         (Nat.iter kh (fun x => add32 x (Writer.out_tensor_next_subblock_stride_h a))
            start)).

(** ** Further notions used below *)

(** The same words can be accessed in [m'] as in [m]. *)
Definition same_access (m m' : mem) : Prop :=
  forall q k, is_Some (load m' q k) <-> is_Some (load m q k).

(** [v'] is [v], or one of the two is the other with the sign bit set;
    the value 0 stands alone. *)
Definition same_magnitude (v v' : Z) : Prop :=
  v' = v \/
  (0 < v < 2 ^ 31 /\ v' = v + 2 ^ 31) \/
  (0 < v' < 2 ^ 31 /\ v = v' + 2 ^ 31).

(** ** The order of the calls

    The order in which a kernel calls the circular-buffer and transfer
    interface is checked by running a state machine over its trace. *)

Fixpoint run {St : Type} (step : St -> event -> option St) (s : St)
    (tr : list event) : option St :=
  match tr with
  | [] => Some s
  | e :: tr => s' ← step s e; run step s' tr
  end.

(** The reader, block after block: space is reserved in the buffer of
    operand 0, then in that of operand 1; tiles are read, and a decode
    takes the tile read last, in place; the reads are awaited; the two
    buffers are pushed, each by the number of tiles reserved. *)
Inductive reader_phase :=
| R_idle
| R_reserved0 (n0 : Z)
| R_filling (n0 n1 : Z) (last_read : option Z)
| R_landed (n0 n1 : Z)
| R_pushed0 (n1 : Z).

Definition reader_step (s : reader_phase) (e : event) : option reader_phase :=
  match s, e with
  | R_idle, E_cb_reserve_back cb n =>
      if decide (cb = Reader.cb_id_in0) then Some (R_reserved0 n) else None
  | R_reserved0 n0, E_cb_reserve_back cb n =>
      if decide (cb = Reader.cb_id_in1) then Some (R_filling n0 n None) else None
  | R_filling n0 n1 _, E_noc_async_read_tile _ _ l1_addr =>
      Some (R_filling n0 n1 (Some l1_addr))
  | R_filling n0 n1 (Some l1_addr), E_convert_mxfp4_to_fp32_tile src dst _ =>
      if decide (src = l1_ptr l1_addr /\ dst = l1_ptr l1_addr)
      then Some (R_filling n0 n1 None) else None
  | R_filling n0 n1 _, E_noc_async_read_barrier => Some (R_landed n0 n1)
  | R_landed n0 n1, E_cb_push_back cb n =>
      if decide (cb = Reader.cb_id_in0 /\ n = n0) then Some (R_pushed0 n1) else None
  | R_pushed0 n1, E_cb_push_back cb n =>
      if decide (cb = Reader.cb_id_in1 /\ n = n1) then Some R_idle else None
  | _, _ => None
  end.

(** The writer, subblock after subblock: tiles are awaited at the front
    of the output buffer; each tile is written whole, or an array is
    declared, the tile is encoded into it and a write is issued for the
    address the encoder read from; the writes are awaited; the buffer is
    popped by the number of tiles awaited. *)
Inductive writer_phase :=
| W_idle
| W_front (n : Z)
| W_declared (n : Z) (buffer : ptr)
| W_encoded (n : Z) (staged : ptr)
| W_flushed (n : Z).

Definition writer_step (s : writer_phase) (e : event) : option writer_phase :=
  match s, e with
  | W_idle, E_cb_wait_front cb n =>
      if decide (cb = Writer.cb_id_out0) then Some (W_front n) else None
  | W_front n, E_noc_async_write_tile _ _ _ => Some (W_front n)
  | W_front n, E_alloca p _ => Some (W_declared n p)
  | W_declared n p, E_convert_fp32_to_mxfp4_tile src dst _ =>
      if decide (dst = p) then Some (W_encoded n src) else None
  | W_encoded n src, E_noc_async_write _ _ l1_addr _ =>
      if decide (l1_ptr l1_addr = src) then Some (W_front n) else None
  | W_front n, E_noc_async_write_barrier => Some (W_flushed n)
  | W_flushed n, E_cb_pop_front cb n' =>
      if decide (cb = Writer.cb_id_out0 /\ n' = n) then Some W_idle else None
  | _, _ => None
  end.

(** The L1 address a transfer names, with the operand it is for. *)
Definition transfer_slot (e : event) : option (operand * Z) :=
  match e with
  | E_noc_async_read_tile _ s l1_addr => Some (acc_operand s, l1_addr)
  | E_noc_async_write_tile _ s l1_addr => Some (acc_operand s, l1_addr)
  | E_noc_async_write _ _ l1_addr _ => Some (Out, l1_addr)
  | _ => None
  end.

Definition claims_buffer (e : event) : bool :=
  match e with
  | E_cb_reserve_back _ _ | E_cb_wait_front _ _ => true
  | _ => false
  end.

(** Consecutive slots: between two calls that reserve or await a buffer,
    each transfer of an operand names the address one tile size after
    that of the operand's previous transfer.  The state is the address
    of the last transfer of each operand. *)
Definition slot_step (tile_size : operand -> Z) (last : operand -> option Z)
    (e : event) : option (operand -> option Z) :=
  if claims_buffer e then Some (fun _ => None)
  else
    match transfer_slot e with
    | None => Some last
    | Some (op, l1_addr) =>
        let last' := fun o => if decide (o = op) then Some l1_addr else last o in
        match last op with
        | None => Some last'
        | Some prev =>
            if decide (l1_addr = add32 prev (tile_size op)) then Some last'
            else None
        end
    end.

(** [get_tile_size] of the buffer of each operand. *)
Definition tile_size_of (pf : platform) (op : operand) : Z :=
  match op with
  | In0 => get_tile_size pf Reader.cb_id_in0
  | In1 => get_tile_size pf Reader.cb_id_in1
  | Out => get_tile_size pf Writer.cb_id_out0
  end.

(** Calls of the codec in a trace. *)
Definition is_decode (e : event) : bool :=
  match e with E_convert_mxfp4_to_fp32_tile _ _ _ => true | _ => false end.

Definition is_encode (e : event) : bool :=
  match e with E_convert_fp32_to_mxfp4_tile _ _ _ => true | _ => false end.

#[global] Arguments find_max_exp : simpl never.
#[global] Arguments pack_block : simpl never.
#[global] Arguments unpack_block : simpl never.
#[global] Arguments convert_fp32_to_mxfp4_tile : simpl never.
#[global] Arguments convert_mxfp4_to_fp32_tile : simpl never.
#[global] Arguments max_exp_upto : simpl never.
#[global] Arguments pack_word : simpl never.
#[global] Arguments block_max_exp : simpl never.
#[global] Arguments block_mag : simpl never.
#[global] Arguments wrap32 : simpl never.
#[global] Arguments shl32 : simpl never.
#[global] Arguments quantize : simpl never.

Lemma max_exp_upto_S (val : Z -> Z) (n : nat) :
  max_exp_upto val (S n) = max_exp_step (val (Z.of_nat n)) (max_exp_upto val n).
Proof. reflexivity. Qed.

Lemma pack_word_S (mag : Z -> Z) (w : Z) (n : nat) :
  pack_word mag w (S n) =
    if Z.of_nat n / 8 =? w
    then Z.lor (pack_word mag w n)
           (shl32 (mag (Z.of_nat n)) (Z.of_nat n mod 8 * 4))
    else pack_word mag w n.
Proof. reflexivity. Qed.

(** ** Facts about machine arithmetic *)

Lemma wrap32_small (x : Z) : 0 <= x < 2 ^ 32 -> wrap32 x = x.
Proof. intros H. unfold wrap32. by apply Z.mod_small. Qed.

Lemma land_ones_range (x n : Z) : 0 <= n -> 0 <= Z.land x (Z.ones n) < 2 ^ n.
Proof.
  intros Hn. rewrite Z.land_ones by done. apply Z.mod_pos_bound.
  by apply Z.pow_pos_nonneg.
Qed.

Lemma shared_exp_of_range (w : Z) : 0 <= shared_exp_of w < 256.
Proof. unfold shared_exp_of. apply (land_ones_range _ 8). lia. Qed.

Lemma exp_field_range (v : Z) : 0 <= exp_field v < 256.
Proof. unfold exp_field. apply (land_ones_range _ 8). lia. Qed.

Lemma nibble_range (w t : Z) : 0 <= nibble w t < 16.
Proof. unfold nibble. apply (land_ones_range _ 4). lia. Qed.

Lemma mantissa4_range (v : Z) : 0 <= mantissa4 v < 16.
Proof.
  unfold mantissa4. rewrite Z.shiftr_div_pow2 by lia.
  pose proof (land_ones_range v 23 ltac:(lia)) as H.
  change (Z.ones 23) with 8388607 in H. change (2 ^ 23) with 8388608 in H.
  change (2 ^ 19) with 524288.
  split; [apply Z.div_pos; lia | apply Z.div_lt_upper_bound; lia].
Qed.

Lemma shiftr_range (x n b : Z) : 0 <= n -> 0 <= x < b -> 0 <= Z.shiftr x n < b.
Proof.
  intros Hn Hx. rewrite Z.shiftr_div_pow2 by done.
  assert (0 < 2 ^ n) by (by apply Z.pow_pos_nonneg).
  split; [apply Z.div_pos; lia |].
  apply Z.le_lt_trans with x; [| lia]. apply Z.div_le_upper_bound; nia.
Qed.

Lemma quantize_range (max_exp v : Z) : 0 <= quantize max_exp v < 16.
Proof.
  unfold quantize. destruct (v =? 0); [lia |].
  destruct (_ && _) eqn:E; [| lia].
  apply andb_true_iff in E as [E1 E2].
  apply Z.leb_le in E1.
  pose proof (shiftr_range (mantissa4 v) (max_exp - exp_field v) 16 E1
                (mantissa4_range v)) as H.
  unfold wrap8. rewrite Z.mod_small; lia.
Qed.

Lemma wrap32_range (x : Z) : 0 <= wrap32 x < 2 ^ 32.
Proof. unfold wrap32. apply Z.mod_pos_bound. lia. Qed.

Lemma wrap32_add_l (x y : Z) : wrap32 (wrap32 x + y) = wrap32 (x + y).
Proof. unfold wrap32. apply Zplus_mod_idemp_l. Qed.

(** ** Facts about loads and stores *)

Lemma load_loc (m : mem) (p q : ptr) (i k : Z) :
  loc p i = loc q k -> load m p i = load m q k.
Proof. unfold loc, load. intros [= -> ->]. done. Qed.

Lemma store_succeeds (m : mem) (p : ptr) (i v : Z) :
  is_Some (load m p i) -> is_Some (store m p i v).
Proof.
  unfold load, store. destruct (m !! p_blk p) as [b|]; simpl; [| by intros [? ?]].
  destruct (0 <=? p_off p + i) eqn:E; simpl; [| by intros [? ?]].
  intros [w Hw]. apply lookup_lt_Some in Hw.
  apply Z.leb_le in E.
  assert ((p_off p + i <? Z.of_nat (length b)) = true) as -> by (apply Z.ltb_lt; lia).
  eauto.
Qed.

Lemma load_store_eq (m m' : mem) (p : ptr) (i v : Z) :
  store m p i v = Some m' -> load m' p i = Some v.
Proof.
  unfold load, store. destruct (m !! p_blk p) as [b|] eqn:Hb; simpl; [| done].
  destruct (0 <=? p_off p + i) eqn:E; simpl; [| done].
  destruct (p_off p + i <? Z.of_nat (length b)) eqn:E2; simpl; [| done].
  intros [= <-]. apply Z.ltb_lt in E2.
  rewrite list_lookup_insert_eq by (by eapply lookup_lt_Some).
  simpl. apply Z.leb_le in E. apply list_lookup_insert_eq. lia.
Qed.

Lemma load_store_ne (m m' : mem) (p q : ptr) (i k v : Z) :
  store m p i v = Some m' -> loc q k <> loc p i -> load m' q k = load m q k.
Proof.
  unfold load, store, loc. destruct (m !! p_blk p) as [b|] eqn:Hb; simpl; [| done].
  destruct (0 <=? p_off p + i) eqn:E; simpl; [| done].
  destruct (p_off p + i <? Z.of_nat (length b)) eqn:E2; simpl; [| done].
  intros [= <-] Hne. apply Z.leb_le in E. apply Z.ltb_lt in E2.
  destruct (decide (p_blk q = p_blk p)) as [Hq | Hq].
  - rewrite Hq, Hb. rewrite list_lookup_insert_eq by (by eapply lookup_lt_Some).
    simpl. destruct (0 <=? p_off q + k) eqn:E3; [| done].
    apply Z.leb_le in E3. apply list_lookup_insert_ne.
    intros Heq. apply Hne. f_equal; [done | lia].
  - by rewrite list_lookup_insert_ne.
Qed.

(** ** Regions inside one block *)

Lemma load_block (m : mem) (p : ptr) (b : list Z) (k : Z) :
  m !! p_blk p = Some b -> 0 <= p_off p + k ->
  load m p k = b !! Z.to_nat (p_off p + k).
Proof.
  intros Hb Hk. unfold load. rewrite Hb. simpl.
  by assert ((0 <=? p_off p + k) = true) as -> by (by apply Z.leb_le).
Qed.

Lemma readable_block (m : mem) (p : ptr) (b : list Z) (n : Z) :
  m !! p_blk p = Some b -> 0 <= p_off p ->
  p_off p + n <= Z.of_nat (length b) ->
  readable m p n.
Proof.
  intros Hb Hoff Hlen k Hk. rewrite (load_block m p b) by (done || lia).
  apply lookup_lt_is_Some. lia.
Qed.

Lemma readable_le (m : mem) (p : ptr) (n n' : Z) :
  n' <= n -> readable m p n -> readable m p n'.
Proof. intros Hle Hr k Hk. apply Hr. lia. Qed.

(** ** Tiles filled with one value *)

Lemma block_const_readable (m : mem) (p : ptr) (len : nat) (c n : Z) :
  m !! p_blk p = Some (replicate len c) -> p_off p = 0 ->
  n <= Z.of_nat len -> readable m p n.
Proof.
  intros Hb Hoff Hn. apply (readable_block m p (replicate len c)); [done | lia |].
  rewrite length_replicate. lia.
Qed.

Lemma block_const_load (m : mem) (p : ptr) (len : nat) (c k : Z) :
  m !! p_blk p = Some (replicate len c) -> p_off p = 0 ->
  0 <= k < Z.of_nat len -> load m p k = Some c.
Proof.
  intros Hb Hoff Hk. rewrite (load_block m p (replicate len c)) by (done || lia).
  apply lookup_replicate_2. lia.
Qed.

Lemma block_const_zeroed (m : mem) (p : ptr) (len : nat) (n : Z) :
  m !! p_blk p = Some (replicate len 0) -> p_off p = 0 ->
  n <= Z.of_nat len -> zeroed m p n.
Proof. intros Hb Hoff Hn k Hk. apply (block_const_load m p len); (done || lia). Qed.

Lemma block_const_uniform (m : mem) (p : ptr) (len : nat) (c n : Z) :
  m !! p_blk p = Some (replicate len c) -> p_off p = 0 ->
  32 * (n / 32) <= Z.of_nat len -> uniform_exponents m p n.
Proof.
  intros Hb Hoff Hn i j j' Hi Hj Hj' _ _. unfold block_val, word_at.
  rewrite !(block_const_load m p len c) by (done || lia). done.
Qed.

(** ** The loop rule *)

Lemma for_loopM_inv {St : Type} (Inv : Z -> St -> Prop)
    (body : Z -> St -> option St) (n : nat) (i0 : Z) (s : St) :
  Inv i0 s ->
  (forall i s, i0 <= i < i0 + Z.of_nat n -> Inv i s ->
     exists s', body i s = Some s' /\ Inv (i + 1) s') ->
  exists s', for_loopM n i0 body s = Some s' /\ Inv (i0 + Z.of_nat n) s'.
Proof.
  revert i0 s. induction n as [| n IH]; intros i0 s H0 Hstep.
  - exists s. simpl. by rewrite Z.add_0_r.
  - destruct (Hstep i0 s ltac:(lia) H0) as (s1 & Hb & H1).
    destruct (IH (i0 + 1) s1 H1) as (s2 & Hl & H2).
    { intros i s' Hi. apply Hstep. lia. }
    exists s2. simpl. rewrite Hb. simpl. split; [done |].
    by replace (i0 + Z.of_nat (S n)) with (i0 + 1 + Z.of_nat n) by lia.
Qed.

(** ** Loops that advance a cursor *)

Lemma for_loop_cursor {C R : Type} (next : C -> C) (F : C -> R -> R)
    (obs : R -> list Z) (g : C -> list Z) (n : nat) (i0 : Z) (c : C) (r : R) :
  (forall c r, obs (F c r) = obs r ++ g c) ->
  fst (for_loop n i0 (fun _ '(c, r) => (next c, F c r)) (c, r)) = Nat.iter n next c /\
  obs (snd (for_loop n i0 (fun _ '(c, r) => (next c, F c r)) (c, r))) =
    obs r ++ (seq 0 n ≫= fun k => g (Nat.iter k next c)).
Proof.
  intros HF. revert i0 c r. induction n as [| n IH]; intros i0 c r.
  - simpl. by rewrite app_nil_r.
  - cbn [for_loop]. destruct (IH (i0 + 1) (next c) (F c r)) as [IH1 IH2].
    split.
    + rewrite IH1. symmetry. apply Nat.iter_succ_r.
    + rewrite IH2, HF, <- app_assoc. f_equal.
      rewrite <- cons_seq. rewrite bind_cons. simpl. f_equal.
      rewrite <- fmap_S_seq, list_fmap_bind. apply list_bind_ext; [| done].
      intros k. unfold compose. by rewrite Nat.iter_succ_r.
Qed.

Lemma iter_add32 (s c : Z) (k : nat) :
  0 <= c < 2 ^ 32 ->
  Nat.iter k (fun x => add32 x s) c = wrap32 (c + Z.of_nat k * s).
Proof.
  intros Hc. induction k as [| k IH].
  - simpl. rewrite Z.add_0_r. symmetry. by apply wrap32_small.
  - simpl. rewrite IH. unfold add32, wrap32.
    rewrite Zplus_mod_idemp_l. f_equal. lia.
Qed.

Lemma seqZ_bind {A : Type} (f : Z -> list A) (n : Z) :
  seqZ 0 n ≫= f = seq 0 (Z.to_nat n) ≫= fun k => f (Z.of_nat k).
Proof.
  unfold seqZ. rewrite list_fmap_bind. apply list_bind_ext; [| done].
  intros k. simpl. by rewrite Z.add_0_r.
Qed.

(** ** Index arithmetic never wraps inside a tile *)

Lemma idx_exp (i : Z) : 0 <= i < 2 ^ 27 -> mul32 i 5 = 5 * i.
Proof. intros H. unfold mul32. rewrite wrap32_small; lia. Qed.

Lemma idx_val (i j : Z) :
  0 <= i < 2 ^ 27 -> 0 <= j < 32 ->
  add32 (mul32 i MXFP4_BLOCK_SIZE) j = 32 * i + j.
Proof.
  intros Hi Hj. unfold add32, mul32, MXFP4_BLOCK_SIZE.
  rewrite (wrap32_small (i * 32)) by lia. rewrite wrap32_small; lia.
Qed.

Lemma idx_mag (i j : Z) :
  0 <= i < 2 ^ 27 -> 0 <= j < 32 ->
  add32 (add32 (mul32 i 5) (j / 8)) 1 = 5 * i + 1 + j / 8.
Proof.
  intros Hi Hj. unfold add32, mul32.
  assert (0 <= j / 8 < 4) by (split; [apply Z.div_pos | apply Z.div_lt_upper_bound]; lia).
  rewrite (wrap32_small (i * 5)) by lia.
  rewrite (wrap32_small (i * 5 + j / 8)) by lia.
  rewrite wrap32_small; lia.
Qed.

Lemma blocks_bound (tile_size i : Z) :
  0 <= tile_size < 2 ^ 32 -> 0 <= i < tile_size / MXFP4_BLOCK_SIZE ->
  0 <= i < 2 ^ 27.
Proof.
  intros Ht Hi. split; [lia |]. unfold MXFP4_BLOCK_SIZE in Hi.
  assert (tile_size / 32 <= 2 ^ 27) by (apply Z.div_le_upper_bound; lia).
  lia.
Qed.

(** ** Nibbles of packed words *)

Lemma nibble_lor (a b t : Z) :
  nibble (Z.lor a b) t = Z.lor (nibble a t) (nibble b t).
Proof. unfold nibble. by rewrite Z.shiftr_lor, Z.land_lor_distr_l. Qed.

Lemma nibble_0 (t : Z) : nibble 0 t = 0.
Proof. unfold nibble. by rewrite Z.shiftr_0_l. Qed.

Lemma shl32_nibble_slot (v t : Z) :
  0 <= v < 16 -> 0 <= t < 8 -> shl32 v (t * 4) = Z.shiftl v (t * 4).
Proof.
  intros Hv Ht. unfold shl32. apply wrap32_small.
  rewrite Z.shiftl_mul_pow2 by lia.
  assert (0 < 2 ^ (t * 4) <= 2 ^ 28).
  { split; [apply Z.pow_pos_nonneg; lia | apply Z.pow_le_mono_r; lia]. }
  change (2 ^ 32) with (16 * 2 ^ 28). nia.
Qed.

Lemma nibble_shiftl (v t t' : Z) :
  0 <= v < 16 -> 0 <= t -> 0 <= t' ->
  nibble (Z.shiftl v (t' * 4)) t = if t =? t' then v else 0.
Proof.
  intros Hv Ht Ht'. unfold nibble. change 15 with (Z.ones 4).
  rewrite Z.land_ones by lia. change (2 ^ 4) with 16.
  destruct (Z.eqb_spec t t') as [-> | Hne].
  - rewrite Z.shiftr_shiftl_l by lia. rewrite Z.sub_diag, Z.shiftl_0_r.
    apply Z.mod_small. lia.
  - destruct (Z.lt_ge_cases t t') as [Hlt | Hge].
    + rewrite Z.shiftr_shiftl_l by lia.
      rewrite Z.shiftl_mul_pow2 by lia.
      replace (t' * 4 - t * 4) with (4 + (t' - t - 1) * 4) by lia.
      rewrite Z.pow_add_r by lia. change (2 ^ 4) with 16.
      rewrite Z.mul_assoc, (Z.mul_comm v 16), <- Z.mul_assoc.
      rewrite Z.mul_comm. apply Z.mod_mul. lia.
    + rewrite Z.shiftr_shiftl_r by lia.
      rewrite Z.shiftr_div_pow2 by lia.
      replace (t * 4 - t' * 4) with (4 + (t - t' - 1) * 4) by lia.
      rewrite Z.pow_add_r by lia. change (2 ^ 4) with 16.
      assert (0 < 2 ^ ((t - t' - 1) * 4)) by (apply Z.pow_pos_nonneg; lia).
      rewrite Z.div_small by nia. done.
Qed.

Lemma nibble_pack_word (mag : Z -> Z) (w t : Z) (n : nat) :
  (forall j, 0 <= mag j < 16) -> 0 <= w -> 0 <= t < 8 ->
  nibble (pack_word mag w n) t =
    if 8 * w + t <? Z.of_nat n then mag (8 * w + t) else 0.
Proof.
  intros Hmag Hw Ht. induction n as [| n IH].
  - simpl. rewrite nibble_0. destruct (Z.ltb_spec (8 * w + t) (Z.of_nat 0)); [lia | done].
  - rewrite pack_word_S.
    assert (0 <= Z.of_nat n mod 8 < 8) as Hm by (apply Z.mod_pos_bound; lia).
    pose proof (Z.div_mod (Z.of_nat n) 8 ltac:(lia)) as Hdm.
    destruct (Z.eqb_spec (Z.of_nat n / 8) w) as [Hw' | Hw'].
    + rewrite nibble_lor, IH, shl32_nibble_slot by (done || apply Hmag).
      rewrite nibble_shiftl by (apply Hmag || lia).
      destruct (Z.eqb_spec t (Z.of_nat n mod 8)) as [-> | Hne].
      * replace (8 * w + Z.of_nat n mod 8) with (Z.of_nat n) by lia.
        rewrite Z.ltb_irrefl.
        assert ((Z.of_nat n <? Z.of_nat (S n)) = true) as -> by (apply Z.ltb_lt; lia).
        done.
      * rewrite Z.lor_0_r.
        destruct (Z.ltb_spec (8 * w + t) (Z.of_nat n)),
                 (Z.ltb_spec (8 * w + t) (Z.of_nat (S n))); (done || lia).
    + rewrite IH.
      destruct (Z.ltb_spec (8 * w + t) (Z.of_nat n)),
               (Z.ltb_spec (8 * w + t) (Z.of_nat (S n))); (done || lia).
Qed.

(** ** The encoder, block by block *)

Lemma word_at_load (m : mem) (p : ptr) (k : Z) :
  is_Some (load m p k) -> load m p k = Some (word_at m p k).
Proof. unfold word_at. by intros [v ->]. Qed.

Lemma find_max_exp_spec (m : mem) (src : ptr) (i : Z) :
  0 <= i < 2 ^ 27 ->
  (forall j, 0 <= j < 32 -> is_Some (load m src (32 * i + j))) ->
  find_max_exp src i m = Some (block_max_exp m src i).
Proof.
  intros Hi Hrd. unfold find_max_exp, block_max_exp.
  change (Z.to_nat MXFP4_BLOCK_SIZE) with 32%nat.
  destruct (for_loopM_inv
    (fun j acc => acc = max_exp_upto (block_val m src i) (Z.to_nat j))
    (fun j max_exp =>
       fp32_val ← load m src (add32 (mul32 i MXFP4_BLOCK_SIZE) j);
       Some (max_exp_step fp32_val max_exp)) 32 0 0) as (r & Hr & ->).
  - done.
  - intros j acc Hj ->. rewrite idx_val by lia.
    rewrite (word_at_load m src (32 * i + j)) by (apply Hrd; lia). simpl.
    eexists; split; [done |].
    replace (Z.to_nat (j + 1)) with (S (Z.to_nat j)) by lia.
    rewrite max_exp_upto_S. unfold block_val at 1. by rewrite Z2Nat.id by lia.
  - done.
Qed.

Lemma pack_word_succ (mag : Z -> Z) (w j : Z) :
  0 <= j ->
  pack_word mag w (Z.to_nat (j + 1)) =
    if j / 8 =? w
    then Z.lor (pack_word mag w (Z.to_nat j)) (shl32 (mag j) (j mod 8 * 4))
    else pack_word mag w (Z.to_nat j).
Proof.
  intros Hj. replace (Z.to_nat (j + 1)) with (S (Z.to_nat j)) by lia.
  rewrite pack_word_S. by rewrite Z2Nat.id by lia.
Qed.

Lemma pack_block_spec (m : mem) (src dst : ptr) (i max_exp : Z) :
  0 <= i < 2 ^ 27 ->
  (forall j, 0 <= j < 32 -> is_Some (load m src (32 * i + j))) ->
  (forall w, 0 <= w < 4 -> is_Some (load m dst (5 * i + 1 + w))) ->
  (forall j w, 0 <= j < 32 -> 0 <= w < 4 ->
     loc src (32 * i + j) <> loc dst (5 * i + 1 + w)) ->
  exists m', pack_block src dst i max_exp m = Some m' /\
    (forall w, 0 <= w < 4 ->
       load m' dst (5 * i + 1 + w) =
         Some (Z.lor (word_at m dst (5 * i + 1 + w))
                 (pack_word (fun j => quantize max_exp (block_val m src i j)) w 32))) /\
    (forall q k, (forall w, 0 <= w < 4 -> loc q k <> loc dst (5 * i + 1 + w)) ->
       load m' q k = load m q k).
Proof.
  intros Hi Hsrc Hdst Hsep. unfold pack_block.
  change (Z.to_nat MXFP4_BLOCK_SIZE) with 32%nat.
  set (mag := fun j => quantize max_exp (block_val m src i j)).
  destruct (for_loopM_inv
    (fun j mj =>
       (forall w, 0 <= w < 4 ->
          load mj dst (5 * i + 1 + w) =
            Some (Z.lor (word_at m dst (5 * i + 1 + w))
                    (pack_word mag w (Z.to_nat j)))) /\
       (forall q k, (forall w, 0 <= w < 4 -> loc q k <> loc dst (5 * i + 1 + w)) ->
          load mj q k = load m q k))
    (fun j m =>
       fp32_val ← load m src (add32 (mul32 i MXFP4_BLOCK_SIZE) j);
       let mxfp4_val := quantize max_exp fp32_val in
       let byte_idx := add32 (add32 (mul32 i 5) (j / 8)) 1 in
       let nibble_idx := j mod 8 in
       w ← load m dst byte_idx;
       store m dst byte_idx (Z.lor w (shl32 mxfp4_val (nibble_idx * 4))))
    32 0 m) as (m' & Hm' & Hw & Hfr).
  - split; [| done]. intros w Hw. simpl. rewrite Z.lor_0_r.
    by apply word_at_load, Hdst.
  - intros j mj Hj [Hw Hfr]. cbv zeta.
    assert (0 <= j / 8 < 4) as Hq
      by (split; [apply Z.div_pos | apply Z.div_lt_upper_bound]; lia).
    rewrite idx_val, idx_mag by lia.
    rewrite (Hfr src (32 * i + j)) by (intros w ?; apply Hsep; lia).
    rewrite (word_at_load m src (32 * i + j)) by (apply Hsrc; lia). simpl.
    rewrite (Hw (j / 8)) by done. simpl.
    fold (block_val m src i j). fold (mag j).
    destruct (store_succeeds mj dst (5 * i + 1 + j / 8)
      (Z.lor (Z.lor (word_at m dst (5 * i + 1 + j / 8))
                (pack_word mag (j / 8) (Z.to_nat j)))
         (shl32 (mag j) (j mod 8 * 4)))) as [m2 Hst].
    { rewrite (Hw (j / 8)) by done. eauto. }
    exists m2. split; [done |]. split.
    + intros w Hwr. rewrite pack_word_succ by lia.
      destruct (Z.eqb_spec (j / 8) w) as [<- | Hne].
      * rewrite (load_store_eq _ _ _ _ _ Hst). by rewrite Z.lor_assoc.
      * rewrite (load_store_ne _ _ _ _ _ _ _ Hst); [by apply Hw |].
        unfold loc. intros [= ?]. lia.
    + intros q k Hq'. rewrite (load_store_ne _ _ _ _ _ _ _ Hst) by (by apply Hq').
      by apply Hfr.
  - exists m'. done.
Qed.

Lemma max_exp_upto_ext (f g : Z -> Z) (n : nat) :
  (forall j, 0 <= j < Z.of_nat n -> f j = g j) ->
  max_exp_upto f n = max_exp_upto g n.
Proof.
  induction n as [| n IH]; intros H; [done |].
  rewrite max_exp_upto_S. rewrite H by lia. rewrite IH; [done |].
  intros j Hj. apply H. lia.
Qed.

Lemma pack_word_ext (f g : Z -> Z) (w : Z) (n : nat) :
  (forall j, 0 <= j < Z.of_nat n -> f j = g j) ->
  pack_word f w n = pack_word g w n.
Proof.
  induction n as [| n IH]; intros H; [done |].
  rewrite pack_word_S. rewrite H by lia. rewrite IH; [done |].
  intros j Hj. apply H. lia.
Qed.

Lemma loc_same_ptr (p : ptr) (a b : Z) : a <> b -> loc p a <> loc p b.
Proof. unfold loc. intros Hne [= ?]. lia. Qed.

Lemma separate_blocks (p : ptr) (n : Z) (q : ptr) (k : Z) :
  p_blk p <> p_blk q -> separate p n q k.
Proof. intros Hne a b _ _. unfold loc. intros [= ? ?]. done. Qed.

Lemma convert_fp32_to_mxfp4_tile_spec (m : mem) (src dst : ptr) (n : Z) :
  0 <= n < 2 ^ 32 ->
  readable m src (32 * (n / 32)) ->
  readable m dst (5 * (n / 32)) ->
  separate src (32 * (n / 32)) dst (5 * (n / 32)) ->
  exists m', convert_fp32_to_mxfp4_tile src dst n m = Some m' /\
    (forall i, 0 <= i < n / 32 ->
       load m' dst (5 * i) = Some (shl32 (block_max_exp m src i) 24)) /\
    (forall i w, 0 <= i < n / 32 -> 0 <= w < 4 ->
       load m' dst (5 * i + 1 + w) =
         Some (Z.lor (word_at m dst (5 * i + 1 + w))
                 (pack_word (block_mag m src i) w 32))) /\
    (forall q k, (forall b, 0 <= b < 5 * (n / 32) -> loc q k <> loc dst b) ->
       load m' q k = load m q k).
Proof.
  intros Hn Hsrc Hdst Hsep. unfold convert_fp32_to_mxfp4_tile.
  change MXFP4_BLOCK_SIZE with 32 at 1.
  assert (0 <= n / 32) as HG by (apply Z.div_pos; lia).
  destruct (for_loopM_inv
    (fun i mi =>
       (forall i', 0 <= i' < i ->
          load mi dst (5 * i') = Some (shl32 (block_max_exp m src i') 24)) /\
       (forall i' w, 0 <= i' < i -> 0 <= w < 4 ->
          load mi dst (5 * i' + 1 + w) =
            Some (Z.lor (word_at m dst (5 * i' + 1 + w))
                    (pack_word (block_mag m src i') w 32))) /\
       (forall q k, (forall b, 0 <= b < 5 * i -> loc q k <> loc dst b) ->
          load mi q k = load m q k))
    (fun i m =>
       max_exp ← find_max_exp src i m;
       m ← store m dst (mul32 i 5) (shl32 max_exp 24);
       pack_block src dst i max_exp m)
    (Z.to_nat (n / 32)) 0 m) as (m' & Hm' & Hinv).
  - split; [intros; lia |]. split; [intros; lia | done].
  - intros i mi Hi (Hexp & Hmag & Hfr).
    rewrite Z2Nat.id in Hi by done.
    assert (0 <= i < 2 ^ 27) as Hi27.
    { apply (blocks_bound n); [done |]. unfold MXFP4_BLOCK_SIZE. lia. }
    (* the source block is as it was *)
    assert (forall j, 0 <= j < 32 ->
              load mi src (32 * i + j) = load m src (32 * i + j)) as Hsrc_i.
    { intros j Hj. apply Hfr. intros b Hb. apply Hsep; lia. }
    assert (forall b, 5 * i <= b < 5 * (n / 32) ->
              load mi dst b = load m dst b) as Hdst_i.
    { intros b Hb. apply Hfr. intros b' Hb'. apply loc_same_ptr. lia. }
    rewrite find_max_exp_spec; [| done |]; cycle 1.
    { intros j Hj. rewrite Hsrc_i by done. apply Hsrc. lia. }
    simpl. rewrite idx_exp by done.
    assert (block_max_exp mi src i = block_max_exp m src i) as ->.
    { unfold block_max_exp. apply max_exp_upto_ext. intros j Hj.
      unfold block_val, word_at. rewrite Hsrc_i; [done | lia]. }
    destruct (store_succeeds mi dst (5 * i) (shl32 (block_max_exp m src i) 24))
      as [m1 Hm1].
    { rewrite Hdst_i by lia. apply Hdst. lia. }
    rewrite Hm1. simpl.
    assert (forall q k, loc q k <> loc dst (5 * i) -> load m1 q k = load mi q k)
      as Hfr1 by (intros q k; apply (load_store_ne _ _ _ _ _ _ _ Hm1)).
    destruct (pack_block_spec m1 src dst i (block_max_exp m src i))
      as (m2 & Hm2 & Hmag2 & Hfr2); [done | | | |].
    { intros j Hj. rewrite Hfr1 by (apply Hsep; lia).
      rewrite Hsrc_i by done. apply Hsrc. lia. }
    { intros w Hw. rewrite Hfr1 by (apply loc_same_ptr; lia).
      rewrite Hdst_i by lia. apply Hdst. lia. }
    { intros j w Hj Hw. apply Hsep; lia. }
    exists m2. split; [done |]. split; [| split].
    + intros i' Hi'.
      rewrite Hfr2 by (intros w Hw; apply loc_same_ptr; lia).
      destruct (decide (i' = i)) as [-> | Hne].
      * apply (load_store_eq _ _ _ _ _ Hm1).
      * rewrite Hfr1 by (apply loc_same_ptr; lia). apply Hexp. lia.
    + intros i' w Hi' Hw.
      destruct (decide (i' = i)) as [-> | Hne].
      * rewrite Hmag2 by done.
        assert (word_at m1 dst (5 * i + 1 + w) = word_at m dst (5 * i + 1 + w))
          as ->.
        { unfold word_at. rewrite Hfr1 by (apply loc_same_ptr; lia).
          by rewrite Hdst_i by lia. }
        rewrite (pack_word_ext _ (block_mag m src i)); [done |].
        intros j Hj. unfold block_mag, block_val, word_at.
        rewrite Hfr1 by (apply Hsep; lia). rewrite Hsrc_i; [done | lia].
      * rewrite Hfr2 by (intros w' Hw'; apply loc_same_ptr; lia).
        rewrite Hfr1 by (apply loc_same_ptr; lia). apply Hmag; [lia | done].
    + intros q k Hq.
      rewrite Hfr2 by (intros w Hw; apply Hq; lia).
      rewrite Hfr1 by (apply Hq; lia).
      apply Hfr. intros b Hb. apply Hq. lia.
  - rewrite Z2Nat.id in Hinv by done. simpl in Hinv.
    destruct Hinv as (Hexp & Hmag & Hfr). exists m'. done.
Qed.

(** ** The decoder, block by block *)

Lemma unpack_block_spec (m : mem) (src dst : ptr) (i shared_exp : Z) :
  0 <= i < 2 ^ 27 ->
  (forall w, 0 <= w < 4 -> is_Some (load m src (5 * i + 1 + w))) ->
  (forall j, 0 <= j < 32 -> is_Some (load m dst (32 * i + j))) ->
  (forall w j, 0 <= w < 4 -> 0 <= j < 32 ->
     loc src (5 * i + 1 + w) <> loc dst (32 * i + j)) ->
  exists m', unpack_block src dst i shared_exp m = Some m' /\
    (forall j, 0 <= j < 32 ->
       load m' dst (32 * i + j) =
         Some (decode_value shared_exp
                 (nibble (word_at m src (5 * i + 1 + j / 8)) (j mod 8)))) /\
    (forall q k, (forall j, 0 <= j < 32 -> loc q k <> loc dst (32 * i + j)) ->
       load m' q k = load m q k).
Proof.
  intros Hi Hsrc Hdst Hsep. unfold unpack_block.
  change (Z.to_nat MXFP4_BLOCK_SIZE) with 32%nat.
  destruct (for_loopM_inv
    (fun j mj =>
       (forall j', 0 <= j' < j ->
          load mj dst (32 * i + j') =
            Some (decode_value shared_exp
                    (nibble (word_at m src (5 * i + 1 + j' / 8)) (j' mod 8)))) /\
       (forall q k, (forall j', 0 <= j' < j -> loc q k <> loc dst (32 * i + j')) ->
          load mj q k = load m q k))
    (fun j m =>
       let byte_idx := add32 (add32 (mul32 i 5) (j / 8)) 1 in
       let nibble_idx := j mod 8 in
       w ← load m src byte_idx;
       let mxfp4_val := nibble w nibble_idx in
       store m dst (add32 (mul32 i MXFP4_BLOCK_SIZE) j)
             (decode_value shared_exp mxfp4_val))
    32 0 m) as (m' & Hm' & Hval & Hfr).
  - split; [intros; lia | done].
  - intros j mj Hj [Hval Hfr]. cbv zeta.
    assert (0 <= j / 8 < 4) as Hq
      by (split; [apply Z.div_pos | apply Z.div_lt_upper_bound]; lia).
    rewrite idx_val, idx_mag by lia.
    rewrite (Hfr src (5 * i + 1 + j / 8)) by (intros j' ?; apply Hsep; lia).
    rewrite (word_at_load m src (5 * i + 1 + j / 8)) by (by apply Hsrc). simpl.
    destruct (store_succeeds mj dst (32 * i + j)
      (decode_value shared_exp
         (nibble (word_at m src (5 * i + 1 + j / 8)) (j mod 8)))) as [m2 Hst].
    { rewrite Hfr by (intros j' ?; apply loc_same_ptr; lia). apply Hdst. lia. }
    exists m2. split; [done |]. split.
    + intros j' Hj'. destruct (decide (j' = j)) as [-> | Hne].
      * apply (load_store_eq _ _ _ _ _ Hst).
      * rewrite (load_store_ne _ _ _ _ _ _ _ Hst) by (apply loc_same_ptr; lia).
        apply Hval. lia.
    + intros q k Hq'.
      rewrite (load_store_ne _ _ _ _ _ _ _ Hst) by (apply Hq'; lia).
      apply Hfr. intros j' Hj'. apply Hq'. lia.
  - exists m'. split; [done |]. split; [| done].
    intros j Hj. apply Hval. lia.
Qed.

Lemma convert_mxfp4_to_fp32_tile_spec (m : mem) (src dst : ptr) (n : Z) :
  0 <= n < 2 ^ 32 ->
  readable m src (5 * (n / 32)) ->
  readable m dst (32 * (n / 32)) ->
  separate src (5 * (n / 32)) dst (32 * (n / 32)) ->
  exists m', convert_mxfp4_to_fp32_tile src dst n m = Some m' /\
    (forall i j, 0 <= i < n / 32 -> 0 <= j < 32 ->
       load m' dst (32 * i + j) =
         Some (decode_value (shared_exp_of (word_at m src (5 * i)))
                 (nibble (word_at m src (5 * i + 1 + j / 8)) (j mod 8)))) /\
    (forall q k, (forall b, 0 <= b < 32 * (n / 32) -> loc q k <> loc dst b) ->
       load m' q k = load m q k).
Proof.
  intros Hn Hsrc Hdst Hsep. unfold convert_mxfp4_to_fp32_tile.
  change MXFP4_BLOCK_SIZE with 32 at 1.
  assert (0 <= n / 32) as HG by (apply Z.div_pos; lia).
  destruct (for_loopM_inv
    (fun i mi =>
       (forall i' j, 0 <= i' < i -> 0 <= j < 32 ->
          load mi dst (32 * i' + j) =
            Some (decode_value (shared_exp_of (word_at m src (5 * i')))
                    (nibble (word_at m src (5 * i' + 1 + j / 8)) (j mod 8)))) /\
       (forall q k, (forall b, 0 <= b < 32 * i -> loc q k <> loc dst b) ->
          load mi q k = load m q k))
    (fun i m =>
       w0 ← load m src (mul32 i 5);
       let shared_exp := shared_exp_of w0 in
       unpack_block src dst i shared_exp m)
    (Z.to_nat (n / 32)) 0 m) as (m' & Hm' & Hinv).
  - split; [intros; lia | done].
  - intros i mi Hi (Hval & Hfr).
    rewrite Z2Nat.id in Hi by done.
    assert (0 <= i < 2 ^ 27) as Hi27.
    { apply (blocks_bound n); [done |]. unfold MXFP4_BLOCK_SIZE. lia. }
    assert (forall a, 0 <= a < 5 * (n / 32) -> load mi src a = load m src a)
      as Hsrc_i.
    { intros a Ha. apply Hfr. intros b Hb. apply Hsep; lia. }
    assert (forall b, 32 * i <= b < 32 * (n / 32) ->
              load mi dst b = load m dst b) as Hdst_i.
    { intros b Hb. apply Hfr. intros b' Hb'. apply loc_same_ptr. lia. }
    rewrite idx_exp by done. rewrite Hsrc_i by lia.
    rewrite (word_at_load m src (5 * i)) by (apply Hsrc; lia). simpl.
    destruct (unpack_block_spec mi src dst i
                (shared_exp_of (word_at m src (5 * i))))
      as (m2 & Hm2 & Hval2 & Hfr2); [done | | | |].
    { intros w Hw. rewrite Hsrc_i by lia. apply Hsrc. lia. }
    { intros j Hj. rewrite Hdst_i by lia. apply Hdst. lia. }
    { intros w j Hw Hj. apply Hsep; lia. }
    exists m2. split; [done |]. split.
    + intros i' j Hi' Hj. destruct (decide (i' = i)) as [-> | Hne].
      * rewrite Hval2 by done.
        assert (0 <= j / 8 < 4)
          by (split; [apply Z.div_pos | apply Z.div_lt_upper_bound]; lia).
        unfold word_at at 2. rewrite Hsrc_i by lia. done.
      * rewrite Hfr2 by (intros j' Hj'; apply loc_same_ptr; lia).
        apply Hval; [lia | done].
    + intros q k Hq. rewrite Hfr2 by (intros j Hj; apply Hq; lia).
      apply Hfr. intros b Hb. apply Hq. lia.
  - rewrite Z2Nat.id in Hinv by done. simpl in Hinv.
    destruct Hinv as (Hval & Hfr). exists m'. done.
Qed.

(** ** Encode, then decode *)

Lemma max_exp_step_range (v acc : Z) :
  0 <= acc < 256 -> 0 <= max_exp_step v acc < 256.
Proof.
  intros Ha. unfold max_exp_step. pose proof (exp_field_range v).
  destruct (v =? 0); [done |]. by destruct (_ >? _).
Qed.

Lemma max_exp_upto_range (f : Z -> Z) (n : nat) : 0 <= max_exp_upto f n < 256.
Proof.
  induction n as [| n IH]; [done |].
  rewrite max_exp_upto_S. by apply max_exp_step_range.
Qed.

Lemma shared_exp_of_shl32 (e : Z) :
  0 <= e < 256 -> shared_exp_of (shl32 e 24) = e.
Proof.
  intros He. unfold shared_exp_of, shl32.
  rewrite wrap32_small.
  - rewrite Z.shiftr_shiftl_l by lia. rewrite Z.sub_diag, Z.shiftl_0_r.
    change 255 with (Z.ones 8). rewrite Z.land_ones by lia.
    apply Z.mod_small. lia.
  - rewrite Z.shiftl_mul_pow2 by lia. lia.
Qed.

Lemma decode_value_fields (e mag : Z) :
  0 <= e < 256 -> 0 < mag < 16 ->
  exp_field (decode_value e mag) = e /\ mantissa4 (decode_value e mag) = mag.
Proof.
  intros He Hmag. unfold decode_value.
  destruct (Z.eqb_spec mag 0) as [? | _]; [lia |].
  assert (shl32 e 23 = Z.shiftl e 23) as ->.
  { unfold shl32. apply wrap32_small. rewrite Z.shiftl_mul_pow2 by lia. lia. }
  assert (shl32 mag 19 = Z.shiftl mag 19) as ->.
  { unfold shl32. apply wrap32_small. rewrite Z.shiftl_mul_pow2 by lia. lia. }
  split.
  - unfold exp_field. rewrite Z.shiftr_lor, Z.land_lor_distr_l.
    rewrite Z.shiftr_shiftl_l by lia. rewrite Z.sub_diag, Z.shiftl_0_r.
    rewrite Z.shiftr_shiftl_r by lia. simpl (23 - 19).
    rewrite (Z.shiftr_div_pow2 mag) by lia. rewrite (Z.div_small mag) by lia.
    rewrite Z.land_0_l, Z.lor_0_r.
    change 255 with (Z.ones 8). rewrite Z.land_ones by lia.
    apply Z.mod_small. lia.
  - unfold mantissa4. rewrite Z.land_lor_distr_l, Z.shiftr_lor.
    change 8388607 with (Z.ones 23). rewrite !Z.land_ones by lia.
    rewrite !Z.shiftl_mul_pow2 by lia.
    rewrite Z.mod_mul by lia. rewrite Z.shiftr_0_l, Z.lor_0_l.
    rewrite Z.mod_small by lia.
    rewrite Z.shiftr_div_pow2 by lia. apply Z.div_mul. lia.
Qed.

Lemma quantize_same_exp (v : Z) : quantize (exp_field v) v = mantissa4 v.
Proof.
  unfold quantize. destruct (Z.eqb_spec v 0) as [-> | _]; [done |].
  rewrite Z.sub_diag. simpl. rewrite Z.shiftr_0_r.
  unfold wrap8. apply Z.mod_small. pose proof (mantissa4_range v). lia.
Qed.

Lemma max_exp_upto_uniform (f : Z -> Z) (e : Z) (n : nat) :
  0 <= e ->
  (forall j, 0 <= j < Z.of_nat n -> f j <> 0 -> exp_field (f j) = e) ->
  (max_exp_upto f n = 0 \/ max_exp_upto f n = e) /\
  (forall j, 0 <= j < Z.of_nat n -> f j <> 0 -> max_exp_upto f n = e).
Proof.
  intros He. induction n as [| n IH]; intros Hu.
  - split; [by left | intros; lia].
  - assert (forall j, 0 <= j < Z.of_nat n -> f j <> 0 -> exp_field (f j) = e)
      as Hu' by (intros j Hj; apply Hu; lia).
    destruct (IH Hu') as [IHa IHb].
    rewrite max_exp_upto_S. unfold max_exp_step.
    destruct (Z.eqb_spec (f (Z.of_nat n)) 0) as [Hz | Hnz].
    + split; [done |]. intros j Hj Hfj.
      destruct (decide (j = Z.of_nat n)) as [-> | ?]; [done |].
      apply (IHb j); [lia | done].
    + rewrite (Hu (Z.of_nat n)) by (done || lia).
      assert ((if e >? max_exp_upto f n then e else max_exp_upto f n) = e) as ->.
      { destruct (Z.gtb_spec e (max_exp_upto f n)); [done |].
        destruct IHa; [lia | done]. }
      split; [by right | done].
Qed.

(** With the magnitude words zero beforehand, the nibbles of the encoded
    block are the magnitudes. *)
Lemma nibble_of_packed (mag : Z -> Z) (j : Z) :
  (forall j, 0 <= mag j < 16) -> 0 <= j < 32 ->
  nibble (Z.lor 0 (pack_word mag (j / 8) 32)) (j mod 8) = mag j.
Proof.
  intros Hmag Hj. rewrite Z.lor_0_l.
  assert (0 <= j / 8 < 4)
    by (split; [apply Z.div_pos | apply Z.div_lt_upper_bound]; lia).
  assert (0 <= j mod 8 < 8) by (apply Z.mod_pos_bound; lia).
  rewrite nibble_pack_word by (done || lia).
  rewrite <- Z.div_mod by lia.
  destruct (Z.ltb_spec j (Z.of_nat 32)); [done | lia].
Qed.

Lemma encode_then_decode (m : mem) (src enc dec : ptr) (n : Z) :
  0 <= n < 2 ^ 32 ->
  readable m src (32 * (n / 32)) ->
  readable m dec (32 * (n / 32)) ->
  (forall k, 0 <= k < 5 * (n / 32) -> load m enc k = Some 0) ->
  separate src (32 * (n / 32)) enc (5 * (n / 32)) ->
  separate enc (5 * (n / 32)) dec (32 * (n / 32)) ->
  exists m1 m2,
    convert_fp32_to_mxfp4_tile src enc n m = Some m1 /\
    convert_mxfp4_to_fp32_tile enc dec n m1 = Some m2 /\
    forall i j, 0 <= i < n / 32 -> 0 <= j < 32 ->
      load m2 dec (32 * i + j) =
        Some (decode_value (block_max_exp m src i) (block_mag m src i j)).
Proof.
  intros Hn Hsrc Hdec Hzero Hsep1 Hsep2.
  assert (readable m enc (5 * (n / 32))) as Henc
    by (intros k Hk; rewrite Hzero by done; eauto).
  destruct (convert_fp32_to_mxfp4_tile_spec m src enc n)
    as (m1 & Hm1 & Hexp & Hmag & Hfr); [done .. |].
  assert (forall k, 0 <= k < 5 * (n / 32) -> is_Some (load m1 enc k)) as Henc1.
  { intros k Hk.
    pose proof (Z.div_mod k 5 ltac:(lia)) as Hdm.
    pose proof (Z.mod_pos_bound k 5 ltac:(lia)) as Hr.
    assert (0 <= k / 5 < n / 32).
    { split; [apply Z.div_pos; lia | apply Z.div_lt_upper_bound; lia]. }
    destruct (decide (k mod 5 = 0)) as [Hz | Hnz].
    - replace k with (5 * (k / 5)) by lia. rewrite Hexp by done. eauto.
    - replace k with (5 * (k / 5) + 1 + (k mod 5 - 1)) by lia.
      rewrite Hmag by (done || lia). eauto. }
  destruct (convert_mxfp4_to_fp32_tile_spec m1 enc dec n)
    as (m2 & Hm2 & Hval & _); [done | done | | done |].
  { intros k Hk. rewrite Hfr; [by apply Hdec |].
    intros b Hb Heq. by apply (Hsep2 b k). }
  exists m1, m2. split; [done |]. split; [done |].
  intros i j Hi Hj. rewrite Hval by done. f_equal.
  assert (0 <= j / 8 < 4)
    by (split; [apply Z.div_pos | apply Z.div_lt_upper_bound]; lia).
  unfold word_at at 1 2. rewrite Hexp, Hmag by done. simpl.
  rewrite shared_exp_of_shl32 by apply max_exp_upto_range.
  unfold word_at. rewrite Hzero by lia. simpl.
  rewrite nibble_of_packed; [done | | done].
  intros j'. apply quantize_range.
Qed.

(** ** C1: the codec run in place *)

(** C1 on the code. A compact tile of two blocks (shared exponent 127,
    first eight magnitudes 1, then 2) decoded in place and decoded into a
    separate buffer: the in-place run overwrites magnitude word 1 with its
    second output and reads its third nibble from what it wrote.  A tile
    of 32 values 1.5 and 32 values 1.0 encoded in place and into a zeroed
    separate buffer: the in-place run ORs its nibbles into the values. *)
Theorem in_place_codec_differs :
  let compact :=
    [2130706432; 286331153; 0; 0; 0; 2130706432; 572662306; 0; 0; 0]
      ++ replicate 54 0 in
  let full := replicate 32 1069547520 ++ replicate 32 1065353216 in
  (exists a s,
     (m ← convert_mxfp4_to_fp32_tile (Ptr 0 0) (Ptr 0 0) 64 [compact];
      read_words m (Ptr 0 0) 64) = Some a /\
     (m ← convert_mxfp4_to_fp32_tile (Ptr 0 0) (Ptr 1 0) 64
            [compact; replicate 64 0];
      read_words m (Ptr 1 0) 64) = Some s /\
     a !! 2%nat = Some 0 /\ s !! 2%nat = Some 1065877504) /\
  (exists a s,
     (m ← convert_fp32_to_mxfp4_tile (Ptr 0 0) (Ptr 0 0) 64 [full];
      read_words m (Ptr 0 0) 10) = Some a /\
     (m ← convert_fp32_to_mxfp4_tile (Ptr 0 0) (Ptr 1 0) 64
            [full; replicate 10 0];
      read_words m (Ptr 1 0) 10) = Some s /\
     a !! 1%nat = Some 3217590400 /\ s !! 1%nat = Some 2290649224).
Proof.
  intros compact full.
  split; eexists _, _; (split; [vm_compute; reflexivity |]);
    (split; [vm_compute; reflexivity |]); split; reflexivity.
Qed.

(** ** C4: the round trip of a tile without exponent spread *)

(** C4, as the code has it. When in every block all nonzero values have
    the same exponent field, encoding into a zeroed compact buffer and
    decoding into a third buffer gives, for every value: the magnitude
    the encoder packed is the top four mantissa bits of the value, the
    top four mantissa bits of the decoded word are that magnitude, the
    exponent field of the decoded word is the shared exponent of the block
    when the magnitude is not zero, and the decoded word is 0 when it is. *)
Theorem roundtrip_uniform_exponents (m : mem) (src enc dec : ptr) (n : Z) :
  0 <= n < 2 ^ 32 ->
  readable m src (32 * (n / 32)) ->
  readable m dec (32 * (n / 32)) ->
  zeroed m enc (5 * (n / 32)) ->
  separate src (32 * (n / 32)) enc (5 * (n / 32)) ->
  separate enc (5 * (n / 32)) dec (32 * (n / 32)) ->
  uniform_exponents m src n ->
  exists m1 m2,
    convert_fp32_to_mxfp4_tile src enc n m = Some m1 /\
    convert_mxfp4_to_fp32_tile enc dec n m1 = Some m2 /\
    forall i j, 0 <= i < n / 32 -> 0 <= j < 32 ->
      exists d, load m2 dec (32 * i + j) = Some d /\
        block_mag m src i j = mantissa4 (block_val m src i j) /\
        mantissa4 d = block_mag m src i j /\
        (block_mag m src i j <> 0 -> exp_field d = block_max_exp m src i) /\
        (block_mag m src i j = 0 -> d = 0).
Proof.
  intros Hn Hsrc Hdec Hzero Hsep1 Hsep2 Huni.
  destruct (encode_then_decode m src enc dec n)
    as (m1 & m2 & Hm1 & Hm2 & Hval); [done .. |].
  exists m1, m2. split; [done |]. split; [done |].
  intros i j Hi Hj. eexists. split; [by apply Hval |].
  pose proof (max_exp_upto_range (block_val m src i) 32) as HE.
  fold (block_max_exp m src i) in HE.
  pose proof (quantize_range (block_max_exp m src i) (block_val m src i j)) as HM.
  fold (block_mag m src i j) in HM.
  split; [| split; [| split]].
  - unfold block_mag. destruct (decide (block_val m src i j = 0)) as [-> | Hnz].
    + done.
    + assert (block_max_exp m src i = exp_field (block_val m src i j)) as ->.
      { unfold block_max_exp.
        destruct (max_exp_upto_uniform (block_val m src i)
                    (exp_field (block_val m src i j)) 32) as [_ Hb].
        - apply exp_field_range.
        - intros j' Hj' Hnz'. apply Huni; (done || lia).
        - apply (Hb j); [lia | done]. }
      apply quantize_same_exp.
  - destruct (decide (block_mag m src i j = 0)) as [-> | Hnz]; [done |].
    apply (proj2 (decode_value_fields (block_max_exp m src i)
                    (block_mag m src i j) HE ltac:(lia))).
  - intros Hnz. apply (proj1 (decode_value_fields (block_max_exp m src i)
                    (block_mag m src i j) HE ltac:(lia))).
  - by intros ->.
Qed.

Lemma roundtrip_uniform_exponents_witness :
  let m := [replicate 32 1069547520; replicate 5 0; replicate 32 7] in
  exists m1 m2,
    convert_fp32_to_mxfp4_tile (Ptr 0 0) (Ptr 1 0) 32 m = Some m1 /\
    convert_mxfp4_to_fp32_tile (Ptr 1 0) (Ptr 2 0) 32 m1 = Some m2 /\
    forall i j, 0 <= i < 32 / 32 -> 0 <= j < 32 ->
      exists d, load m2 (Ptr 2 0) (32 * i + j) = Some d /\
        block_mag m (Ptr 0 0) i j = mantissa4 (block_val m (Ptr 0 0) i j) /\
        mantissa4 d = block_mag m (Ptr 0 0) i j /\
        (block_mag m (Ptr 0 0) i j <> 0 ->
           exp_field d = block_max_exp m (Ptr 0 0) i) /\
        (block_mag m (Ptr 0 0) i j = 0 -> d = 0).
Proof.
  intros m. apply roundtrip_uniform_exponents.
  - by vm_compute.
  - by apply (block_const_readable m _ 32 1069547520).
  - by apply (block_const_readable m _ 32 7).
  - by apply (block_const_zeroed m _ 5).
  - by apply separate_blocks.
  - by apply separate_blocks.
  - by apply (block_const_uniform m _ 32 1069547520).
Defined.

(** C4 as worded also asks the exponent field of every decoded word to be
    the shared exponent.  A tile of 32 values 1.0 (exponent field 127,
    mantissa 0) encodes to magnitudes 0 and decodes to words 0. *)
Lemma roundtrip_exponent_counterexample :
  let m := [replicate 32 1065353216; replicate 5 0; replicate 32 0] in
  uniform_exponents m (Ptr 0 0) 32 /\
  exists m1 m2 d,
    convert_fp32_to_mxfp4_tile (Ptr 0 0) (Ptr 1 0) 32 m = Some m1 /\
    convert_mxfp4_to_fp32_tile (Ptr 1 0) (Ptr 2 0) 32 m1 = Some m2 /\
    load m2 (Ptr 2 0) 0 = Some d /\
    block_max_exp m (Ptr 0 0) 0 = 127 /\
    exp_field d <> block_max_exp m (Ptr 0 0) 0.
Proof.
  intros m. split.
  - by apply (block_const_uniform m _ 32 1065353216).
  - eexists _, _, _.
    split; [vm_compute; reflexivity |].
    split; [vm_compute; reflexivity |].
    split; [vm_compute; reflexivity |].
    split; vm_compute; congruence.
Qed.

(** ** C5: packing and unpacking the magnitudes *)

(** Into magnitude words that are zero beforehand the encoder packs
    exactly the magnitudes: nibble [j mod 8] of word [j / 8 + 1] of the
    block is the magnitude of value [j]. *)
Lemma packing_into_zeroed_words (m : mem) (src dst : ptr) (n : Z) :
  0 <= n < 2 ^ 32 ->
  readable m src (32 * (n / 32)) ->
  zeroed m dst (5 * (n / 32)) ->
  separate src (32 * (n / 32)) dst (5 * (n / 32)) ->
  exists m', convert_fp32_to_mxfp4_tile src dst n m = Some m' /\
    forall i j, 0 <= i < n / 32 -> 0 <= j < 32 ->
      nibble (word_at m' dst (5 * i + (j / 8 + 1))) (j mod 8) =
        block_mag m src i j.
Proof.
  intros Hn Hsrc Hzero Hsep.
  destruct (convert_fp32_to_mxfp4_tile_spec m src dst n)
    as (m' & Hm' & _ & Hmag & _); [done | done | | done |].
  { intros k Hk. rewrite Hzero by done. eauto. }
  exists m'. split; [done |]. intros i j Hi Hj.
  assert (0 <= j / 8 < 4)
    by (split; [apply Z.div_pos | apply Z.div_lt_upper_bound]; lia).
  replace (5 * i + (j / 8 + 1)) with (5 * i + 1 + j / 8) by lia.
  unfold word_at at 1. rewrite Hmag by done. simpl.
  unfold word_at. rewrite Hzero by lia. simpl.
  apply nibble_of_packed; [| done]. intros j'. apply quantize_range.
Qed.

(** C5 on the code. The encoder ORs into whatever the destination holds,
    and the writer hands it an uninitialised array: for 32 values 1.5
    (magnitude 8) packed into words that held 0xFFFFFFFF, nibble 0 of
    magnitude word 0 reads 15. *)
Theorem packing_into_uninitialised_words :
  let m := [replicate 32 1069547520; replicate 5 4294967295] in
  block_mag m (Ptr 0 0) 0 0 = 8 /\
  exists m', convert_fp32_to_mxfp4_tile (Ptr 0 0) (Ptr 1 0) 32 m = Some m' /\
    nibble (word_at m' (Ptr 1 0) (0 / 8 + 1)) (0 mod 8) = 15.
Proof.
  intros m. split; [vm_compute; reflexivity |].
  eexists. split; vm_compute; reflexivity.
Qed.

(** ** C6: flush to zero *)





(** On that tile: the values are 1.5 (exponent field 127) and
    1.5 * 2^-16 (exponent field 111) and thirty zeros.  The decoder
    overwrites the 7 of words 0 and 2 with 0 (their nibbles are 0) and
    gives words 1 and 3 the nibble 15; the encoder stores the exponent 127, the
    nibble 8 for the first value and the nibble 0 for the second, which is
    nonzero and 16 exponents below. *)
Lemma far_below_maximum_example :
  let m := [[2130706432; 4294963440; 0; 0; 0]; replicate 32 7;
            [1069547520; 931135488] ++ replicate 30 0; replicate 5 0] in
  (m ← convert_mxfp4_to_fp32_tile (Ptr 0 0) (Ptr 1 0) 32 m;
   read_words m (Ptr 1 0) 4) = Some [0; 1073217536; 0; 1073217536] /\
  (m ← convert_fp32_to_mxfp4_tile (Ptr 2 0) (Ptr 3 0) 32 m;
   read_words m (Ptr 3 0) 2) = Some [2130706432; 8] /\
  exp_field 1069547520 = 127 /\ exp_field 931135488 = 111.
Proof. vm_compute. repeat split; reflexivity. Qed.

(** Where the compact tile holds a zero nibble the decoder stores 0. *)
Lemma decode_zero_nibble (m : mem) (src dst : ptr) (n i j : Z) :
  0 <= n < 2 ^ 32 ->
  readable m src (5 * (n / 32)) -> readable m dst (32 * (n / 32)) ->
  separate src (5 * (n / 32)) dst (32 * (n / 32)) ->
  0 <= i < n / 32 -> 0 <= j < 32 ->
  nibble (word_at m src (5 * i + 1 + j / 8)) (j mod 8) = 0 ->
  exists m', convert_mxfp4_to_fp32_tile src dst n m = Some m' /\
             load m' dst (32 * i + j) = Some 0.
Proof.
  intros Hn Hsrc Hdst Hsep Hi Hj Hz.
  destruct (convert_mxfp4_to_fp32_tile_spec m src dst n)
    as (m' & Hm' & Hval & _); [done .. |].
  exists m'. split; [done |]. rewrite Hval by done. by rewrite Hz.
Qed.

(** ** C9: the encoder only ORs into the magnitude words *)

Lemma max_exp_upto_zeros (f : Z -> Z) (n : nat) :
  (forall j, 0 <= j < Z.of_nat n -> f j = 0) -> max_exp_upto f n = 0.
Proof.
  induction n as [| n IH]; intros H; [done |].
  rewrite max_exp_upto_S, H by lia. unfold max_exp_step. simpl.
  apply IH. intros j Hj. apply H. lia.
Qed.

Lemma pack_word_zeros (mag : Z -> Z) (w : Z) (n : nat) :
  (forall j, 0 <= j < Z.of_nat n -> mag j = 0) -> pack_word mag w n = 0.
Proof.
  induction n as [| n IH]; intros H; [done |].
  rewrite pack_word_S, H by lia.
  rewrite IH by (intros j Hj; apply H; lia).
  destruct (_ =? _); [| done].
  unfold shl32. by rewrite Z.shiftl_0_l.
Qed.

(** C9. The encoder assigns the exponent word of each block and ORs the
    packed magnitudes into the four words after it, on top of what they
    held; so for a block of 32 zero values the exponent word becomes 0
    and the four magnitude words keep their prior contents. *)
Theorem encoder_keeps_prior_magnitude_words
    (m : mem) (fp32_tile mxfp4_tile : ptr) (tile_size : Z) :
  0 <= tile_size < 2 ^ 32 ->
  readable m fp32_tile (32 * (tile_size / 32)) ->
  readable m mxfp4_tile (5 * (tile_size / 32)) ->
  separate fp32_tile (32 * (tile_size / 32)) mxfp4_tile (5 * (tile_size / 32)) ->
  exists m', convert_fp32_to_mxfp4_tile fp32_tile mxfp4_tile tile_size m = Some m' /\
    forall i, 0 <= i < tile_size / 32 ->
      load m' mxfp4_tile (5 * i) = Some (shl32 (block_max_exp m fp32_tile i) 24) /\
      (forall w, 0 <= w < 4 ->
         load m' mxfp4_tile (5 * i + 1 + w) =
           Some (Z.lor (word_at m mxfp4_tile (5 * i + 1 + w))
                   (pack_word (block_mag m fp32_tile i) w 32))) /\
      ((forall j, 0 <= j < 32 -> block_val m fp32_tile i j = 0) ->
         load m' mxfp4_tile (5 * i) = Some 0 /\
         forall w, 0 <= w < 4 ->
           load m' mxfp4_tile (5 * i + 1 + w) = load m mxfp4_tile (5 * i + 1 + w)).
Proof.
  intros Hn Hsrc Hdst Hsep.
  destruct (convert_fp32_to_mxfp4_tile_spec m fp32_tile mxfp4_tile tile_size)
    as (m' & Hm' & Hexp & Hmag & _); [done .. |].
  exists m'. split; [done |]. intros i Hi.
  split; [by apply Hexp |]. split; [intros w Hw; by apply Hmag |].
  intros Hz.
  assert (block_max_exp m fp32_tile i = 0) as Hmax
    by (apply max_exp_upto_zeros; intros j Hj; apply Hz; lia).
  split.
  - rewrite Hexp by done. by rewrite Hmax.
  - intros w Hw. rewrite Hmag by done.
    rewrite pack_word_zeros.
    + rewrite Z.lor_0_r. symmetry. apply word_at_load, Hdst. lia.
    + intros j Hj. unfold block_mag. rewrite Hz by lia. done.
Qed.

Lemma encoder_keeps_prior_magnitude_words_witness :
  let m := [replicate 32 0; [7; 1; 2; 3; 4]] in
  exists m', convert_fp32_to_mxfp4_tile (Ptr 0 0) (Ptr 1 0) 32 m = Some m' /\
    forall i, 0 <= i < 32 / 32 ->
      load m' (Ptr 1 0) (5 * i) = Some (shl32 (block_max_exp m (Ptr 0 0) i) 24) /\
      (forall w, 0 <= w < 4 ->
         load m' (Ptr 1 0) (5 * i + 1 + w) =
           Some (Z.lor (word_at m (Ptr 1 0) (5 * i + 1 + w))
                   (pack_word (block_mag m (Ptr 0 0) i) w 32))) /\
      ((forall j, 0 <= j < 32 -> block_val m (Ptr 0 0) i j = 0) ->
         load m' (Ptr 1 0) (5 * i) = Some 0 /\
         forall w, 0 <= w < 4 ->
           load m' (Ptr 1 0) (5 * i + 1 + w) = load m (Ptr 1 0) (5 * i + 1 + w)).
Proof.
  intros m. apply encoder_keeps_prior_magnitude_words.
  - by vm_compute.
  - by apply (block_const_readable m _ 32 0).
  - by apply (readable_block m _ [7; 1; 2; 3; 4]).
  - by apply separate_blocks.
Defined.

(** The output of the encoder depends on what the destination held: the
    same block of zeros, encoded over two different buffers. *)
Lemma encoder_output_depends_on_destination :
  (m ← convert_fp32_to_mxfp4_tile (Ptr 0 0) (Ptr 1 0) 32
         [replicate 32 0; [7; 1; 2; 3; 4]];
   read_words m (Ptr 1 0) 5) = Some [0; 1; 2; 3; 4] /\
  (m ← convert_fp32_to_mxfp4_tile (Ptr 0 0) (Ptr 1 0) 32
         [replicate 32 0; [7; 0; 0; 0; 0]];
   read_words m (Ptr 1 0) 5) = Some [0; 0; 0; 0; 0].
Proof. split; vm_compute; reflexivity. Qed.

(** ** C10: the scratch buffer of the writer *)

Lemma exec_alloca (m : mem) (p : ptr) (len : Z) (b : list Z) :
  m !! p_blk p = Some b -> 0 <= len <= Z.of_nat (length b) ->
  exec (E_alloca p len) m = Some (<[p_blk p := take (Z.to_nat len) b]> m).
Proof.
  intros Hb Hlen. simpl. rewrite Hb. simpl.
  assert ((0 <=? len) = true) as -> by (apply Z.leb_le; lia).
  by assert ((len <=? Z.of_nat (length b)) = true) as -> by (apply Z.leb_le; lia).
Qed.

Lemma load_insert_other (m : mem) (blk : nat) (b : list Z) (p : ptr) (k : Z) :
  p_blk p <> blk -> load (<[blk := b]> m) p k = load m p k.
Proof. intros Hne. unfold load. by rewrite list_lookup_insert_ne. Qed.

Lemma compact_words_fit (tile_elements : Z) :
  0 <= tile_elements ->
  tile_elements / 32 * 5 <= Writer.mxfp4_buffer_len tile_elements.
Proof.
  intros Hn. unfold Writer.mxfp4_buffer_len.
  assert (0 <= tile_elements / 32) by (apply Z.div_pos; lia).
  assert (32 * (tile_elements / 32) <= tile_elements)
    by (apply Z.mul_div_le; lia).
  apply Z.div_le_lower_bound; lia.
Qed.

(** C10. For a tile of a positive multiple of 32 elements, the array of
    [tile_elements / 6] words the writer declares holds the
    [(tile_elements / 32) * 5] words the encoder writes: declared on a
    stack with room for it, the array is exactly that long, and the
    encoder run on it makes no access outside a block. *)
Theorem scratch_buffer_in_bounds (m : mem) (fp32_tile : ptr) (stack : list Z)
    (tile_elements : Z) :
  0 < tile_elements < 2 ^ 32 ->
  tile_elements mod 32 = 0 ->
  readable m fp32_tile tile_elements ->
  p_blk fp32_tile <> STACK ->
  m !! STACK = Some stack ->
  Writer.mxfp4_buffer_len tile_elements <= Z.of_nat (length stack) ->
  tile_elements / 32 * 5 <= Writer.mxfp4_buffer_len tile_elements /\
  exists m1 m2 buf,
    exec (E_alloca Writer.mxfp4_buffer (Writer.mxfp4_buffer_len tile_elements)) m
      = Some m1 /\
    m1 !! STACK = Some buf /\
    Z.of_nat (length buf) = Writer.mxfp4_buffer_len tile_elements /\
    exec (E_convert_fp32_to_mxfp4_tile fp32_tile Writer.mxfp4_buffer tile_elements)
      m1 = Some m2.
Proof.
  intros Hn Hmod Hsrc Hblk Hstack Hcap.
  pose proof (compact_words_fit tile_elements ltac:(lia)) as Hfit.
  split; [done |].
  assert (0 <= Writer.mxfp4_buffer_len tile_elements) as Hlen0
    by (apply Z.div_pos; lia).
  assert (0 <= tile_elements / 32) as HG by (apply Z.div_pos; lia).
  assert (32 * (tile_elements / 32) <= tile_elements) as Hle
    by (apply Z.mul_div_le; lia).
  set (buf := take (Z.to_nat (Writer.mxfp4_buffer_len tile_elements)) stack).
  set (m1 := <[STACK := buf]> m).
  assert (m1 !! STACK = Some buf) as Hbuf.
  { apply list_lookup_insert_eq. by eapply lookup_lt_Some. }
  assert (Z.of_nat (length buf) = Writer.mxfp4_buffer_len tile_elements) as Hbl.
  { unfold buf. rewrite length_take. lia. }
  destruct (convert_fp32_to_mxfp4_tile_spec m1 fp32_tile Writer.mxfp4_buffer
              tile_elements) as (m2 & Hm2 & _); [lia | | | |].
  - intros k Hk. unfold m1. rewrite load_insert_other by done.
    apply Hsrc. lia.
  - apply (readable_block m1 Writer.mxfp4_buffer buf); [done | done |].
    simpl. lia.
  - by apply separate_blocks.
  - exists m1, m2, buf. split; [| done].
    apply (exec_alloca m Writer.mxfp4_buffer _ stack); [done | lia].
Qed.

Lemma scratch_buffer_in_bounds_witness :
  let m := [replicate 64 1069547520; replicate 16 9] in
  64 / 32 * 5 <= Writer.mxfp4_buffer_len 64 /\
  exists m1 m2 buf,
    exec (E_alloca Writer.mxfp4_buffer (Writer.mxfp4_buffer_len 64)) m = Some m1 /\
    m1 !! STACK = Some buf /\
    Z.of_nat (length buf) = Writer.mxfp4_buffer_len 64 /\
    exec (E_convert_fp32_to_mxfp4_tile (Ptr L1 0) Writer.mxfp4_buffer 64) m1
      = Some m2.
Proof.
  intros m. apply (scratch_buffer_in_bounds m (Ptr L1 0) (replicate 16 9) 64).
  - by vm_compute.
  - by vm_compute.
  - by apply (block_const_readable m _ 64 1069547520).
  - by vm_compute.
  - reflexivity.
  - by vm_compute.
Defined.

(** ** Tile indices along the loop nests *)

Lemma tile_ids_app (op : operand) (tr1 tr2 : list event) :
  tile_ids op (tr1 ++ tr2) = tile_ids op tr1 ++ tile_ids op tr2.
Proof. unfold tile_ids. apply bind_app. Qed.

Lemma bind_nil_const {A B : Type} (l : list A) : l ≫= (fun _ => @nil B) = [].
Proof. induction l as [| x l IH]; [done |]. by rewrite bind_cons, IH. Qed.

(** Two nested loops, each advancing its own cursor, whatever is done at
    the innermost level. *)
Lemma rows_loop {R : Type} (obs : R -> list Z) (tile_fn : Z -> R -> R)
    (g : Z -> list Z) (stride_w stride_h : Z) (block_w block_h : nat)
    (start : Z) (st : R) :
  (forall id st, obs (tile_fn id st) = obs st ++ g id) ->
  obs (snd
    (for_loop block_h 0 (fun h '(row_start_tile_id, st) =>
       (add32 row_start_tile_id stride_h,
        snd (for_loop block_w 0 (fun w '(tile_id, st) =>
          (add32 tile_id stride_w, tile_fn tile_id st))
          (row_start_tile_id, st))))
       (start, st))) =
  obs st ++
    (seq 0 block_h ≫= fun kh => seq 0 block_w ≫= fun kw =>
       g (Nat.iter kw (fun x => add32 x stride_w)
            (Nat.iter kh (fun x => add32 x stride_h) start))).
Proof.
  intros Htile.
  apply (for_loop_cursor (fun x => add32 x stride_h)
    (fun row st =>
       snd (for_loop block_w 0 (fun w '(tile_id, st) =>
         (add32 tile_id stride_w, tile_fn tile_id st)) (row, st)))
    obs
    (fun row => seq 0 block_w ≫= fun kw =>
       g (Nat.iter kw (fun x => add32 x stride_w) row))).
  intros row st'.
  apply (for_loop_cursor (fun x => add32 x stride_w) tile_fn obs g).
  done.
Qed.

Lemma read_tile_ids (op : operand) (s : TensorAccessor)
    (is_mxfp4 size tile_id : Z) (st : Z * list event) :
  tile_ids op (snd (Reader.read_tile s is_mxfp4 size tile_id st)) =
    tile_ids op (snd st) ++ emit op (acc_operand s) tile_id.
Proof.
  destruct st as [l1 tr]. unfold Reader.read_tile, emit.
  destruct (is_mxfp4 =? 0); simpl; rewrite !tile_ids_app; simpl;
    destruct (decide (acc_operand s = op)); simpl;
    by rewrite ?app_nil_r.
Qed.

Lemma write_tile_ids (op : operand) (s : TensorAccessor)
    (is_mxfp4 size tile_id : Z) (st : Z * list event) :
  acc_operand s = Out ->
  tile_ids op (snd (Writer.write_tile s is_mxfp4 size tile_id st)) =
    tile_ids op (snd st) ++ emit op Out tile_id.
Proof.
  intros Hs. destruct st as [l1 tr]. unfold Writer.write_tile, emit.
  destruct (is_mxfp4 =? 0); simpl; rewrite !tile_ids_app; simpl; rewrite ?Hs;
    destruct (decide (Out = op)); simpl;
    by rewrite ?app_nil_r.
Qed.

Lemma read_block_ids (op : operand) (s : TensorAccessor)
    (is_mxfp4 size block_w block_h stride_w stride_h start : Z)
    (st : Z * list event) :
  tile_ids op (snd (Reader.read_block s is_mxfp4 size block_w block_h
                      stride_w stride_h start st)) =
    tile_ids op (snd st) ++
      block_ids op (acc_operand s) stride_h stride_w block_h block_w start.
Proof.
  unfold Reader.read_block, block_ids.
  apply (rows_loop (fun st => tile_ids op (snd st))
           (Reader.read_tile s is_mxfp4 size)).
  intros id st'. apply read_tile_ids.
Qed.

Lemma reader_block_body_ids (op : operand) (a : Reader.args) (pf : platform)
    (cur : Z * Z) (tr : list event) :
  tile_ids op (Reader.block_body a pf cur tr) =
    tile_ids op tr ++ reader_block_ids op a cur.
Proof.
  destruct cur as [c0 c1]. unfold Reader.block_body, reader_block_ids.
  cbv zeta.
  destruct (Reader.read_block _ _ _ _ _ _ _ c0 _) as [l0 tr0] eqn:E0.
  destruct (Reader.read_block _ _ _ _ _ _ _ c1 _) as [l1 tr1] eqn:E1.
  apply (f_equal snd) in E0, E1. simpl in E0, E1.
  rewrite tile_ids_app, <- E1, read_block_ids. simpl snd.
  rewrite <- E0, read_block_ids. simpl snd.
  rewrite !tile_ids_app. simpl. by rewrite !app_nil_r, <- app_assoc.
Qed.

Lemma reader_batch_body_ids (op : operand) (a : Reader.args) (pf : platform)
    (start : Z * Z) (tr : list event) :
  tile_ids op (Reader.batch_body a pf start tr) =
    tile_ids op tr ++ reader_batch_ids op a start.
Proof.
  unfold Reader.batch_body, reader_batch_ids.
  apply (for_loop_cursor (Reader.next_block a) (Reader.block_body a pf)
           (tile_ids op) (reader_block_ids op a)).
  intros c r. apply reader_block_body_ids.
Qed.

Lemma reader_batches_ids (op : operand) (a : Reader.args) (pf : platform)
    (n : nat) :
  tile_ids op (snd (Reader.batches a pf n)) =
    seq 0 n ≫= fun k =>
      reader_batch_ids op a
        (Nat.iter k (Reader.next_batch a)
           (Reader.in0_tensor_start_tile_id a, Reader.in1_tensor_start_tile_id a)).
Proof.
  unfold Reader.batches.
  apply (for_loop_cursor (Reader.next_batch a) (Reader.batch_body a pf)
           (tile_ids op) (reader_batch_ids op a) n 0 _ []).
  intros c r. apply reader_batch_body_ids.
Qed.

Lemma reader_batches_start (a : Reader.args) (pf : platform) (n : nat) :
  fst (Reader.batches a pf n) =
    Nat.iter n (Reader.next_batch a)
      (Reader.in0_tensor_start_tile_id a, Reader.in1_tensor_start_tile_id a).
Proof.
  unfold Reader.batches.
  apply (for_loop_cursor (Reader.next_batch a) (Reader.batch_body a pf)
           (fun _ => []) (fun _ => []) n 0 _ []).
  done.
Qed.

Lemma writer_subblock_body_ids (op : operand) (a : Writer.args) (pf : platform)
    (start : Z) (tr : list event) :
  tile_ids op (Writer.subblock_body a pf start tr) =
    tile_ids op tr ++
      block_ids op Out (Writer.out_tensor_stride_h a) (Writer.out_tensor_stride_w a)
        (Writer.out_subblock_h a) (Writer.out_subblock_w a) start.
Proof.
  unfold Writer.subblock_body. cbv zeta.
  destruct (snd (for_loop _ _ _ _)) as [l1 tr1] eqn:E.
  apply (f_equal (fun st => tile_ids op (snd st))) in E. simpl in E.
  rewrite tile_ids_app, <- E. simpl (tile_ids op [_; _]). rewrite app_nil_r.
  rewrite (rows_loop (fun st => tile_ids op (snd st))
             (Writer.write_tile
                (Accessor Out (Writer.out_tensor_addr a)
                   (get_tile_size pf Writer.cb_id_out0))
                (Writer.out_is_mxfp4 a) (get_tile_size pf Writer.cb_id_out0))
             (emit op Out)).
  - simpl snd. rewrite tile_ids_app. simpl. by rewrite app_nil_r.
  - intros id st. by apply write_tile_ids.
Qed.

Lemma writer_batch_body_ids (op : operand) (a : Writer.args) (pf : platform)
    (start : Z) (tr : list event) :
  tile_ids op (Writer.batch_body a pf start tr) =
    tile_ids op tr ++ writer_batch_ids op a start.
Proof.
  unfold Writer.batch_body, writer_batch_ids.
  apply (rows_loop (tile_ids op) (Writer.subblock_body a pf)).
  intros id st. apply writer_subblock_body_ids.
Qed.

Lemma writer_batches_ids (op : operand) (a : Writer.args) (pf : platform)
    (n : nat) :
  tile_ids op (snd (Writer.batches a pf n)) =
    seq 0 n ≫= fun k =>
      writer_batch_ids op a
        (Nat.iter k (fun x => add32 x (Writer.MtNt a))
           (Writer.out_tensor_start_tile_id a)).
Proof.
  unfold Writer.batches.
  apply (for_loop_cursor (fun x => add32 x (Writer.MtNt a))
           (Writer.batch_body a pf) (tile_ids op) (writer_batch_ids op a)
           n 0 _ []).
  intros c r. apply writer_batch_body_ids.
Qed.

(** ** From repeated additions to the closed form *)

Lemma block_ids_closed (op owner : operand)
    (stride_h stride_w block_h block_w start : Z) :
  0 <= start < 2 ^ 32 ->
  block_ids op owner stride_h stride_w block_h block_w start =
    if decide (owner = op)
    then block_tile_ids start stride_h stride_w block_h block_w
    else [].
Proof.
  intros Hs. unfold block_ids, block_tile_ids, emit.
  destruct (decide (owner = op)) as [_ | _].
  - rewrite seqZ_bind. apply list_bind_ext; [| done]. intros kh.
    rewrite seqZ_bind. apply list_bind_ext; [| done]. intros kw.
    rewrite (iter_add32 stride_h start kh) by done.
    rewrite iter_add32 by apply wrap32_range.
    by rewrite wrap32_add_l.
  - transitivity (seq 0 (Z.to_nat block_h) ≫= fun _ => @nil Z);
      [| apply bind_nil_const].
    apply list_bind_ext; [| done]. intros kh. apply bind_nil_const.
Qed.

Lemma iter_next_block (a : Reader.args) (k : nat) (c0 c1 : Z) :
  Nat.iter k (Reader.next_block a) (c0, c1) =
    (Nat.iter k (fun x => add32 x (Reader.in0_tensor_next_block_stride a)) c0,
     Nat.iter k (fun x => add32 x (Reader.in1_tensor_next_block_stride a)) c1).
Proof. induction k as [| k IH]; [done |]. simpl. by rewrite IH. Qed.

Lemma iter_next_batch (a : Reader.args) (k : nat) (c0 c1 : Z) :
  0 <= c1 < 2 ^ 32 ->
  Nat.iter k (Reader.next_batch a) (c0, c1) =
    (Nat.iter k (fun x => add32 x (Reader.MtKt a)) c0,
     if Reader.bcast_B a =? 0
     then wrap32 (c1 + Z.of_nat k * Reader.KtNt a)
     else c1).
Proof.
  intros Hc. induction k as [| k IH].
  - simpl. rewrite Z.add_0_r, wrap32_small by done. by destruct (_ =? _).
  - simpl. rewrite IH. unfold Reader.next_batch.
    destruct (Reader.bcast_B a =? 0); [| done].
    f_equal. unfold add32. rewrite wrap32_add_l. f_equal. lia.
Qed.

Lemma block_ids_other (op owner : operand)
    (stride_h stride_w block_h block_w start : Z) :
  owner <> op ->
  block_ids op owner stride_h stride_w block_h block_w start = [].
Proof.
  intros Hne. unfold block_ids, emit.
  destruct (decide (owner = op)) as [? | _]; [done |].
  transitivity (seq 0 (Z.to_nat block_h) ≫= fun _ => @nil Z);
    [| apply bind_nil_const].
  apply list_bind_ext; [| done]. intros kh. apply bind_nil_const.
Qed.

Lemma block_ids_own (op : operand)
    (stride_h stride_w block_h block_w start : Z) :
  0 <= start < 2 ^ 32 ->
  block_ids op op stride_h stride_w block_h block_w start =
    block_tile_ids start stride_h stride_w block_h block_w.
Proof.
  intros Hs. rewrite block_ids_closed by done.
  by destruct (decide (op = op)).
Qed.

Lemma reader_in0_traversal (a : Reader.args) (pf : platform) :
  0 <= Reader.in0_tensor_start_tile_id a < 2 ^ 32 ->
  0 <= Reader.in1_tensor_start_tile_id a < 2 ^ 32 ->
  tile_ids In0 (Reader.kernel_main a pf) =
    traversal_spec (Reader.in0_tensor_start_tile_id a) (Reader.MtKt a)
      (Reader.in0_tensor_next_block_stride a)
      (Reader.in0_tensor_stride_h a) (Reader.in0_tensor_stride_w a)
      (Reader.batch a) (Reader.num_blocks a)
      (Reader.in0_block_h a) (Reader.in0_block_w a).
Proof.
  intros H0 H1. unfold Reader.kernel_main, traversal_spec.
  rewrite reader_batches_ids, seqZ_bind.
  apply list_bind_ext; [| done]. intros b.
  rewrite iter_next_batch by done. unfold reader_batch_ids.
  rewrite seqZ_bind. apply list_bind_ext; [| done]. intros k.
  rewrite iter_next_block. unfold reader_block_ids. cbn [fst snd].
  rewrite (block_ids_other In0 In1) by done. rewrite app_nil_r.
  rewrite (iter_add32 (Reader.MtKt a)) by done.
  rewrite iter_add32 by apply wrap32_range. rewrite wrap32_add_l.
  apply block_ids_own, wrap32_range.
Qed.

Lemma reader_in1_traversal (a : Reader.args) (pf : platform) :
  0 <= Reader.in0_tensor_start_tile_id a < 2 ^ 32 ->
  0 <= Reader.in1_tensor_start_tile_id a < 2 ^ 32 ->
  tile_ids In1 (Reader.kernel_main a pf) =
    traversal_spec (Reader.in1_tensor_start_tile_id a)
      (if Reader.bcast_B a =? 0 then Reader.KtNt a else 0)
      (Reader.in1_tensor_next_block_stride a)
      (Reader.in1_tensor_stride_h a) (Reader.in1_tensor_stride_w a)
      (Reader.batch a) (Reader.num_blocks a)
      (Reader.in1_block_h a) (Reader.in1_block_w a).
Proof.
  intros H0 H1. unfold Reader.kernel_main, traversal_spec.
  rewrite reader_batches_ids, seqZ_bind.
  apply list_bind_ext; [| done]. intros b.
  rewrite iter_next_batch by done. unfold reader_batch_ids.
  rewrite seqZ_bind. apply list_bind_ext; [| done]. intros k.
  rewrite iter_next_block. unfold reader_block_ids. cbn [fst snd].
  rewrite (block_ids_other In1 In0) by done. rewrite app_nil_l.
  destruct (Reader.bcast_B a =? 0).
  - rewrite iter_add32 by apply wrap32_range. rewrite wrap32_add_l.
    apply block_ids_own, wrap32_range.
  - rewrite iter_add32 by done.
    replace (Reader.in1_tensor_start_tile_id a + Z.of_nat b * 0 +
             Z.of_nat k * Reader.in1_tensor_next_block_stride a)
      with (Reader.in1_tensor_start_tile_id a +
            Z.of_nat k * Reader.in1_tensor_next_block_stride a) by lia.
    apply block_ids_own, wrap32_range.
Qed.

Lemma writer_out_traversal (a : Writer.args) (pf : platform) :
  0 <= Writer.out_tensor_start_tile_id a < 2 ^ 32 ->
  tile_ids Out (Writer.kernel_main a pf) =
    subblock_traversal_spec (Writer.out_tensor_start_tile_id a) (Writer.MtNt a)
      (Writer.out_tensor_next_subblock_stride_h a)
      (Writer.out_tensor_next_subblock_stride_w a)
      (Writer.out_tensor_stride_h a) (Writer.out_tensor_stride_w a)
      (Writer.batch a)
      (Writer.out_num_subblocks_h a) (Writer.out_num_subblocks_w a)
      (Writer.out_subblock_h a) (Writer.out_subblock_w a).
Proof.
  intros H0. unfold Writer.kernel_main, subblock_traversal_spec.
  rewrite writer_batches_ids, seqZ_bind.
  apply list_bind_ext; [| done]. intros b. unfold writer_batch_ids.
  rewrite seqZ_bind. apply list_bind_ext; [| done]. intros kh.
  rewrite seqZ_bind. apply list_bind_ext; [| done]. intros kw.
  rewrite (iter_add32 (Writer.MtNt a)) by done.
  rewrite (iter_add32 (Writer.out_tensor_next_subblock_stride_h a))
    by apply wrap32_range.
  rewrite wrap32_add_l.
  rewrite iter_add32 by apply wrap32_range. rewrite wrap32_add_l.
  apply block_ids_own, wrap32_range.
Qed.

(** ** C7: the order of the tile transfers *)

(** C7. For each of the two read operands and for the output, the tile
    indices of the transfers the kernel issues are, in order, those of the
    batches, of the blocks (subblocks, by rows and columns, for the
    output) of each batch, of the rows of each block and of the tiles of
    each row: [block_start + h * stride_h + w * stride_w] in 32-bit
    arithmetic, the block start advancing by the block stride. *)
Theorem traversal_order (ra : Reader.args) (wa : Writer.args) (pf : platform) :
  0 <= Reader.in0_tensor_start_tile_id ra < 2 ^ 32 ->
  0 <= Reader.in1_tensor_start_tile_id ra < 2 ^ 32 ->
  0 <= Writer.out_tensor_start_tile_id wa < 2 ^ 32 ->
  tile_ids In0 (Reader.kernel_main ra pf) =
    traversal_spec (Reader.in0_tensor_start_tile_id ra) (Reader.MtKt ra)
      (Reader.in0_tensor_next_block_stride ra)
      (Reader.in0_tensor_stride_h ra) (Reader.in0_tensor_stride_w ra)
      (Reader.batch ra) (Reader.num_blocks ra)
      (Reader.in0_block_h ra) (Reader.in0_block_w ra) /\
  tile_ids In1 (Reader.kernel_main ra pf) =
    traversal_spec (Reader.in1_tensor_start_tile_id ra)
      (if Reader.bcast_B ra =? 0 then Reader.KtNt ra else 0)
      (Reader.in1_tensor_next_block_stride ra)
      (Reader.in1_tensor_stride_h ra) (Reader.in1_tensor_stride_w ra)
      (Reader.batch ra) (Reader.num_blocks ra)
      (Reader.in1_block_h ra) (Reader.in1_block_w ra) /\
  tile_ids Out (Writer.kernel_main wa pf) =
    subblock_traversal_spec (Writer.out_tensor_start_tile_id wa) (Writer.MtNt wa)
      (Writer.out_tensor_next_subblock_stride_h wa)
      (Writer.out_tensor_next_subblock_stride_w wa)
      (Writer.out_tensor_stride_h wa) (Writer.out_tensor_stride_w wa)
      (Writer.batch wa)
      (Writer.out_num_subblocks_h wa) (Writer.out_num_subblocks_w wa)
      (Writer.out_subblock_h wa) (Writer.out_subblock_w wa).
Proof.
  intros H0 H1 H2. split; [| split].
  - by apply reader_in0_traversal.
  - by apply reader_in1_traversal.
  - by apply writer_out_traversal.
Qed.

(** The example of the specification: a block of 2 x 2 tiles, one block,
    one batch. *)
Lemma traversal_order_witness :
  let ra := Reader.Args 1000 10 1 8 2 2 2 4 2000 20 1 4 8 2 2 4 1 64 32 1 0 1 0 in
  let wa := Writer.Args 3000 0 1 8 2 16 2 2 4 1 1 64 1 1 in
  let pf := Platform (fun _ => 128) (fun cb _ => cb * 4096) (fun _ _ => 0) in
  tile_ids In0 (Reader.kernel_main ra pf) = traversal_spec 10 64 2 8 1 1 1 2 2 /\
  tile_ids In1 (Reader.kernel_main ra pf) = traversal_spec 20 32 8 4 1 1 1 2 2 /\
  tile_ids Out (Writer.kernel_main wa pf) =
    subblock_traversal_spec 0 64 16 2 8 1 1 1 1 2 2.
Proof. intros ra wa pf. apply (traversal_order ra wa pf); by vm_compute. Defined.

Lemma traversal_example :
  traversal_spec 10 64 2 8 1 1 1 2 2 = [10; 11; 18; 19] /\
  traversal_spec 10 64 2 8 1 2 2 1 2 = [10; 11; 12; 13; 74; 75; 76; 77].
Proof. split; reflexivity. Qed.

(** Every coordinate (batch, block, row, column) is visited once: the
    traversal is as long as there are coordinates. *)
Lemma length_bind_const {A B : Type} (f : A -> list B) (l : list A) (k : nat) :
  (forall x, length (f x) = k) -> length (l ≫= f) = (length l * k)%nat.
Proof.
  intros Hf. induction l as [| x l IH]; [done |].
  rewrite bind_cons, length_app, Hf, IH. simpl. lia.
Qed.

Lemma block_tile_ids_length (block_start stride_h stride_w block_h block_w : Z) :
  length (block_tile_ids block_start stride_h stride_w block_h block_w) =
    (Z.to_nat block_h * Z.to_nat block_w)%nat.
Proof.
  unfold block_tile_ids.
  rewrite (length_bind_const _ _ (Z.to_nat block_w)), length_seqZ; [done |].
  intros h. rewrite (length_bind_const _ _ 1), length_seqZ; [lia | done].
Qed.

Lemma traversal_spec_length (start batch_stride next_block_stride
    stride_h stride_w batch num_blocks block_h block_w : Z) :
  length (traversal_spec start batch_stride next_block_stride stride_h stride_w
            batch num_blocks block_h block_w) =
    (Z.to_nat batch * (Z.to_nat num_blocks *
       (Z.to_nat block_h * Z.to_nat block_w)))%nat.
Proof.
  unfold traversal_spec.
  rewrite (length_bind_const _ _
             (Z.to_nat num_blocks * (Z.to_nat block_h * Z.to_nat block_w))),
    length_seqZ; [done |].
  intros b.
  rewrite (length_bind_const _ _ (Z.to_nat block_h * Z.to_nat block_w)),
    length_seqZ; [done |].
  intros k. apply block_tile_ids_length.
Qed.

(** Where the indices of a block stay below 2^32 the wrap-around is the
    identity and the indices are the plain sums. *)
Lemma block_tile_ids_no_overflow
    (block_start stride_h stride_w block_h block_w : Z) :
  0 <= block_start -> 0 <= stride_h -> 0 <= stride_w ->
  block_start + block_h * stride_h + block_w * stride_w < 2 ^ 32 ->
  block_tile_ids block_start stride_h stride_w block_h block_w =
    (h ← seqZ 0 block_h; w ← seqZ 0 block_w;
     [block_start + h * stride_h + w * stride_w]).
Proof.
  intros Hs Hh Hw Hlt. unfold block_tile_ids.
  apply Forall_bind_ext, list.Forall_forall. intros h Hin.
  apply elem_of_seqZ in Hin.
  apply Forall_bind_ext, list.Forall_forall. intros w Hin'.
  apply elem_of_seqZ in Hin'.
  rewrite wrap32_small; [done |]. nia.
Qed.

(** ** C8: the start tile indices from batch to batch *)

(** C8. After every batch the start tile index of in0 advances by [MtKt];
    that of in1 advances by [KtNt] when [bcast_B] is 0 and stays as it is
    otherwise, so that with the broadcast flag set every batch starts in1
    at the same tile. *)
Theorem batch_advance (a : Reader.args) (pf : platform) (b : nat) :
  0 <= Reader.in0_tensor_start_tile_id a < 2 ^ 32 ->
  0 <= Reader.in1_tensor_start_tile_id a < 2 ^ 32 ->
  (forall in0_start in1_start,
     Reader.next_batch a (in0_start, in1_start) =
       (add32 in0_start (Reader.MtKt a),
        if Reader.bcast_B a =? 0 then add32 in1_start (Reader.KtNt a)
        else in1_start)) /\
  fst (Reader.batches a pf b) =
    (wrap32 (Reader.in0_tensor_start_tile_id a + Z.of_nat b * Reader.MtKt a),
     if Reader.bcast_B a =? 0
     then wrap32 (Reader.in1_tensor_start_tile_id a + Z.of_nat b * Reader.KtNt a)
     else Reader.in1_tensor_start_tile_id a).
Proof.
  intros H0 H1. split; [done |].
  rewrite reader_batches_start, iter_next_batch by done.
  by rewrite iter_add32 by done.
Qed.

Lemma batch_advance_witness :
  let a := Reader.Args 1000 10 1 8 2 2 2 4 2000 20 1 4 8 2 2 4 1 64 32 5 1 0 0 in
  let pf := Platform (fun _ => 128) (fun cb _ => cb * 4096) (fun _ _ => 0) in
  (forall in0_start in1_start,
     Reader.next_batch a (in0_start, in1_start) =
       (add32 in0_start 64, in1_start)) /\
  fst (Reader.batches a pf 3) = (wrap32 (10 + 3 * 64), 20).
Proof. intros a pf. apply (batch_advance a pf 3); by vm_compute. Defined.

(** ** The reader decodes at once, whatever the configuration *)

Lemma for_loop_prefix {C R : Type} (next : C -> C) (F : C -> R -> R)
    (tr_of : R -> list event) (n : nat) (i0 : Z) (c : C) (r : R) :
  (forall c r, tr_of r `prefix_of` tr_of (F c r)) ->
  tr_of r `prefix_of`
    tr_of (snd (for_loop n i0 (fun _ '(c, r) => (next c, F c r)) (c, r))).
Proof.
  intros HF. revert i0 c r. induction n as [| n IH]; intros i0 c r; [done |].
  cbn [for_loop]. etrans; [apply HF | apply IH].
Qed.

Lemma for_loop_first {C R : Type} (next : C -> C) (F : C -> R -> R)
    (tr_of : R -> list event) (n : nat) (i0 : Z) (c : C) (r : R) :
  (forall c r, tr_of r `prefix_of` tr_of (F c r)) ->
  (0 < n)%nat ->
  tr_of (F c r) `prefix_of`
    tr_of (snd (for_loop n i0 (fun _ '(c, r) => (next c, F c r)) (c, r))).
Proof.
  intros HF Hn. destruct n as [| n]; [lia |].
  cbn [for_loop]. by apply for_loop_prefix.
Qed.

Lemma read_tile_compact (s : TensorAccessor) (is_mxfp4 size tile_id l1 : Z)
    (tr : list event) :
  is_mxfp4 <> 0 ->
  snd (Reader.read_tile s is_mxfp4 size tile_id (l1, tr)) =
    tr ++ [E_noc_async_read_tile tile_id s l1;
           E_convert_mxfp4_to_fp32_tile (l1_ptr l1) (l1_ptr l1)
             (size / sizeof_uint32_t)].
Proof.
  intros Hnz. unfold Reader.read_tile.
  destruct (Z.eqb_spec is_mxfp4 0) as [? | _]; [done |].
  simpl. by rewrite <- app_assoc.
Qed.

Lemma read_tile_prefix (s : TensorAccessor) (is_mxfp4 size tile_id : Z)
    (st : Z * list event) :
  snd st `prefix_of` snd (Reader.read_tile s is_mxfp4 size tile_id st).
Proof.
  destruct st as [l1 tr]. unfold Reader.read_tile.
  destruct (is_mxfp4 =? 0); simpl.
  - by apply prefix_app_r.
  - rewrite <- app_assoc. by apply prefix_app_r.
Qed.

Lemma read_row_prefix (s : TensorAccessor) (is_mxfp4 size stride_w : Z)
    (block_w : nat) (row_start : Z) (st : Z * list event) :
  snd st `prefix_of`
    snd (snd (for_loop block_w 0 (fun w '(tile_id, st) =>
      (add32 tile_id stride_w, Reader.read_tile s is_mxfp4 size tile_id st))
      (row_start, st))).
Proof.
  apply (for_loop_prefix (fun x => add32 x stride_w)
           (Reader.read_tile s is_mxfp4 size) snd).
  intros c r. apply read_tile_prefix.
Qed.

Lemma read_block_prefix (s : TensorAccessor)
    (is_mxfp4 size block_w block_h stride_w stride_h start : Z)
    (st : Z * list event) :
  snd st `prefix_of`
    snd (Reader.read_block s is_mxfp4 size block_w block_h stride_w stride_h
           start st).
Proof.
  unfold Reader.read_block.
  apply (for_loop_prefix (fun x => add32 x stride_h)
           (fun row st =>
              snd (for_loop (Z.to_nat block_w) 0 (fun w '(tile_id, st) =>
                (add32 tile_id stride_w,
                 Reader.read_tile s is_mxfp4 size tile_id st)) (row, st)))
           snd).
  intros c r. apply read_row_prefix.
Qed.

Lemma read_block_first (s : TensorAccessor)
    (is_mxfp4 size block_w block_h stride_w stride_h start l1 : Z)
    (tr : list event) :
  is_mxfp4 <> 0 -> 0 < block_w -> 0 < block_h ->
  (tr ++ [E_noc_async_read_tile start s l1;
          E_convert_mxfp4_to_fp32_tile (l1_ptr l1) (l1_ptr l1)
            (size / sizeof_uint32_t)])
  `prefix_of`
    snd (Reader.read_block s is_mxfp4 size block_w block_h stride_w stride_h
           start (l1, tr)).
Proof.
  intros Hnz Hw Hh. unfold Reader.read_block.
  etrans; [| apply (for_loop_first (fun x => add32 x stride_h)
           (fun row st =>
              snd (for_loop (Z.to_nat block_w) 0 (fun w '(tile_id, st) =>
                (add32 tile_id stride_w,
                 Reader.read_tile s is_mxfp4 size tile_id st)) (row, st)))
           snd); [intros c r; apply read_row_prefix | lia]].
  etrans; [| apply (for_loop_first (fun x => add32 x stride_w)
           (Reader.read_tile s is_mxfp4 size) snd);
           [intros c r; apply read_tile_prefix | lia]].
  by rewrite read_tile_compact.
Qed.

Lemma reader_block_body_prefix (a : Reader.args) (pf : platform)
    (cur : Z * Z) (tr : list event) :
  tr `prefix_of` Reader.block_body a pf cur tr.
Proof.
  destruct cur as [c0 c1]. unfold Reader.block_body. cbv zeta.
  destruct (Reader.read_block _ _ _ _ _ _ _ c0 _) as [l0 tr0] eqn:E0.
  destruct (Reader.read_block _ _ _ _ _ _ _ c1 _) as [l1 tr1] eqn:E1.
  apply (f_equal snd) in E0, E1. simpl in E0, E1.
  apply prefix_app_r. rewrite <- E1.
  etrans; [| apply read_block_prefix]. simpl. rewrite <- E0.
  etrans; [| apply read_block_prefix]. simpl.
  rewrite <- app_assoc. by apply prefix_app_r.
Qed.

Lemma reader_block_body_first (a : Reader.args) (pf : platform)
    (cur : Z * Z) (tr : list event) :
  Reader.in0_is_mxfp4 a <> 0 ->
  0 < Reader.in0_block_w a -> 0 < Reader.in0_block_h a ->
  exists l1 rest,
    Reader.block_body a pf cur tr =
      tr ++ [E_cb_reserve_back Reader.cb_id_in0 (Reader.in0_block_num_tiles a);
             E_cb_reserve_back Reader.cb_id_in1 (Reader.in1_block_num_tiles a);
             E_noc_async_read_tile (fst cur)
               (Accessor In0 (Reader.in0_tensor_addr a)
                  (get_tile_size pf Reader.cb_id_in0)) l1;
             E_convert_mxfp4_to_fp32_tile (l1_ptr l1) (l1_ptr l1)
               (get_tile_size pf Reader.cb_id_in0 / sizeof_uint32_t)] ++ rest.
Proof.
  intros Hnz Hw Hh. destruct cur as [c0 c1].
  unfold Reader.block_body. cbv zeta.
  destruct (Reader.read_block _ _ _ _ _ _ _ c0 _) as [l0 tr0] eqn:E0.
  destruct (Reader.read_block _ _ _ _ _ _ _ c1 _) as [l1 tr1] eqn:E1.
  apply (f_equal snd) in E0, E1. simpl in E0, E1.
  match type of E0 with
  | snd (Reader.read_block ?s ?f ?sz ?bw ?bh ?sw ?sh ?c (?l, ?t)) = _ =>
      destruct (read_block_first s f sz bw bh sw sh c l t Hnz Hw Hh) as [r0 H0]
  end.
  rewrite E0 in H0.
  match type of E1 with
  | snd (Reader.read_block ?s ?f ?sz ?bw ?bh ?sw ?sh ?c ?st) = _ =>
      destruct (read_block_prefix s f sz bw bh sw sh c st) as [r1 H1]
  end.
  rewrite E1 in H1. simpl in H1.
  eexists _, _. rewrite H1, H0. simpl. rewrite <- !app_assoc. simpl.
  reflexivity.
Qed.

Lemma reader_batch_body_first (a : Reader.args) (pf : platform)
    (start : Z * Z) (tr : list event) :
  0 < Reader.num_blocks a ->
  Reader.block_body a pf start tr `prefix_of` Reader.batch_body a pf start tr.
Proof.
  intros Hn. unfold Reader.batch_body.
  apply (for_loop_first (Reader.next_block a) (Reader.block_body a pf) id);
    [| lia].
  intros c r. apply reader_block_body_prefix.
Qed.

Lemma reader_batch_body_prefix (a : Reader.args) (pf : platform)
    (start : Z * Z) (tr : list event) :
  tr `prefix_of` Reader.batch_body a pf start tr.
Proof.
  unfold Reader.batch_body.
  apply (for_loop_prefix (Reader.next_block a) (Reader.block_body a pf) id).
  intros c r. apply reader_block_body_prefix.
Qed.

Lemma reader_kernel_first (a : Reader.args) (pf : platform) :
  0 < Reader.batch a ->
  Reader.batch_body a pf
    (Reader.in0_tensor_start_tile_id a, Reader.in1_tensor_start_tile_id a) []
  `prefix_of` Reader.kernel_main a pf.
Proof.
  intros Hb. unfold Reader.kernel_main, Reader.batches.
  apply (for_loop_first (Reader.next_batch a) (Reader.batch_body a pf) id);
    [| lia].
  intros c r. apply reader_batch_body_prefix.
Qed.

Lemma decodes_after_barrier_app (outstanding : list ptr) (tr1 tr2 : list event) :
  decodes_after_barrier outstanding tr1 = false ->
  decodes_after_barrier outstanding (tr1 ++ tr2) = false.
Proof.
  revert outstanding. induction tr1 as [| e tr1 IH]; intros out H; [done |].
  destruct e; simpl in *; try by apply IH.
  apply andb_false_iff in H as [H | H]; apply andb_false_iff; [by left |].
  right. by apply IH.
Qed.

(** Whenever in0 is flagged compact and there is a tile to read, the
    first decode is issued right after its read, with the read still
    outstanding. *)
Lemma reader_decodes_before_barrier (a : Reader.args) (pf : platform) :
  Reader.in0_is_mxfp4 a <> 0 ->
  0 < Reader.batch a -> 0 < Reader.num_blocks a ->
  0 < Reader.in0_block_h a -> 0 < Reader.in0_block_w a ->
  decodes_after_barrier [] (Reader.kernel_main a pf) = false.
Proof.
  intros Hnz Hb Hn Hh Hw.
  destruct (reader_kernel_first a pf Hb) as [r1 ->].
  destruct (reader_batch_body_first a pf
              (Reader.in0_tensor_start_tile_id a,
               Reader.in1_tensor_start_tile_id a) [] Hn) as [r2 ->].
  destruct (reader_block_body_first a pf
              (Reader.in0_tensor_start_tile_id a,
               Reader.in1_tensor_start_tile_id a) [] Hnz Hw Hh)
    as (l1 & r3 & ->).
  rewrite <- !app_assoc. simpl.
  rewrite bool_decide_true by apply list_elem_of_here. done.
Qed.

(** ** C2: the decode and the barrier *)

(** C2 on the code. One batch of one block of one tile per operand, in0
    flagged compact: the reader issues the read of the in0 tile, decodes
    the tile at once, and reaches the barrier only after the in1 read. *)
Theorem decode_precedes_barrier :
  let a := Reader.Args 1000 0 1 1 1 1 1 1 2000 0 1 1 1 1 1 1 1 1 1 1 0 1 0 in
  let pf := Platform (fun _ => 128) (fun cb _ => cb * 4096) (fun _ _ => 0) in
  Reader.kernel_main a pf =
    [E_cb_reserve_back 0 1; E_cb_reserve_back 1 1;
     E_noc_async_read_tile 0 (Accessor In0 1000 128) 0;
     E_convert_mxfp4_to_fp32_tile (l1_ptr 0) (l1_ptr 0) 32;
     E_noc_async_read_tile 0 (Accessor In1 2000 128) 4096;
     E_noc_async_read_barrier;
     E_cb_push_back 0 1; E_cb_push_back 1 1] /\
  decodes_after_barrier [] (Reader.kernel_main a pf) = false.
Proof. split; vm_compute; reflexivity. Qed.

(** ** The writer transfers from the staged tile, whatever the configuration *)

Lemma write_tile_compact (s : TensorAccessor) (is_mxfp4 size tile_id l1 : Z)
    (tr : list event) :
  is_mxfp4 <> 0 ->
  snd (Writer.write_tile s is_mxfp4 size tile_id (l1, tr)) =
    tr ++ [E_alloca Writer.mxfp4_buffer
             (Writer.mxfp4_buffer_len (size / sizeof_uint32_t));
           E_convert_fp32_to_mxfp4_tile (l1_ptr l1) Writer.mxfp4_buffer
             (size / sizeof_uint32_t);
           E_noc_async_write tile_id (address s) l1
             (Writer.mxfp4_size (size / sizeof_uint32_t))].
Proof.
  intros Hnz. unfold Writer.write_tile.
  by destruct (Z.eqb_spec is_mxfp4 0) as [? | _].
Qed.

(** The length of the transfer is that of the compact tile. *)
Lemma mxfp4_size_exact (tile_elements : Z) :
  0 <= tile_elements < 2 ^ 32 ->
  Writer.mxfp4_size tile_elements = tile_elements / 32 * 5 * 4.
Proof.
  intros Hn. unfold Writer.mxfp4_size, mul32, sizeof_uint32_t.
  assert (0 <= tile_elements / 32) by (apply Z.div_pos; lia).
  assert (32 * (tile_elements / 32) <= tile_elements)
    by (apply Z.mul_div_le; lia).
  rewrite (wrap32_small (tile_elements / 32 * 5)) by lia.
  apply wrap32_small. lia.
Qed.

Lemma read_words_ext (m m' : mem) (p : ptr) (n : Z) :
  (forall k, load m' p k = load m p k) -> read_words m' p n = read_words m p n.
Proof.
  intros H. unfold read_words. apply mapM_ext. intros k. apply H.
Qed.

(** Declaring the array and encoding into it leaves L1 as it was, so the
    words the transfer takes from [l1_read_addr] are those the compute
    stage put there. *)
Lemma encode_leaves_staged_tile (m : mem) (l1_read_addr : Z) (stack : list Z)
    (tile_elements : Z) :
  0 <= tile_elements < 2 ^ 32 ->
  readable m (l1_ptr l1_read_addr) tile_elements ->
  m !! STACK = Some stack ->
  Writer.mxfp4_buffer_len tile_elements <= Z.of_nat (length stack) ->
  exists m1 m2,
    exec (E_alloca Writer.mxfp4_buffer (Writer.mxfp4_buffer_len tile_elements)) m
      = Some m1 /\
    exec (E_convert_fp32_to_mxfp4_tile (l1_ptr l1_read_addr) Writer.mxfp4_buffer
            tile_elements) m1 = Some m2 /\
    (forall addr n, read_words m2 (l1_ptr addr) n = read_words m (l1_ptr addr) n).
Proof.
  intros Hn Hsrc Hstack Hcap.
  pose proof (compact_words_fit tile_elements ltac:(lia)) as Hfit.
  assert (0 <= Writer.mxfp4_buffer_len tile_elements) as Hlen0
    by (apply Z.div_pos; lia).
  assert (0 <= tile_elements / 32) as HG by (apply Z.div_pos; lia).
  assert (32 * (tile_elements / 32) <= tile_elements) as Hle
    by (apply Z.mul_div_le; lia).
  set (buf := take (Z.to_nat (Writer.mxfp4_buffer_len tile_elements)) stack).
  set (m1 := <[STACK := buf]> m).
  assert (m1 !! STACK = Some buf) as Hbuf.
  { apply list_lookup_insert_eq. by eapply lookup_lt_Some. }
  assert (Z.of_nat (length buf) = Writer.mxfp4_buffer_len tile_elements) as Hbl.
  { unfold buf. rewrite length_take. lia. }
  destruct (convert_fp32_to_mxfp4_tile_spec m1 (l1_ptr l1_read_addr)
              Writer.mxfp4_buffer tile_elements)
    as (m2 & Hm2 & _ & _ & Hfr); [lia | | | |].
  - intros k Hk. unfold m1. rewrite load_insert_other by done.
    apply Hsrc. lia.
  - apply (readable_block m1 Writer.mxfp4_buffer buf); [done | done |].
    simpl. lia.
  - by apply separate_blocks.
  - exists m1, m2. split; [| split; [done |]].
    + apply (exec_alloca m Writer.mxfp4_buffer _ stack); [done | lia].
    + intros addr n. apply read_words_ext. intros k.
      rewrite Hfr by (intros b _; unfold loc; simpl; intros [= ? ?]; done).
      unfold m1. by rewrite load_insert_other.
Qed.

(** ** C3: what the writer transfers for a compact output *)

(** C3 on the code. One tile of 32 values 1.5, output flagged compact:
    the writer encodes the tile into [mxfp4_buffer] and issues a transfer
    of 20 bytes, five words, from [l1_read_addr]; the five words moved are
    the first five values of the tile, and the encoded block stays in the
    buffer. *)
Theorem writer_transfers_staged_words :
  let a := Writer.Args 3000 0 1 1 1 1 1 1 1 1 1 1 1 1 in
  let pf := Platform (fun _ => 128) (fun _ _ => 0) (fun _ _ => 0) in
  let m := [replicate 32 1069547520; replicate 8 0] in
  Writer.kernel_main a pf =
    [E_cb_wait_front 16 1;
     E_alloca Writer.mxfp4_buffer 5;
     E_convert_fp32_to_mxfp4_tile (l1_ptr 0) Writer.mxfp4_buffer 32;
     E_noc_async_write 0 3000 0 20;
     E_noc_async_write_barrier;
     E_cb_pop_front 16 1] /\
  exists m',
    transfers (Writer.kernel_main a pf) m =
      Some ([[1069547520; 1069547520; 1069547520; 1069547520; 1069547520]], m') /\
    read_words m' Writer.mxfp4_buffer 5 =
      Some [2130706432; 2290649224; 2290649224; 2290649224; 2290649224].
Proof.
  intros a pf m. split; [vm_compute; reflexivity |].
  eexists. split; vm_compute; reflexivity.
Qed.

(** ** More rules for loops *)

Lemma for_loopM_inv_partial {St : Type} (Inv : Z -> St -> Prop)
    (body : Z -> St -> option St) (n : nat) (i0 : Z) (s s' : St) :
  for_loopM n i0 body s = Some s' ->
  Inv i0 s ->
  (forall i s s1, i0 <= i < i0 + Z.of_nat n -> Inv i s -> body i s = Some s1 ->
     Inv (i + 1) s1) ->
  Inv (i0 + Z.of_nat n) s'.
Proof.
  revert i0 s. induction n as [| n IH]; intros i0 s Hrun H0 Hstep.
  - simpl in Hrun. injection Hrun as <-. by rewrite Z.add_0_r.
  - simpl in Hrun. destruct (body i0 s) as [s1 |] eqn:Hb; [| done].
    simpl in Hrun.
    replace (i0 + Z.of_nat (S n)) with (i0 + 1 + Z.of_nat n) by lia.
    apply (IH (i0 + 1) s1 Hrun).
    + apply (Hstep i0 s); (done || lia).
    + intros i s2 s3 Hi. apply Hstep. lia.
Qed.

Lemma for_loop_inv {St : Type} (Inv : St -> Prop)
    (body : Z -> St -> St) (n : nat) (i0 : Z) (s : St) :
  Inv s -> (forall i s, Inv s -> Inv (body i s)) ->
  Inv (for_loop n i0 body s).
Proof.
  intros H0 Hstep. revert i0 s H0.
  induction n as [| n IH]; intros i0 s H0; [done |].
  simpl. apply IH. by apply Hstep.
Qed.

(** ** Which words can be accessed *)

Lemma store_load_is_Some (m m' : mem) (p : ptr) (i v : Z) :
  store m p i v = Some m' -> is_Some (load m p i).
Proof.
  unfold load, store. destruct (m !! p_blk p) as [b |]; simpl; [| done].
  destruct (0 <=? p_off p + i) eqn:E; simpl; [| done].
  destruct (p_off p + i <? Z.of_nat (length b)) eqn:E2; simpl; [| done].
  intros _. apply Z.leb_le in E. apply Z.ltb_lt in E2.
  apply lookup_lt_is_Some. lia.
Qed.

Lemma store_same_access (m m' : mem) (p : ptr) (i v : Z) :
  store m p i v = Some m' -> same_access m m'.
Proof.
  intros Hst q k. destruct (decide (loc q k = loc p i)) as [Heq | Hne].
  - rewrite (load_loc m' q p k i Heq), (load_loc m q p k i Heq).
    rewrite (load_store_eq _ _ _ _ _ Hst).
    split; [intros _; by eapply store_load_is_Some | eauto].
  - by rewrite (load_store_ne _ _ _ _ _ _ _ Hst).
Qed.

Lemma same_access_refl (m : mem) : same_access m m.
Proof. by intros q k. Qed.

Lemma same_access_trans (m1 m2 m3 : mem) :
  same_access m1 m2 -> same_access m2 m3 -> same_access m1 m3.
Proof. intros H12 H23 q k. etrans; [apply H23 | apply H12]. Qed.

(** ** When the decoder is defined *)

Lemma unpack_block_runs (m mi : mem) (src dst : ptr) (i shared_exp : Z) :
  0 <= i < 2 ^ 27 -> same_access m mi ->
  (forall w, 0 <= w < 4 -> is_Some (load m src (5 * i + 1 + w))) ->
  (forall j, 0 <= j < 32 -> is_Some (load m dst (32 * i + j))) ->
  exists m', unpack_block src dst i shared_exp mi = Some m' /\ same_access m m'.
Proof.
  intros Hi Hacc Hsrc Hdst. unfold unpack_block.
  change (Z.to_nat MXFP4_BLOCK_SIZE) with 32%nat.
  destruct (for_loopM_inv (fun _ mj => same_access m mj)
    (fun j m =>
       let byte_idx := add32 (add32 (mul32 i 5) (j / 8)) 1 in
       let nibble_idx := j mod 8 in
       w ← load m src byte_idx;
       let mxfp4_val := nibble w nibble_idx in
       store m dst (add32 (mul32 i MXFP4_BLOCK_SIZE) j)
             (decode_value shared_exp mxfp4_val))
    32 0 mi) as (m' & Hm' & Hacc'); [done | | by exists m'].
  intros j mj Hj Hmj. cbv zeta.
  assert (0 <= j / 8 < 4) as Hq
    by (split; [apply Z.div_pos | apply Z.div_lt_upper_bound]; lia).
  rewrite idx_val, idx_mag by lia.
  destruct (proj2 (Hmj src (5 * i + 1 + j / 8)) (Hsrc _ Hq)) as [w Hw].
  rewrite Hw. simpl.
  destruct (store_succeeds mj dst (32 * i + j)
              (decode_value shared_exp (nibble w (j mod 8)))) as [m2 Hst].
  { apply Hmj, Hdst. lia. }
  exists m2. split; [done |].
  eapply same_access_trans; [done | by eapply store_same_access].
Qed.

Lemma decoder_runs (m : mem) (src dst : ptr) (n : Z) :
  0 <= n < 2 ^ 32 ->
  readable m src (5 * (n / 32)) -> readable m dst (32 * (n / 32)) ->
  exists m', convert_mxfp4_to_fp32_tile src dst n m = Some m' /\ same_access m m'.
Proof.
  intros Hn Hsrc Hdst. unfold convert_mxfp4_to_fp32_tile.
  change MXFP4_BLOCK_SIZE with 32 at 1.
  assert (0 <= n / 32) as HG by (apply Z.div_pos; lia).
  destruct (for_loopM_inv (fun _ mi => same_access m mi)
    (fun i m =>
       w0 ← load m src (mul32 i 5);
       let shared_exp := shared_exp_of w0 in
       unpack_block src dst i shared_exp m)
    (Z.to_nat (n / 32)) 0 m) as (m' & Hm' & Hacc');
    [apply same_access_refl | | by exists m'].
  intros i mi Hi Hmi. rewrite Z2Nat.id in Hi by done.
  assert (0 <= i < 2 ^ 27) as Hi27.
  { apply (blocks_bound n); [done |]. unfold MXFP4_BLOCK_SIZE. lia. }
  rewrite idx_exp by done.
  destruct (proj2 (Hmi src (5 * i)) (Hsrc (5 * i) ltac:(lia))) as [w0 Hw0].
  rewrite Hw0. simpl.
  apply (unpack_block_runs m mi); [done | done | |].
  - intros w Hw. apply Hsrc. lia.
  - intros j Hj. apply Hdst. lia.
Qed.

Lemma unpack_block_accesses (m mi m' : mem) (src dst : ptr) (i shared_exp : Z) :
  unpack_block src dst i shared_exp mi = Some m' ->
  0 <= i < 2 ^ 27 -> same_access m mi ->
  same_access m m' /\
  forall j, 0 <= j < 32 ->
    is_Some (load m src (5 * i + 1 + j / 8)) /\
    is_Some (load m dst (32 * i + j)).
Proof.
  intros Hrun Hi Hacc. unfold unpack_block in Hrun.
  change (Z.to_nat MXFP4_BLOCK_SIZE) with 32%nat in Hrun.
  apply (for_loopM_inv_partial
    (fun j mj => same_access m mj /\
       forall j', 0 <= j' < j ->
         is_Some (load m src (5 * i + 1 + j' / 8)) /\
         is_Some (load m dst (32 * i + j'))) _ _ _ _ _ Hrun).
  - split; [done | intros; lia].
  - intros j mj m1 Hj [Hmj Hdone] Hbody. cbv zeta in Hbody.
    rewrite idx_val, idx_mag in Hbody by lia.
    destruct (load mj src (5 * i + 1 + j / 8)) as [w |] eqn:Hw; [| done].
    simpl in Hbody.
    split; [eapply same_access_trans; [done | by eapply store_same_access] |].
    intros j' Hj'. destruct (decide (j' = j)) as [-> | Hne]; [| apply Hdone; lia].
    split.
    + apply Hmj. by rewrite Hw.
    + apply Hmj. by eapply store_load_is_Some.
Qed.

Lemma decoder_accesses (m m' : mem) (src dst : ptr) (n : Z) :
  convert_mxfp4_to_fp32_tile src dst n m = Some m' ->
  0 <= n < 2 ^ 32 ->
  readable m src (5 * (n / 32)) /\ readable m dst (32 * (n / 32)).
Proof.
  intros Hrun Hn. unfold convert_mxfp4_to_fp32_tile in Hrun.
  change MXFP4_BLOCK_SIZE with 32 in Hrun at 1.
  assert (0 <= n / 32) as HG by (apply Z.div_pos; lia).
  assert (same_access m m' /\
    forall i', 0 <= i' < 0 + Z.of_nat (Z.to_nat (n / 32)) ->
      is_Some (load m src (5 * i')) /\
      forall j, 0 <= j < 32 ->
        is_Some (load m src (5 * i' + 1 + j / 8)) /\
        is_Some (load m dst (32 * i' + j))) as [_ Hall].
  { apply (for_loopM_inv_partial
      (fun i mi => same_access m mi /\
         forall i', 0 <= i' < i ->
           is_Some (load m src (5 * i')) /\
           forall j, 0 <= j < 32 ->
             is_Some (load m src (5 * i' + 1 + j / 8)) /\
             is_Some (load m dst (32 * i' + j))) _ _ _ _ _ Hrun).
    - split; [apply same_access_refl | intros; lia].
    - intros i mi m1 Hi [Hmi Hdone] Hbody. rewrite Z2Nat.id in Hi by done.
      assert (0 <= i < 2 ^ 27) as Hi27.
      { apply (blocks_bound n); [done |]. unfold MXFP4_BLOCK_SIZE. lia. }
      rewrite idx_exp in Hbody by done.
      destruct (load mi src (5 * i)) as [w0 |] eqn:Hw0; [| done].
      simpl in Hbody.
      destruct (unpack_block_accesses m mi m1 _ _ _ _ Hbody Hi27 Hmi)
        as [Hm1 Hblk].
      split; [done |]. intros i' Hi'.
      destruct (decide (i' = i)) as [-> | Hne]; [| apply Hdone; lia].
      split; [| done]. apply Hmi. by rewrite Hw0. }
  rewrite Z2Nat.id in Hall by done.
  split.
  - intros k Hk.
    pose proof (Z.div_mod k 5 ltac:(lia)) as Hdm.
    pose proof (Z.mod_pos_bound k 5 ltac:(lia)) as Hr.
    assert (0 <= k / 5 < n / 32) as Hq.
    { split; [apply Z.div_pos; lia | apply Z.div_lt_upper_bound; lia]. }
    destruct (Hall (k / 5) ltac:(lia)) as [Hexp Hblk].
    destruct (decide (k mod 5 = 0)) as [Hz | Hnz].
    + by replace k with (5 * (k / 5)) by lia.
    + destruct (Hblk (8 * (k mod 5 - 1)) ltac:(lia)) as [Hmag _].
      replace (8 * (k mod 5 - 1) / 8) with (k mod 5 - 1) in Hmag
        by (rewrite Z.mul_comm, Z.div_mul; lia).
      by replace (5 * (k / 5) + 1 + (k mod 5 - 1)) with k in Hmag by lia.
  - intros k Hk.
    pose proof (Z.div_mod k 32 ltac:(lia)) as Hdm.
    pose proof (Z.mod_pos_bound k 32 ltac:(lia)) as Hr.
    assert (0 <= k / 32 < n / 32) as Hq.
    { split; [apply Z.div_pos; lia | apply Z.div_lt_upper_bound; lia]. }
    destruct (Hall (k / 32) ltac:(lia)) as [_ Hblk].
    destruct (Hblk (k mod 32) Hr) as [_ Hd].
    by replace (32 * (k / 32) + k mod 32) with k in Hd by lia.
Qed.

(** ** When the encoder is defined *)

Lemma pack_block_runs (m mi : mem) (src dst : ptr) (i max_exp : Z) :
  0 <= i < 2 ^ 27 -> same_access m mi ->
  (forall j, 0 <= j < 32 -> is_Some (load m src (32 * i + j))) ->
  (forall w, 0 <= w < 4 -> is_Some (load m dst (5 * i + 1 + w))) ->
  exists m', pack_block src dst i max_exp mi = Some m' /\ same_access m m'.
Proof.
  intros Hi Hacc Hsrc Hdst. unfold pack_block.
  change (Z.to_nat MXFP4_BLOCK_SIZE) with 32%nat.
  destruct (for_loopM_inv (fun _ mj => same_access m mj)
    (fun j m =>
       fp32_val ← load m src (add32 (mul32 i MXFP4_BLOCK_SIZE) j);
       let mxfp4_val := quantize max_exp fp32_val in
       let byte_idx := add32 (add32 (mul32 i 5) (j / 8)) 1 in
       let nibble_idx := j mod 8 in
       w ← load m dst byte_idx;
       store m dst byte_idx (Z.lor w (shl32 mxfp4_val (nibble_idx * 4))))
    32 0 mi) as (m' & Hm' & Hacc'); [done | | by exists m'].
  intros j mj Hj Hmj. cbv zeta.
  assert (0 <= j / 8 < 4) as Hq
    by (split; [apply Z.div_pos | apply Z.div_lt_upper_bound]; lia).
  rewrite idx_val, idx_mag by lia.
  destruct (proj2 (Hmj src (32 * i + j)) (Hsrc j ltac:(lia))) as [v Hv].
  rewrite Hv. simpl.
  destruct (proj2 (Hmj dst (5 * i + 1 + j / 8)) (Hdst _ Hq)) as [w Hw].
  rewrite Hw. simpl.
  destruct (store_succeeds mj dst (5 * i + 1 + j / 8)
              (Z.lor w (shl32 (quantize max_exp v) (j mod 8 * 4))))
    as [m2 Hst]; [by rewrite Hw |].
  exists m2. split; [done |].
  eapply same_access_trans; [done | by eapply store_same_access].
Qed.

Lemma encoder_runs (m : mem) (src dst : ptr) (n : Z) :
  0 <= n < 2 ^ 32 ->
  readable m src (32 * (n / 32)) -> readable m dst (5 * (n / 32)) ->
  exists m', convert_fp32_to_mxfp4_tile src dst n m = Some m' /\ same_access m m'.
Proof.
  intros Hn Hsrc Hdst. unfold convert_fp32_to_mxfp4_tile.
  change MXFP4_BLOCK_SIZE with 32 at 1.
  assert (0 <= n / 32) as HG by (apply Z.div_pos; lia).
  destruct (for_loopM_inv (fun _ mi => same_access m mi)
    (fun i m =>
       max_exp ← find_max_exp src i m;
       m ← store m dst (mul32 i 5) (shl32 max_exp 24);
       pack_block src dst i max_exp m)
    (Z.to_nat (n / 32)) 0 m) as (m' & Hm' & Hacc');
    [apply same_access_refl | | by exists m'].
  intros i mi Hi Hmi. rewrite Z2Nat.id in Hi by done.
  assert (0 <= i < 2 ^ 27) as Hi27.
  { apply (blocks_bound n); [done |]. unfold MXFP4_BLOCK_SIZE. lia. }
  rewrite find_max_exp_spec; [| done |]; cycle 1.
  { intros j Hj. apply Hmi, Hsrc. lia. }
  simpl. rewrite idx_exp by done.
  destruct (store_succeeds mi dst (5 * i) (shl32 (block_max_exp mi src i) 24))
    as [m1 Hm1]; [apply Hmi, Hdst; lia |].
  rewrite Hm1. simpl.
  apply (pack_block_runs m m1); [done | | |].
  - eapply same_access_trans; [done | by eapply store_same_access].
  - intros j Hj. apply Hsrc. lia.
  - intros w Hw. apply Hdst. lia.
Qed.

Lemma find_max_exp_accesses (mi : mem) (src : ptr) (i e : Z) :
  find_max_exp src i mi = Some e -> 0 <= i < 2 ^ 27 ->
  forall j, 0 <= j < 32 -> is_Some (load mi src (32 * i + j)).
Proof.
  intros Hrun Hi. unfold find_max_exp in Hrun.
  change (Z.to_nat MXFP4_BLOCK_SIZE) with 32%nat in Hrun.
  apply (for_loopM_inv_partial
    (fun j (_ : Z) => forall j', 0 <= j' < j ->
       is_Some (load mi src (32 * i + j'))) _ _ _ _ _ Hrun).
  - intros; lia.
  - intros j acc acc' Hj Hdone Hbody. rewrite idx_val in Hbody by lia.
    destruct (load mi src (32 * i + j)) as [v |] eqn:Hv; [| done].
    intros j' Hj'. destruct (decide (j' = j)) as [-> | Hne]; [| apply Hdone; lia].
    by rewrite Hv.
Qed.

Lemma pack_block_accesses (m mi m' : mem) (src dst : ptr) (i max_exp : Z) :
  pack_block src dst i max_exp mi = Some m' ->
  0 <= i < 2 ^ 27 -> same_access m mi ->
  same_access m m' /\
  forall j, 0 <= j < 32 -> is_Some (load m dst (5 * i + 1 + j / 8)).
Proof.
  intros Hrun Hi Hacc. unfold pack_block in Hrun.
  change (Z.to_nat MXFP4_BLOCK_SIZE) with 32%nat in Hrun.
  apply (for_loopM_inv_partial
    (fun j mj => same_access m mj /\
       forall j', 0 <= j' < j -> is_Some (load m dst (5 * i + 1 + j' / 8)))
    _ _ _ _ _ Hrun).
  - split; [done | intros; lia].
  - intros j mj m1 Hj [Hmj Hdone] Hbody. cbv zeta in Hbody.
    rewrite idx_val, idx_mag in Hbody by lia.
    destruct (load mj src (32 * i + j)) as [v |] eqn:Hv; [| done].
    simpl in Hbody.
    destruct (load mj dst (5 * i + 1 + j / 8)) as [w |] eqn:Hw; [| done].
    simpl in Hbody.
    split; [eapply same_access_trans; [done | by eapply store_same_access] |].
    intros j' Hj'. destruct (decide (j' = j)) as [-> | Hne]; [| apply Hdone; lia].
    apply Hmj. by rewrite Hw.
Qed.

Lemma encoder_accesses (m m' : mem) (src dst : ptr) (n : Z) :
  convert_fp32_to_mxfp4_tile src dst n m = Some m' ->
  0 <= n < 2 ^ 32 ->
  readable m src (32 * (n / 32)) /\ readable m dst (5 * (n / 32)).
Proof.
  intros Hrun Hn. unfold convert_fp32_to_mxfp4_tile in Hrun.
  change MXFP4_BLOCK_SIZE with 32 in Hrun at 1.
  assert (0 <= n / 32) as HG by (apply Z.div_pos; lia).
  assert (same_access m m' /\
    forall i', 0 <= i' < 0 + Z.of_nat (Z.to_nat (n / 32)) ->
      is_Some (load m dst (5 * i')) /\
      (forall j, 0 <= j < 32 -> is_Some (load m src (32 * i' + j))) /\
      (forall j, 0 <= j < 32 -> is_Some (load m dst (5 * i' + 1 + j / 8))))
    as [_ Hall].
  { apply (for_loopM_inv_partial
      (fun i mi => same_access m mi /\
         forall i', 0 <= i' < i ->
           is_Some (load m dst (5 * i')) /\
           (forall j, 0 <= j < 32 -> is_Some (load m src (32 * i' + j))) /\
           (forall j, 0 <= j < 32 -> is_Some (load m dst (5 * i' + 1 + j / 8))))
      _ _ _ _ _ Hrun).
    - split; [apply same_access_refl | intros; lia].
    - intros i mi m2 Hi [Hmi Hdone] Hbody. rewrite Z2Nat.id in Hi by done.
      assert (0 <= i < 2 ^ 27) as Hi27.
      { apply (blocks_bound n); [done |]. unfold MXFP4_BLOCK_SIZE. lia. }
      destruct (find_max_exp src i mi) as [e |] eqn:He; [| done].
      simpl in Hbody. rewrite idx_exp in Hbody by done.
      destruct (store mi dst (5 * i) (shl32 e 24)) as [m1 |] eqn:Hst; [| done].
      simpl in Hbody.
      assert (same_access m m1) as Hm1
        by (eapply same_access_trans; [done | by eapply store_same_access]).
      destruct (pack_block_accesses m m1 m2 _ _ _ _ Hbody Hi27 Hm1)
        as [Hm2 Hblk].
      split; [done |]. intros i' Hi'.
      destruct (decide (i' = i)) as [-> | Hne]; [| apply Hdone; lia].
      split; [| split; [| done]].
      + apply Hmi. by eapply store_load_is_Some.
      + intros j Hj. apply Hmi. by eapply find_max_exp_accesses. }
  rewrite Z2Nat.id in Hall by done.
  split.
  - intros k Hk.
    pose proof (Z.div_mod k 32 ltac:(lia)) as Hdm.
    pose proof (Z.mod_pos_bound k 32 ltac:(lia)) as Hr.
    assert (0 <= k / 32 < n / 32) as Hq.
    { split; [apply Z.div_pos; lia | apply Z.div_lt_upper_bound; lia]. }
    destruct (Hall (k / 32) ltac:(lia)) as (_ & Hs & _).
    pose proof (Hs (k mod 32) Hr) as Hd.
    by replace (32 * (k / 32) + k mod 32) with k in Hd by lia.
  - intros k Hk.
    pose proof (Z.div_mod k 5 ltac:(lia)) as Hdm.
    pose proof (Z.mod_pos_bound k 5 ltac:(lia)) as Hr.
    assert (0 <= k / 5 < n / 32) as Hq.
    { split; [apply Z.div_pos; lia | apply Z.div_lt_upper_bound; lia]. }
    destruct (Hall (k / 5) ltac:(lia)) as (Hexp & _ & Hblk).
    destruct (decide (k mod 5 = 0)) as [Hz | Hnz].
    + by replace k with (5 * (k / 5)) by lia.
    + pose proof (Hblk (8 * (k mod 5 - 1)) ltac:(lia)) as Hmag.
      replace (8 * (k mod 5 - 1) / 8) with (k mod 5 - 1) in Hmag
        by (rewrite Z.mul_comm, Z.div_mul; lia).
      by replace (5 * (k / 5) + 1 + (k mod 5 - 1)) with k in Hmag by lia.
Qed.

(** ** The codec fails on an out-of-bounds access only *)

(** X1. Whatever the two pointers, equal, overlapping or apart, the
    decoder of a tile of [n] elements returns exactly when the
    [5 * (n / 32)] words at its source and the [32 * (n / 32)] words at
    its destination lie inside their blocks; it then leaves every block
    with the length it had. *)
Theorem decoder_defined_iff_in_bounds (m : mem) (mxfp4_tile fp32_tile : ptr)
    (tile_size : Z) :
  0 <= tile_size < 2 ^ 32 ->
  (is_Some (convert_mxfp4_to_fp32_tile mxfp4_tile fp32_tile tile_size m) <->
   readable m mxfp4_tile (5 * (tile_size / 32)) /\
   readable m fp32_tile (32 * (tile_size / 32))) /\
  (forall m', convert_mxfp4_to_fp32_tile mxfp4_tile fp32_tile tile_size m = Some m' ->
     same_access m m').
Proof.
  intros Hn. split; [split |].
  - intros [m' Hm']. by apply (decoder_accesses m m').
  - intros [Hsrc Hdst].
    destruct (decoder_runs m mxfp4_tile fp32_tile tile_size) as (m' & -> & _);
      (done || eauto).
  - intros m' Hm'.
    destruct (decoder_accesses m m' _ _ _ Hm' Hn) as [Hsrc Hdst].
    destruct (decoder_runs m mxfp4_tile fp32_tile tile_size Hn Hsrc Hdst)
      as (m2 & Hm2 & Hacc).
    rewrite Hm' in Hm2. by injection Hm2 as ->.
Qed.

Lemma decoder_defined_iff_in_bounds_witness :
  let m := [replicate 64 286331153] in
  (is_Some (convert_mxfp4_to_fp32_tile (Ptr 0 0) (Ptr 0 0) 64 m) <->
   readable m (Ptr 0 0) (5 * (64 / 32)) /\
   readable m (Ptr 0 0) (32 * (64 / 32))) /\
  (forall m', convert_mxfp4_to_fp32_tile (Ptr 0 0) (Ptr 0 0) 64 m = Some m' ->
     same_access m m').
Proof. intros m. apply decoder_defined_iff_in_bounds. by vm_compute. Defined.

(** X2. The same for the encoder: it returns exactly when the
    [32 * (n / 32)] words at its source and the [5 * (n / 32)] words at
    its destination lie inside their blocks, aliased or not. *)
Theorem encoder_defined_iff_in_bounds (m : mem) (fp32_tile mxfp4_tile : ptr)
    (tile_size : Z) :
  0 <= tile_size < 2 ^ 32 ->
  (is_Some (convert_fp32_to_mxfp4_tile fp32_tile mxfp4_tile tile_size m) <->
   readable m fp32_tile (32 * (tile_size / 32)) /\
   readable m mxfp4_tile (5 * (tile_size / 32))) /\
  (forall m', convert_fp32_to_mxfp4_tile fp32_tile mxfp4_tile tile_size m = Some m' ->
     same_access m m').
Proof.
  intros Hn. split; [split |].
  - intros [m' Hm']. by apply (encoder_accesses m m').
  - intros [Hsrc Hdst].
    destruct (encoder_runs m fp32_tile mxfp4_tile tile_size) as (m' & -> & _);
      (done || eauto).
  - intros m' Hm'.
    destruct (encoder_accesses m m' _ _ _ Hm' Hn) as [Hsrc Hdst].
    destruct (encoder_runs m fp32_tile mxfp4_tile tile_size Hn Hsrc Hdst)
      as (m2 & Hm2 & Hacc).
    rewrite Hm' in Hm2. by injection Hm2 as ->.
Qed.

Lemma encoder_defined_iff_in_bounds_witness :
  let m := [replicate 64 1069547520; replicate 9 0] in
  (is_Some (convert_fp32_to_mxfp4_tile (Ptr 0 0) (Ptr 1 0) 64 m) <->
   readable m (Ptr 0 0) (32 * (64 / 32)) /\
   readable m (Ptr 1 0) (5 * (64 / 32))) /\
  (forall m', convert_fp32_to_mxfp4_tile (Ptr 0 0) (Ptr 1 0) 64 m = Some m' ->
     same_access m m').
Proof. intros m. apply encoder_defined_iff_in_bounds. by vm_compute. Defined.

(** A destination one word short: the encoder of two blocks needs ten
    words and stops at the tenth. *)
Lemma encoder_one_word_short :
  convert_fp32_to_mxfp4_tile (Ptr 0 0) (Ptr 1 0) 64
    [replicate 64 1069547520; replicate 9 0] = None /\
  is_Some (convert_fp32_to_mxfp4_tile (Ptr 0 0) (Ptr 1 0) 64
    [replicate 64 1069547520; replicate 10 0]).
Proof. split; [vm_compute; reflexivity | vm_compute; eauto]. Qed.

(** ** What the decoder writes *)

(** X3. Between separate buffers the decoder returns, and word
    [32 * i + j] of the destination is 0 where nibble [j mod 8] of
    magnitude word [j / 8] of block [i] is 0, and otherwise the shared
    exponent of the block shifted to bit 23 ORed with the nibble shifted
    to bit 19.  The compact tile, the destination past the last whole
    block and every other word of memory are as they were. *)
Theorem decoder_result (m : mem) (mxfp4_tile fp32_tile : ptr) (tile_size : Z) :
  0 <= tile_size < 2 ^ 32 ->
  readable m mxfp4_tile (5 * (tile_size / 32)) ->
  readable m fp32_tile (32 * (tile_size / 32)) ->
  separate mxfp4_tile (5 * (tile_size / 32)) fp32_tile (32 * (tile_size / 32)) ->
  exists m', convert_mxfp4_to_fp32_tile mxfp4_tile fp32_tile tile_size m = Some m' /\
    (forall i j, 0 <= i < tile_size / 32 -> 0 <= j < 32 ->
       load m' fp32_tile (32 * i + j) =
         Some (decode_value (shared_exp_of (word_at m mxfp4_tile (5 * i)))
                 (nibble (word_at m mxfp4_tile (5 * i + 1 + j / 8)) (j mod 8)))) /\
    (forall k, 0 <= k < 5 * (tile_size / 32) ->
       load m' mxfp4_tile k = load m mxfp4_tile k) /\
    (forall k, 32 * (tile_size / 32) <= k ->
       load m' fp32_tile k = load m fp32_tile k) /\
    (forall q k, p_blk q <> p_blk fp32_tile -> load m' q k = load m q k).
Proof.
  intros Hn Hsrc Hdst Hsep.
  destruct (convert_mxfp4_to_fp32_tile_spec m mxfp4_tile fp32_tile tile_size)
    as (m' & Hm' & Hval & Hfr); [done .. |].
  exists m'. split; [done |]. split; [done |]. split; [| split].
  - intros k Hk. apply Hfr. intros b Hb. by apply Hsep.
  - intros k Hk. apply Hfr. intros b Hb. apply loc_same_ptr. lia.
  - intros q k Hq. apply Hfr. intros b Hb. unfold loc. by intros [= ? ?].
Qed.

Lemma decoder_result_witness :
  let m := [[2130706432; 286331153; 0; 0; 4026531840]; replicate 40 7] in
  exists m', convert_mxfp4_to_fp32_tile (Ptr 0 0) (Ptr 1 0) 39 m = Some m' /\
    (forall i j, 0 <= i < 39 / 32 -> 0 <= j < 32 ->
       load m' (Ptr 1 0) (32 * i + j) =
         Some (decode_value (shared_exp_of (word_at m (Ptr 0 0) (5 * i)))
                 (nibble (word_at m (Ptr 0 0) (5 * i + 1 + j / 8)) (j mod 8)))) /\
    (forall k, 0 <= k < 5 * (39 / 32) ->
       load m' (Ptr 0 0) k = load m (Ptr 0 0) k) /\
    (forall k, 32 * (39 / 32) <= k ->
       load m' (Ptr 1 0) k = load m (Ptr 1 0) k) /\
    (forall q k, p_blk q <> p_blk (Ptr 1 0) -> load m' q k = load m q k).
Proof.
  intros m. apply decoder_result.
  - by vm_compute.
  - by apply (readable_block m _ [2130706432; 286331153; 0; 0; 4026531840]).
  - by apply (block_const_readable m _ 40 7).
  - by apply separate_blocks.
Defined.

(** Every word the decoder can store, by cases on the exponent byte and
    the nibble. *)
Lemma decode_value_form (e mag : Z) :
  0 <= e < 256 -> 0 <= mag < 16 ->
  0 <= decode_value e mag < 2 ^ 31 /\ decode_value e mag mod 2 ^ 19 = 0.
Proof.
  intros He Hmag.
  assert (forallb (fun e => forallb (fun mag =>
            (0 <=? decode_value e mag) && (decode_value e mag <? 2 ^ 31)
            && (decode_value e mag mod 2 ^ 19 =? 0))
            (seqZ 0 16)) (seqZ 0 256) = true) as Hall by (by vm_compute).
  rewrite forallb_forall in Hall.
  specialize (Hall e). rewrite forallb_forall in Hall.
  assert (In e (seqZ 0 256)) as Hin by (apply list_elem_of_In, elem_of_seqZ; lia).
  assert (In mag (seqZ 0 16)) as Hin' by (apply list_elem_of_In, elem_of_seqZ; lia).
  specialize (Hall Hin mag Hin').
  apply andb_true_iff in Hall as [Hall H3].
  apply andb_true_iff in Hall as [H1 H2].
  apply Z.leb_le in H1. apply Z.ltb_lt in H2. apply Z.eqb_eq in H3. done.
Qed.

(** X4. Every word the decoder writes has its sign bit and its 19 low
    bits clear: the decoded values are never negative and carry at most
    four mantissa bits. *)
Theorem decoded_words_are_nonnegative (m : mem) (mxfp4_tile fp32_tile : ptr)
    (tile_size : Z) :
  0 <= tile_size < 2 ^ 32 ->
  readable m mxfp4_tile (5 * (tile_size / 32)) ->
  readable m fp32_tile (32 * (tile_size / 32)) ->
  separate mxfp4_tile (5 * (tile_size / 32)) fp32_tile (32 * (tile_size / 32)) ->
  exists m', convert_mxfp4_to_fp32_tile mxfp4_tile fp32_tile tile_size m = Some m' /\
    forall k, 0 <= k < 32 * (tile_size / 32) ->
      exists d, load m' fp32_tile k = Some d /\
        0 <= d < 2 ^ 31 /\ d mod 2 ^ 19 = 0.
Proof.
  intros Hn Hsrc Hdst Hsep.
  destruct (convert_mxfp4_to_fp32_tile_spec m mxfp4_tile fp32_tile tile_size)
    as (m' & Hm' & Hval & _); [done .. |].
  exists m'. split; [done |]. intros k Hk.
  pose proof (Z.div_mod k 32 ltac:(lia)) as Hdm.
  pose proof (Z.mod_pos_bound k 32 ltac:(lia)) as Hr.
  assert (0 <= k / 32 < tile_size / 32) as Hq.
  { split; [apply Z.div_pos; lia | apply Z.div_lt_upper_bound; lia]. }
  eexists. split.
  - replace k with (32 * (k / 32) + k mod 32) at 1 by lia. by apply Hval.
  - apply decode_value_form; [apply shared_exp_of_range | apply nibble_range].
Qed.

Lemma decoded_words_are_nonnegative_witness :
  let m := [[4278190080; 4294967295; 4294967295; 4294967295; 4294967295];
            replicate 32 4294967295] in
  exists m', convert_mxfp4_to_fp32_tile (Ptr 0 0) (Ptr 1 0) 32 m = Some m' /\
    forall k, 0 <= k < 32 * (32 / 32) ->
      exists d, load m' (Ptr 1 0) k = Some d /\
        0 <= d < 2 ^ 31 /\ d mod 2 ^ 19 = 0.
Proof.
  intros m. apply decoded_words_are_nonnegative.
  - by vm_compute.
  - by apply (readable_block m _
                [4278190080; 4294967295; 4294967295; 4294967295; 4294967295]).
  - by apply (block_const_readable m _ 32 4294967295).
  - by apply separate_blocks.
Defined.

(** ** The shared exponent *)

Lemma max_exp_step_ge (v acc : Z) : acc <= max_exp_step v acc.
Proof.
  unfold max_exp_step. destruct (v =? 0); [lia |].
  destruct (Z.gtb_spec (exp_field v) acc); lia.
Qed.

Lemma max_exp_upto_upper (f : Z -> Z) (n : nat) (j : Z) :
  0 <= j < Z.of_nat n -> f j <> 0 -> exp_field (f j) <= max_exp_upto f n.
Proof.
  induction n as [| n IH]; intros Hj Hnz; [lia |].
  rewrite max_exp_upto_S.
  destruct (decide (j = Z.of_nat n)) as [-> | Hne].
  - unfold max_exp_step. destruct (Z.eqb_spec (f (Z.of_nat n)) 0); [done |].
    destruct (Z.gtb_spec (exp_field (f (Z.of_nat n))) (max_exp_upto f n)); lia.
  - etrans; [apply IH; (done || lia) | apply max_exp_step_ge].
Qed.

Lemma max_exp_upto_attained (f : Z -> Z) (n : nat) :
  max_exp_upto f n = 0 \/
  exists j, 0 <= j < Z.of_nat n /\ f j <> 0 /\ exp_field (f j) = max_exp_upto f n.
Proof.
  induction n as [| n IH]; [by left |].
  rewrite max_exp_upto_S. unfold max_exp_step.
  destruct (Z.eqb_spec (f (Z.of_nat n)) 0) as [Hz | Hnz].
  - destruct IH as [? | (j & Hj & Hfj & He)]; [by left |].
    right. exists j. split; [lia | done].
  - destruct (Z.gtb_spec (exp_field (f (Z.of_nat n))) (max_exp_upto f n)).
    + right. exists (Z.of_nat n). split; [lia | done].
    + destruct IH as [? | (j & Hj & Hfj & He)]; [by left |].
      right. exists j. split; [lia | done].
Qed.

Lemma shl32_exp (e : Z) : 0 <= e < 256 -> shl32 e 24 = e * 2 ^ 24.
Proof.
  intros He. unfold shl32. rewrite Z.shiftl_mul_pow2 by lia.
  apply wrap32_small. lia.
Qed.

(** X5. Between separate buffers the encoder stores, as the first word of
    each block, a byte [E] shifted to bits 24..31 with the 24 low bits
    zero; [E] is at least the exponent field of every nonzero value of
    the block, and is 0 or the exponent field of one of them; the decoder
    reads [E] back from that word. *)
Theorem shared_exponent_is_block_maximum (m : mem) (fp32_tile mxfp4_tile : ptr)
    (tile_size : Z) :
  0 <= tile_size < 2 ^ 32 ->
  readable m fp32_tile (32 * (tile_size / 32)) ->
  readable m mxfp4_tile (5 * (tile_size / 32)) ->
  separate fp32_tile (32 * (tile_size / 32)) mxfp4_tile (5 * (tile_size / 32)) ->
  exists m', convert_fp32_to_mxfp4_tile fp32_tile mxfp4_tile tile_size m = Some m' /\
    forall i, 0 <= i < tile_size / 32 ->
      exists E, load m' mxfp4_tile (5 * i) = Some (E * 2 ^ 24) /\
        0 <= E < 256 /\
        shared_exp_of (E * 2 ^ 24) = E /\
        (forall j, 0 <= j < 32 -> block_val m fp32_tile i j <> 0 ->
           exp_field (block_val m fp32_tile i j) <= E) /\
        (E = 0 \/
         exists j, 0 <= j < 32 /\ block_val m fp32_tile i j <> 0 /\
                   exp_field (block_val m fp32_tile i j) = E).
Proof.
  intros Hn Hsrc Hdst Hsep.
  destruct (convert_fp32_to_mxfp4_tile_spec m fp32_tile mxfp4_tile tile_size)
    as (m' & Hm' & Hexp & _); [done .. |].
  exists m'. split; [done |]. intros i Hi.
  pose proof (max_exp_upto_range (block_val m fp32_tile i) 32) as HE.
  exists (block_max_exp m fp32_tile i). unfold block_max_exp.
  split; [| split; [done | split; [| split]]].
  - rewrite Hexp by done. unfold block_max_exp. by rewrite shl32_exp.
  - rewrite <- shl32_exp by done. by apply shared_exp_of_shl32.
  - intros j Hj Hnz. apply max_exp_upto_upper; [lia | done].
  - destruct (max_exp_upto_attained (block_val m fp32_tile i) 32)
      as [? | (j & Hj & Hfj & He)]; [by left |].
    right. exists j. split; [lia | done].
Qed.

Lemma shared_exponent_is_block_maximum_witness :
  let m := [[1069547520; 0; 1082130432; 2147483648] ++ replicate 28 931135488;
            replicate 5 0] in
  exists m', convert_fp32_to_mxfp4_tile (Ptr 0 0) (Ptr 1 0) 32 m = Some m' /\
    forall i, 0 <= i < 32 / 32 ->
      exists E, load m' (Ptr 1 0) (5 * i) = Some (E * 2 ^ 24) /\
        0 <= E < 256 /\
        shared_exp_of (E * 2 ^ 24) = E /\
        (forall j, 0 <= j < 32 -> block_val m (Ptr 0 0) i j <> 0 ->
           exp_field (block_val m (Ptr 0 0) i j) <= E) /\
        (E = 0 \/
         exists j, 0 <= j < 32 /\ block_val m (Ptr 0 0) i j <> 0 /\
                   exp_field (block_val m (Ptr 0 0) i j) = E).
Proof.
  intros m. apply shared_exponent_is_block_maximum.
  - by vm_compute.
  - by apply (readable_block m _
         ([1069547520; 0; 1082130432; 2147483648] ++ replicate 28 931135488)).
  - by apply (block_const_readable m _ 5 0).
  - by apply separate_blocks.
Defined.

(** ** What the encoder writes, nibble by nibble *)

(** X6. Between separate buffers the encoder returns, and each nibble of
    the magnitude words is what it was ORed with the magnitude of its
    value (so the magnitude itself where the word was zero).  The source
    tile, the destination past the last whole block and every other block
    are as they were. *)
Theorem encoder_nibbles_and_frame (m : mem) (fp32_tile mxfp4_tile : ptr)
    (tile_size : Z) :
  0 <= tile_size < 2 ^ 32 ->
  readable m fp32_tile (32 * (tile_size / 32)) ->
  readable m mxfp4_tile (5 * (tile_size / 32)) ->
  separate fp32_tile (32 * (tile_size / 32)) mxfp4_tile (5 * (tile_size / 32)) ->
  exists m', convert_fp32_to_mxfp4_tile fp32_tile mxfp4_tile tile_size m = Some m' /\
    (forall i j, 0 <= i < tile_size / 32 -> 0 <= j < 32 ->
       nibble (word_at m' mxfp4_tile (5 * i + 1 + j / 8)) (j mod 8) =
         Z.lor (nibble (word_at m mxfp4_tile (5 * i + 1 + j / 8)) (j mod 8))
               (block_mag m fp32_tile i j)) /\
    (forall k, 0 <= k < 32 * (tile_size / 32) ->
       load m' fp32_tile k = load m fp32_tile k) /\
    (forall k, 5 * (tile_size / 32) <= k ->
       load m' mxfp4_tile k = load m mxfp4_tile k) /\
    (forall q k, p_blk q <> p_blk mxfp4_tile -> load m' q k = load m q k).
Proof.
  intros Hn Hsrc Hdst Hsep.
  destruct (convert_fp32_to_mxfp4_tile_spec m fp32_tile mxfp4_tile tile_size)
    as (m' & Hm' & _ & Hmag & Hfr); [done .. |].
  exists m'. split; [done |]. split; [| split; [| split]].
  - intros i j Hi Hj.
    assert (0 <= j / 8 < 4)
      by (split; [apply Z.div_pos | apply Z.div_lt_upper_bound]; lia).
    assert (0 <= j mod 8 < 8) by (apply Z.mod_pos_bound; lia).
    unfold word_at at 1. rewrite Hmag by done. simpl.
    rewrite nibble_lor. f_equal.
    rewrite nibble_pack_word by (lia || intros; apply quantize_range).
    rewrite <- Z.div_mod by lia.
    destruct (Z.ltb_spec j (Z.of_nat 32)); [done | lia].
  - intros k Hk. apply Hfr. intros b Hb. by apply Hsep.
  - intros k Hk. apply Hfr. intros b Hb. apply loc_same_ptr. lia.
  - intros q k Hq. apply Hfr. intros b Hb. unfold loc. by intros [= ? ?].
Qed.

Lemma encoder_nibbles_and_frame_witness :
  let m := [replicate 40 1069547520; [0; 305419896; 0; 4294967295; 1; 9; 9]] in
  exists m', convert_fp32_to_mxfp4_tile (Ptr 0 0) (Ptr 1 0) 40 m = Some m' /\
    (forall i j, 0 <= i < 40 / 32 -> 0 <= j < 32 ->
       nibble (word_at m' (Ptr 1 0) (5 * i + 1 + j / 8)) (j mod 8) =
         Z.lor (nibble (word_at m (Ptr 1 0) (5 * i + 1 + j / 8)) (j mod 8))
               (block_mag m (Ptr 0 0) i j)) /\
    (forall k, 0 <= k < 32 * (40 / 32) ->
       load m' (Ptr 0 0) k = load m (Ptr 0 0) k) /\
    (forall k, 5 * (40 / 32) <= k ->
       load m' (Ptr 1 0) k = load m (Ptr 1 0) k) /\
    (forall q k, p_blk q <> p_blk (Ptr 1 0) -> load m' q k = load m q k).
Proof.
  intros m. apply encoder_nibbles_and_frame.
  - by vm_compute.
  - by apply (block_const_readable m _ 40 1069547520).
  - by apply (readable_block m _ [0; 305419896; 0; 4294967295; 1; 9; 9]).
  - by apply separate_blocks.
Defined.

(** ** The encoder does not look at the sign *)

Lemma exp_field_sign (v : Z) : exp_field (v + 2 ^ 31) = exp_field v.
Proof.
  unfold exp_field. rewrite !Z.shiftr_div_pow2 by lia.
  change 255 with (Z.ones 8). rewrite !Z.land_ones by lia.
  change (2 ^ 31) with (256 * 2 ^ 23). rewrite Z.div_add by lia.
  change (2 ^ 8) with 256. rewrite <- (Z.mul_1_l 256) at 1.
  by rewrite Z.mod_add by lia.
Qed.

Lemma mantissa4_sign (v : Z) : mantissa4 (v + 2 ^ 31) = mantissa4 v.
Proof.
  unfold mantissa4. change 8388607 with (Z.ones 23).
  rewrite !Z.land_ones by lia.
  change (2 ^ 31) with (256 * 2 ^ 23). by rewrite Z.mod_add by lia.
Qed.

Lemma same_magnitude_fields (v v' : Z) :
  same_magnitude v v' ->
  (v = 0 <-> v' = 0) /\ exp_field v = exp_field v' /\ mantissa4 v = mantissa4 v'.
Proof.
  intros [-> | [[Hv ->] | [Hv ->]]].
  - done.
  - rewrite exp_field_sign, mantissa4_sign. split; [lia | done].
  - rewrite exp_field_sign, mantissa4_sign. split; [lia | done].
Qed.

Lemma same_magnitude_step (v v' acc : Z) :
  same_magnitude v v' -> max_exp_step v acc = max_exp_step v' acc.
Proof.
  intros H. destruct (same_magnitude_fields v v' H) as (Hz & He & _).
  unfold max_exp_step. rewrite He.
  destruct (Z.eqb_spec v 0), (Z.eqb_spec v' 0); (done || tauto).
Qed.

Lemma same_magnitude_quantize (v v' max_exp : Z) :
  same_magnitude v v' -> quantize max_exp v = quantize max_exp v'.
Proof.
  intros H. destruct (same_magnitude_fields v v' H) as (Hz & He & Hm).
  unfold quantize. rewrite He, Hm.
  destruct (Z.eqb_spec v 0), (Z.eqb_spec v' 0); (done || tauto).
Qed.

Lemma max_exp_upto_same_magnitude (f g : Z -> Z) (n : nat) :
  (forall j, 0 <= j < Z.of_nat n -> same_magnitude (f j) (g j)) ->
  max_exp_upto f n = max_exp_upto g n.
Proof.
  induction n as [| n IH]; intros H; [done |].
  rewrite !max_exp_upto_S, IH by (intros j Hj; apply H; lia).
  apply same_magnitude_step, H. lia.
Qed.

(** X7. The encoder does not look at bit 31: two source tiles whose values
    agree up to the sign of their nonzero values, encoded over equal
    destinations, give the same compact tile. *)
Theorem encoder_ignores_sign (m m2 : mem) (fp32_tile mxfp4_tile : ptr)
    (tile_size : Z) :
  0 <= tile_size < 2 ^ 32 ->
  readable m fp32_tile (32 * (tile_size / 32)) ->
  readable m2 fp32_tile (32 * (tile_size / 32)) ->
  readable m mxfp4_tile (5 * (tile_size / 32)) ->
  separate fp32_tile (32 * (tile_size / 32)) mxfp4_tile (5 * (tile_size / 32)) ->
  (forall k, 0 <= k < 32 * (tile_size / 32) ->
     same_magnitude (word_at m fp32_tile k) (word_at m2 fp32_tile k)) ->
  (forall k, 0 <= k < 5 * (tile_size / 32) ->
     load m2 mxfp4_tile k = load m mxfp4_tile k) ->
  exists m' m2',
    convert_fp32_to_mxfp4_tile fp32_tile mxfp4_tile tile_size m = Some m' /\
    convert_fp32_to_mxfp4_tile fp32_tile mxfp4_tile tile_size m2 = Some m2' /\
    forall k, 0 <= k < 5 * (tile_size / 32) ->
      load m2' mxfp4_tile k = load m' mxfp4_tile k.
Proof.
  intros Hn Hsrc Hsrc2 Hdst Hsep Hsame Hdst2.
  assert (readable m2 mxfp4_tile (5 * (tile_size / 32))) as Hdst'
    by (intros k Hk; rewrite Hdst2 by done; by apply Hdst).
  destruct (convert_fp32_to_mxfp4_tile_spec m fp32_tile mxfp4_tile tile_size)
    as (m' & Hm' & Hexp & Hmag & _); [done .. |].
  destruct (convert_fp32_to_mxfp4_tile_spec m2 fp32_tile mxfp4_tile tile_size)
    as (m2' & Hm2' & Hexp2 & Hmag2 & _); [done .. |].
  exists m', m2'. split; [done |]. split; [done |]. intros k Hk.
  pose proof (Z.div_mod k 5 ltac:(lia)) as Hdm.
  pose proof (Z.mod_pos_bound k 5 ltac:(lia)) as Hr.
  assert (0 <= k / 5 < tile_size / 32) as Hq.
  { split; [apply Z.div_pos; lia | apply Z.div_lt_upper_bound; lia]. }
  assert (block_max_exp m2 fp32_tile (k / 5) = block_max_exp m fp32_tile (k / 5))
    as Hmax.
  { unfold block_max_exp. symmetry. apply max_exp_upto_same_magnitude.
    intros j Hj. apply Hsame. lia. }
  destruct (decide (k mod 5 = 0)) as [Hz | Hnz].
  - replace k with (5 * (k / 5)) by lia.
    rewrite Hexp, Hexp2 by done. by rewrite Hmax.
  - replace k with (5 * (k / 5) + 1 + (k mod 5 - 1)) by lia.
    rewrite Hmag, Hmag2 by (done || lia).
    assert (word_at m2 mxfp4_tile (5 * (k / 5) + 1 + (k mod 5 - 1)) =
            word_at m mxfp4_tile (5 * (k / 5) + 1 + (k mod 5 - 1))) as ->
      by (unfold word_at; by rewrite Hdst2 by lia).
    rewrite (pack_word_ext (block_mag m2 fp32_tile (k / 5))
               (block_mag m fp32_tile (k / 5))); [done |].
    intros j Hj. unfold block_mag. rewrite Hmax.
    symmetry. apply same_magnitude_quantize, Hsame. lia.
Qed.

Lemma encoder_ignores_sign_witness :
  let m := [replicate 32 1069547520; replicate 5 0] in
  let m2 := [replicate 32 3217031168; replicate 5 0] in
  exists m' m2',
    convert_fp32_to_mxfp4_tile (Ptr 0 0) (Ptr 1 0) 32 m = Some m' /\
    convert_fp32_to_mxfp4_tile (Ptr 0 0) (Ptr 1 0) 32 m2 = Some m2' /\
    forall k, 0 <= k < 5 * (32 / 32) ->
      load m2' (Ptr 1 0) k = load m' (Ptr 1 0) k.
Proof.
  intros m m2. apply encoder_ignores_sign.
  - by vm_compute.
  - by apply (block_const_readable m _ 32 1069547520).
  - by apply (block_const_readable m2 _ 32 3217031168).
  - by apply (block_const_readable m _ 5 0).
  - by apply separate_blocks.
  - intros k Hk. change (32 * (32 / 32)) with 32 in Hk. unfold word_at.
    rewrite (block_const_load m _ 32 1069547520) by (done || lia).
    rewrite (block_const_load m2 _ 32 3217031168) by (done || lia).
    right; left. by vm_compute.
  - intros k Hk. change (5 * (32 / 32)) with 5 in Hk.
    rewrite (block_const_load m _ 5 0) by (done || lia).
    by rewrite (block_const_load m2 _ 5 0) by (done || lia).
Defined.

(** ** Round trips of any tile *)

Lemma quantize_below_max (e v : Z) :
  v <> 0 -> exp_field v <= e ->
  quantize e v =
    if e - exp_field v <? 16 then Z.shiftr (mantissa4 v) (e - exp_field v) else 0.
Proof.
  intros Hv He. unfold quantize.
  destruct (Z.eqb_spec v 0) as [? | _]; [done |].
  assert ((0 <=? e - exp_field v) = true) as -> by (apply Z.leb_le; lia).
  simpl. destruct (Z.ltb_spec (e - exp_field v) 16); [| done].
  unfold wrap8. apply Z.mod_small.
  pose proof (shiftr_range (mantissa4 v) (e - exp_field v) 16 ltac:(lia)
                (mantissa4_range v)).
  lia.
Qed.

Lemma decode_value_zero_iff (e mag : Z) :
  0 <= e < 256 -> 0 <= mag < 16 -> (decode_value e mag = 0 <-> mag = 0).
Proof.
  intros He Hmag. split; [| by intros ->].
  intros Hz. destruct (decide (mag = 0)) as [? | Hnz]; [done |].
  pose proof (proj2 (decode_value_fields e mag He ltac:(lia))) as Hm.
  rewrite Hz in Hm. by vm_compute in Hm.
Qed.

(** X8. Encoding any tile into a zeroed compact buffer and decoding the
    result into a third buffer: a value 0, or one whose exponent field is
    16 or more below the maximum [E] of its block, comes back as 0; any
    other value comes back with its top four mantissa bits shifted right
    by the exponent difference and, unless these are zero and the word is
    0, with the exponent field [E] of the block, not its own. *)
Theorem roundtrip_of_any_tile (m : mem) (src enc dec : ptr) (n : Z) :
  0 <= n < 2 ^ 32 ->
  readable m src (32 * (n / 32)) ->
  readable m dec (32 * (n / 32)) ->
  zeroed m enc (5 * (n / 32)) ->
  separate src (32 * (n / 32)) enc (5 * (n / 32)) ->
  separate enc (5 * (n / 32)) dec (32 * (n / 32)) ->
  exists m1 m2,
    convert_fp32_to_mxfp4_tile src enc n m = Some m1 /\
    convert_mxfp4_to_fp32_tile enc dec n m1 = Some m2 /\
    forall i j, 0 <= i < n / 32 -> 0 <= j < 32 ->
      exists d, load m2 dec (32 * i + j) = Some d /\
        (block_val m src i j = 0 -> d = 0) /\
        (block_val m src i j <> 0 ->
           exp_field (block_val m src i j) <= block_max_exp m src i /\
           (16 <= block_max_exp m src i - exp_field (block_val m src i j) ->
              d = 0) /\
           (block_max_exp m src i - exp_field (block_val m src i j) < 16 ->
              mantissa4 d =
                Z.shiftr (mantissa4 (block_val m src i j))
                  (block_max_exp m src i - exp_field (block_val m src i j)))) /\
        (d <> 0 -> exp_field d = block_max_exp m src i).
Proof.
  intros Hn Hsrc Hdec Hzero Hsep1 Hsep2.
  destruct (encode_then_decode m src enc dec n)
    as (m1 & m2 & Hm1 & Hm2 & Hval); [done .. |].
  exists m1, m2. split; [done |]. split; [done |].
  intros i j Hi Hj. eexists. split; [by apply Hval |].
  pose proof (max_exp_upto_range (block_val m src i) 32) as HE.
  fold (block_max_exp m src i) in HE.
  pose proof (quantize_range (block_max_exp m src i) (block_val m src i j)) as HM.
  fold (block_mag m src i j) in HM.
  split; [| split].
  - intros Hz. unfold block_mag. by rewrite Hz.
  - intros Hnz.
    assert (exp_field (block_val m src i j) <= block_max_exp m src i) as Hle
      by (apply max_exp_upto_upper; [lia | done]).
    split; [done |]. unfold block_mag.
    rewrite quantize_below_max by done.
    split.
    + intros Hfar.
      destruct (Z.ltb_spec (block_max_exp m src i -
                            exp_field (block_val m src i j)) 16); [lia | done].
    + intros Hnear.
      destruct (Z.ltb_spec (block_max_exp m src i -
                            exp_field (block_val m src i j)) 16) as [_ | ?];
        [| lia].
      set (q := Z.shiftr _ _).
      pose proof (shiftr_range (mantissa4 (block_val m src i j))
                    (block_max_exp m src i - exp_field (block_val m src i j))
                    16 ltac:(lia) (mantissa4_range _)) as Hq.
      fold q in Hq.
      destruct (decide (q = 0)) as [-> | Hq0]; [done |].
      apply (proj2 (decode_value_fields (block_max_exp m src i) q HE
                      ltac:(lia))).
  - intros Hd.
    assert (block_mag m src i j <> 0) as Hmag0
      by (intros Hz; apply Hd; by rewrite Hz).
    apply (proj1 (decode_value_fields (block_max_exp m src i)
                    (block_mag m src i j) HE ltac:(lia))).
Qed.

Lemma roundtrip_of_any_tile_witness :
  let m := [[1069547520; 1061158912; 0; 931135488] ++ replicate 28 1065353216;
            replicate 5 0; replicate 32 7] in
  exists m1 m2,
    convert_fp32_to_mxfp4_tile (Ptr 0 0) (Ptr 1 0) 32 m = Some m1 /\
    convert_mxfp4_to_fp32_tile (Ptr 1 0) (Ptr 2 0) 32 m1 = Some m2 /\
    forall i j, 0 <= i < 32 / 32 -> 0 <= j < 32 ->
      exists d, load m2 (Ptr 2 0) (32 * i + j) = Some d /\
        (block_val m (Ptr 0 0) i j = 0 -> d = 0) /\
        (block_val m (Ptr 0 0) i j <> 0 ->
           exp_field (block_val m (Ptr 0 0) i j) <= block_max_exp m (Ptr 0 0) i /\
           (16 <= block_max_exp m (Ptr 0 0) i
                  - exp_field (block_val m (Ptr 0 0) i j) ->
              d = 0) /\
           (block_max_exp m (Ptr 0 0) i
              - exp_field (block_val m (Ptr 0 0) i j) < 16 ->
              mantissa4 d =
                Z.shiftr (mantissa4 (block_val m (Ptr 0 0) i j))
                  (block_max_exp m (Ptr 0 0) i
                     - exp_field (block_val m (Ptr 0 0) i j)))) /\
        (d <> 0 -> exp_field d = block_max_exp m (Ptr 0 0) i).
Proof.
  intros m. apply roundtrip_of_any_tile.
  - by vm_compute.
  - by apply (readable_block m _
         ([1069547520; 1061158912; 0; 931135488] ++ replicate 28 1065353216)).
  - by apply (block_const_readable m _ 32 7).
  - by apply (block_const_zeroed m _ 5).
  - by apply separate_blocks.
  - by apply separate_blocks.
Defined.

(** The value 1.5 * 2^-1 beside values of exponent 127: it comes back as
    1.25 * 2^0, larger than it went in. *)
Lemma roundtrip_scale_example :
  (m ← convert_fp32_to_mxfp4_tile (Ptr 0 0) (Ptr 1 0) 32
         [[1069547520; 1061158912] ++ replicate 30 0;
          replicate 5 0; replicate 32 0];
   m ← convert_mxfp4_to_fp32_tile (Ptr 1 0) (Ptr 2 0) 32 m;
   read_words m (Ptr 2 0) 2) = Some [1069547520; 1067450368].
Proof. vm_compute. reflexivity. Qed.

(** ** Encoding twice *)

Lemma block_max_exp_ext (m m' : mem) (p : ptr) (i : Z) :
  (forall j, 0 <= j < 32 -> load m' p (32 * i + j) = load m p (32 * i + j)) ->
  block_max_exp m' p i = block_max_exp m p i.
Proof.
  intros H. unfold block_max_exp. apply max_exp_upto_ext. intros j Hj.
  unfold block_val, word_at. rewrite H; [done | lia].
Qed.

Lemma block_mag_ext (m m' : mem) (p : ptr) (i j : Z) :
  (forall j, 0 <= j < 32 -> load m' p (32 * i + j) = load m p (32 * i + j)) ->
  0 <= j < 32 ->
  block_mag m' p i j = block_mag m p i j.
Proof.
  intros H Hj. unfold block_mag. rewrite (block_max_exp_ext m m') by done.
  unfold block_val, word_at. by rewrite H.
Qed.

(** X9. Between separate buffers, running the encoder a second time on
    the same source and destination changes no word of memory: the
    exponent words are assigned the same bytes and the magnitude words
    are ORed with nibbles they already hold. *)
Theorem encoder_twice_is_once (m : mem) (fp32_tile mxfp4_tile : ptr)
    (tile_size : Z) :
  0 <= tile_size < 2 ^ 32 ->
  readable m fp32_tile (32 * (tile_size / 32)) ->
  readable m mxfp4_tile (5 * (tile_size / 32)) ->
  separate fp32_tile (32 * (tile_size / 32)) mxfp4_tile (5 * (tile_size / 32)) ->
  exists m1 m2,
    convert_fp32_to_mxfp4_tile fp32_tile mxfp4_tile tile_size m = Some m1 /\
    convert_fp32_to_mxfp4_tile fp32_tile mxfp4_tile tile_size m1 = Some m2 /\
    forall q k, load m2 q k = load m1 q k.
Proof.
  intros Hn Hsrc Hdst Hsep.
  destruct (convert_fp32_to_mxfp4_tile_spec m fp32_tile mxfp4_tile tile_size)
    as (m1 & Hm1 & Hexp & Hmag & Hfr); [done .. |].
  assert (forall k, 0 <= k < 32 * (tile_size / 32) ->
            load m1 fp32_tile k = load m fp32_tile k) as Hsrc1.
  { intros k Hk. apply Hfr. intros b Hb. by apply Hsep. }
  assert (forall k, 0 <= k < 5 * (tile_size / 32) ->
            exists i, 0 <= i < tile_size / 32 /\
              (k = 5 * i \/ exists w, 0 <= w < 4 /\ k = 5 * i + 1 + w)) as Hsplit.
  { intros k Hk.
    pose proof (Z.div_mod k 5 ltac:(lia)) as Hdm.
    pose proof (Z.mod_pos_bound k 5 ltac:(lia)) as Hr.
    exists (k / 5). split.
    { split; [apply Z.div_pos; lia | apply Z.div_lt_upper_bound; lia]. }
    destruct (decide (k mod 5 = 0)); [left; lia |].
    right. exists (k mod 5 - 1). lia. }
  destruct (convert_fp32_to_mxfp4_tile_spec m1 fp32_tile mxfp4_tile tile_size)
    as (m2 & Hm2 & Hexp2 & Hmag2 & Hfr2); [done | | | done |].
  { intros k Hk. rewrite Hsrc1 by done. by apply Hsrc. }
  { intros k Hk. destruct (Hsplit k Hk) as (i & Hi & [-> | (w & Hw & ->)]).
    - rewrite Hexp by done. eauto.
    - rewrite Hmag by done. eauto. }
  exists m1, m2. split; [done |]. split; [done |]. intros q k.
  set (b := p_off q + k - p_off mxfp4_tile).
  destruct (decide (p_blk q = p_blk mxfp4_tile /\
                    0 <= b < 5 * (tile_size / 32))) as [[Hblk Hb] | Hout].
  - assert (loc q k = loc mxfp4_tile b) as Hloc
      by (unfold loc, b; f_equal; [done | lia]).
    rewrite (load_loc m2 q mxfp4_tile k b Hloc),
            (load_loc m1 q mxfp4_tile k b Hloc).
    destruct (Hsplit b Hb) as (i & Hi & [-> | (w & Hw & ->)]).
    + rewrite Hexp2, Hexp by done. f_equal. f_equal.
      apply block_max_exp_ext. intros j Hj. apply Hsrc1. lia.
    + rewrite Hmag2 by done. unfold word_at at 1. rewrite Hmag by done.
      rewrite (pack_word_ext (block_mag m1 fp32_tile i) (block_mag m fp32_tile i)).
      * simpl. by rewrite <- Z.lor_assoc, Z.lor_diag.
      * intros j Hj. apply block_mag_ext; [| lia].
        intros j' Hj'. apply Hsrc1. lia.
  - apply Hfr2. intros b' Hb' Heq. apply Hout.
    unfold loc in Heq. injection Heq as Hblk Hoff.
    split; [done |]. unfold b. lia.
Qed.

Lemma encoder_twice_is_once_witness :
  let m := [replicate 32 1069547520; [7; 1; 2; 3; 4]] in
  exists m1 m2,
    convert_fp32_to_mxfp4_tile (Ptr 0 0) (Ptr 1 0) 32 m = Some m1 /\
    convert_fp32_to_mxfp4_tile (Ptr 0 0) (Ptr 1 0) 32 m1 = Some m2 /\
    forall q k, load m2 q k = load m1 q k.
Proof.
  intros m. apply encoder_twice_is_once.
  - by vm_compute.
  - by apply (block_const_readable m _ 32 1069547520).
  - by apply (readable_block m _ [7; 1; 2; 3; 4]).
  - by apply separate_blocks.
Defined.

(** ** Decode, then encode *)

(** X10. Decoding a compact tile and encoding the result into a zeroed
    buffer gives back every magnitude nibble; the exponent word of a
    block comes back with the shared exponent in its high byte when the
    block has a nonzero nibble, and as 0 when all its nibbles are 0. *)
Theorem decode_then_encode (m : mem) (comp full comp2 : ptr) (n : Z) :
  0 <= n < 2 ^ 32 ->
  readable m comp (5 * (n / 32)) ->
  readable m full (32 * (n / 32)) ->
  zeroed m comp2 (5 * (n / 32)) ->
  separate comp (5 * (n / 32)) full (32 * (n / 32)) ->
  separate full (32 * (n / 32)) comp2 (5 * (n / 32)) ->
  exists m1 m2,
    convert_mxfp4_to_fp32_tile comp full n m = Some m1 /\
    convert_fp32_to_mxfp4_tile full comp2 n m1 = Some m2 /\
    forall i, 0 <= i < n / 32 ->
      (forall j, 0 <= j < 32 ->
         nibble (word_at m2 comp2 (5 * i + 1 + j / 8)) (j mod 8) =
           nibble (word_at m comp (5 * i + 1 + j / 8)) (j mod 8)) /\
      ((exists j, 0 <= j < 32 /\
          nibble (word_at m comp (5 * i + 1 + j / 8)) (j mod 8) <> 0) ->
         load m2 comp2 (5 * i) =
           Some (shared_exp_of (word_at m comp (5 * i)) * 2 ^ 24)) /\
      ((forall j, 0 <= j < 32 ->
          nibble (word_at m comp (5 * i + 1 + j / 8)) (j mod 8) = 0) ->
         load m2 comp2 (5 * i) = Some 0).
Proof.
  intros Hn Hcomp Hfull Hzero Hsep1 Hsep2.
  destruct (convert_mxfp4_to_fp32_tile_spec m comp full n)
    as (m1 & Hm1 & Hval & Hfr); [done .. |].
  assert (forall k, 0 <= k < 5 * (n / 32) -> load m1 comp2 k = Some 0) as Hzero1.
  { intros k Hk. rewrite Hfr; [by apply Hzero |].
    intros b Hb Heq. by apply (Hsep2 b k). }
  assert (0 <= n / 32) as HG by (apply Z.div_pos; lia).
  destruct (convert_fp32_to_mxfp4_tile_spec m1 full comp2 n)
    as (m2 & Hm2 & Hexp & Hmag & _); [done | | | done |].
  { intros k Hk.
    pose proof (Z.div_mod k 32 ltac:(lia)) as Hdm.
    pose proof (Z.mod_pos_bound k 32 ltac:(lia)) as Hr.
    assert (0 <= k / 32 < n / 32)
      by (split; [apply Z.div_pos; lia | apply Z.div_lt_upper_bound; lia]).
    replace k with (32 * (k / 32) + k mod 32) by lia.
    rewrite Hval by done. eauto. }
  { intros k Hk. rewrite Hzero1 by done. eauto. }
  exists m1, m2. split; [done |]. split; [done |]. intros i Hi.
  set (S := shared_exp_of (word_at m comp (5 * i))).
  set (N := fun j => nibble (word_at m comp (5 * i + 1 + j / 8)) (j mod 8)).
  assert (0 <= S < 256) as HS by apply shared_exp_of_range.
  assert (forall j, 0 <= N j < 16) as HN by (intros j; apply nibble_range).
  assert (forall j, 0 <= j < 32 -> block_val m1 full i j = decode_value S (N j))
    as Hbv.
  { intros j Hj. unfold block_val, word_at. by rewrite Hval by done. }
  assert (forall j, 0 <= j < 32 -> block_val m1 full i j <> 0 ->
            exp_field (block_val m1 full i j) = S) as Huni.
  { intros j Hj Hnz. rewrite Hbv in * by done.
    apply (proj1 (decode_value_fields S (N j) HS ltac:(
      pose proof (HN j);
      assert (N j <> 0) by (intros Hz; apply Hnz; by rewrite Hz); lia))). }
  destruct (max_exp_upto_uniform (block_val m1 full i) S 32 ltac:(lia))
    as [Hmax0 Hmax].
  { intros j Hj. apply Huni. lia. }
  fold (block_max_exp m1 full i) in Hmax0, Hmax.
  assert (forall j, 0 <= j < 32 -> block_mag m1 full i j = N j) as Hmg.
  { intros j Hj. unfold block_mag.
    destruct (decide (N j = 0)) as [Hz | Hnz].
    - rewrite Hbv, Hz by done. done.
    - assert (block_val m1 full i j <> 0) as Hv.
      { rewrite Hbv by done. intros Hd.
        apply decode_value_zero_iff in Hd; (done || apply HN). }
      rewrite (Hmax j) by (done || lia).
      rewrite <- (Huni j Hj Hv) at 1. rewrite quantize_same_exp, Hbv by done.
      apply (proj2 (decode_value_fields S (N j) HS ltac:(
        pose proof (HN j); lia))). }
  split; [| split].
  - intros j Hj.
    assert (0 <= j / 8 < 4)
      by (split; [apply Z.div_pos | apply Z.div_lt_upper_bound]; lia).
    unfold word_at at 1. rewrite Hmag by done. simpl.
    unfold word_at at 1. rewrite Hzero1 by lia. simpl.
    rewrite nibble_of_packed; [by apply Hmg | | done].
    intros j'. apply quantize_range.
  - intros (j & Hj & Hnz). rewrite Hexp by done.
    assert (block_val m1 full i j <> 0) as Hv.
    { rewrite Hbv by done. intros Hd.
      apply decode_value_zero_iff in Hd; (done || apply HN). }
    rewrite (Hmax j) by (done || lia). by rewrite shl32_exp.
  - intros Hall. rewrite Hexp by done.
    assert (block_max_exp m1 full i = 0) as ->; [| done].
    unfold block_max_exp. apply max_exp_upto_zeros. intros j Hj.
    rewrite Hbv by lia. unfold N. by rewrite Hall by lia.
Qed.

Lemma decode_then_encode_witness :
  let m := [[2130706432; 305419896; 0; 2271560481; 4294967295];
            replicate 32 9; replicate 5 0] in
  exists m1 m2,
    convert_mxfp4_to_fp32_tile (Ptr 0 0) (Ptr 1 0) 32 m = Some m1 /\
    convert_fp32_to_mxfp4_tile (Ptr 1 0) (Ptr 2 0) 32 m1 = Some m2 /\
    forall i, 0 <= i < 32 / 32 ->
      (forall j, 0 <= j < 32 ->
         nibble (word_at m2 (Ptr 2 0) (5 * i + 1 + j / 8)) (j mod 8) =
           nibble (word_at m (Ptr 0 0) (5 * i + 1 + j / 8)) (j mod 8)) /\
      ((exists j, 0 <= j < 32 /\
          nibble (word_at m (Ptr 0 0) (5 * i + 1 + j / 8)) (j mod 8) <> 0) ->
         load m2 (Ptr 2 0) (5 * i) =
           Some (shared_exp_of (word_at m (Ptr 0 0) (5 * i)) * 2 ^ 24)) /\
      ((forall j, 0 <= j < 32 ->
          nibble (word_at m (Ptr 0 0) (5 * i + 1 + j / 8)) (j mod 8) = 0) ->
         load m2 (Ptr 2 0) (5 * i) = Some 0).
Proof.
  intros m. apply decode_then_encode.
  - by vm_compute.
  - by apply (readable_block m _
                [2130706432; 305419896; 0; 2271560481; 4294967295]).
  - by apply (block_const_readable m _ 32 9).
  - by apply (block_const_zeroed m _ 5).
  - by apply separate_blocks.
  - by apply separate_blocks.
Defined.

(** ** The codec writes into its destination only *)

Lemma unpack_block_frame (mi m' : mem) (src dst : ptr) (i shared_exp : Z)
    (q : ptr) (k : Z) :
  unpack_block src dst i shared_exp mi = Some m' ->
  0 <= i < 2 ^ 27 ->
  (forall j, 0 <= j < 32 -> loc q k <> loc dst (32 * i + j)) ->
  load m' q k = load mi q k.
Proof.
  intros Hrun Hi Hout. unfold unpack_block in Hrun.
  change (Z.to_nat MXFP4_BLOCK_SIZE) with 32%nat in Hrun.
  apply (for_loopM_inv_partial (fun _ mj => load mj q k = load mi q k)
           _ _ _ _ _ Hrun); [done |].
  intros j mj m1 Hj Hmj Hbody. cbv zeta in Hbody.
  rewrite idx_val, idx_mag in Hbody by lia.
  destruct (load mj src (5 * i + 1 + j / 8)) as [w |]; [| done].
  simpl in Hbody. rewrite <- Hmj.
  apply (load_store_ne _ _ _ _ _ _ _ Hbody). apply Hout. lia.
Qed.

Lemma pack_block_frame (mi m' : mem) (src dst : ptr) (i max_exp : Z)
    (q : ptr) (k : Z) :
  pack_block src dst i max_exp mi = Some m' ->
  0 <= i < 2 ^ 27 ->
  (forall w, 0 <= w < 4 -> loc q k <> loc dst (5 * i + 1 + w)) ->
  load m' q k = load mi q k.
Proof.
  intros Hrun Hi Hout. unfold pack_block in Hrun.
  change (Z.to_nat MXFP4_BLOCK_SIZE) with 32%nat in Hrun.
  apply (for_loopM_inv_partial (fun _ mj => load mj q k = load mi q k)
           _ _ _ _ _ Hrun); [done |].
  intros j mj m1 Hj Hmj Hbody. cbv zeta in Hbody.
  rewrite idx_val, idx_mag in Hbody by lia.
  destruct (load mj src (32 * i + j)) as [v |]; [| done].
  simpl in Hbody.
  destruct (load mj dst (5 * i + 1 + j / 8)) as [w |]; [| done].
  simpl in Hbody. rewrite <- Hmj.
  apply (load_store_ne _ _ _ _ _ _ _ Hbody). apply Hout.
  split; [apply Z.div_pos | apply Z.div_lt_upper_bound]; lia.
Qed.

(** X11. Whenever the decoder returns, every word outside the
    [32 * (tile_size / 32)] words of its destination holds what it held
    before; nothing is assumed of the two tiles, which may overlap or be
    the same. *)
Theorem decoder_writes_destination_only (m m' : mem)
    (mxfp4_tile fp32_tile : ptr) (tile_size : Z) (q : ptr) (k : Z) :
  convert_mxfp4_to_fp32_tile mxfp4_tile fp32_tile tile_size m = Some m' ->
  0 <= tile_size < 2 ^ 32 ->
  (forall b, 0 <= b < 32 * (tile_size / 32) -> loc q k <> loc fp32_tile b) ->
  load m' q k = load m q k.
Proof.
  intros Hrun Hn Hout. unfold convert_mxfp4_to_fp32_tile in Hrun.
  change MXFP4_BLOCK_SIZE with 32 in Hrun at 1.
  assert (0 <= tile_size / 32) as HG by (apply Z.div_pos; lia).
  apply (for_loopM_inv_partial (fun _ mi => load mi q k = load m q k)
           _ _ _ _ _ Hrun); [done |].
  intros i mi m1 Hi Hmi Hbody. rewrite Z2Nat.id in Hi by done.
  assert (0 <= i < 2 ^ 27) as Hi27.
  { apply (blocks_bound tile_size); [done |]. unfold MXFP4_BLOCK_SIZE. lia. }
  destruct (load mi mxfp4_tile (mul32 i 5)) as [w0 |]; [| done].
  simpl in Hbody. rewrite <- Hmi.
  apply (unpack_block_frame _ _ _ _ _ _ _ _ Hbody Hi27).
  intros j Hj. apply Hout. lia.
Qed.

Lemma decoder_writes_destination_only_witness :
  let m := [[2130706432; 305419896; 0; 0; 0] ++ replicate 28 7; [5; 6]] in
  exists m',
    convert_mxfp4_to_fp32_tile (Ptr 0 0) (Ptr 0 0) 32 m = Some m' /\
    load m' (Ptr 1 0) 1 = load m (Ptr 1 0) 1.
Proof.
  intros m.
  destruct (convert_mxfp4_to_fp32_tile (Ptr 0 0) (Ptr 0 0) 32 m) as [m' |] eqn:E;
    [| by vm_compute in E].
  exists m'. split; [done |].
  apply (decoder_writes_destination_only m m' (Ptr 0 0) (Ptr 0 0) 32 _ _ E).
  - by vm_compute.
  - intros b Hb. unfold loc. simpl. congruence.
Defined.

(** X12. Whenever the encoder returns, every word outside the
    [5 * (tile_size / 32)] words of its destination holds what it held
    before; nothing is assumed of the two tiles, which may overlap or be
    the same. *)
Theorem encoder_writes_destination_only (m m' : mem)
    (fp32_tile mxfp4_tile : ptr) (tile_size : Z) (q : ptr) (k : Z) :
  convert_fp32_to_mxfp4_tile fp32_tile mxfp4_tile tile_size m = Some m' ->
  0 <= tile_size < 2 ^ 32 ->
  (forall b, 0 <= b < 5 * (tile_size / 32) -> loc q k <> loc mxfp4_tile b) ->
  load m' q k = load m q k.
Proof.
  intros Hrun Hn Hout. unfold convert_fp32_to_mxfp4_tile in Hrun.
  change MXFP4_BLOCK_SIZE with 32 in Hrun at 1.
  assert (0 <= tile_size / 32) as HG by (apply Z.div_pos; lia).
  apply (for_loopM_inv_partial (fun _ mi => load mi q k = load m q k)
           _ _ _ _ _ Hrun); [done |].
  intros i mi m1 Hi Hmi Hbody. rewrite Z2Nat.id in Hi by done.
  assert (0 <= i < 2 ^ 27) as Hi27.
  { apply (blocks_bound tile_size); [done |]. unfold MXFP4_BLOCK_SIZE. lia. }
  destruct (find_max_exp fp32_tile i mi) as [e |]; [| done].
  simpl in Hbody. rewrite idx_exp in Hbody by done.
  destruct (store mi mxfp4_tile (5 * i) (shl32 e 24)) as [ms |] eqn:Hst;
    [| done].
  simpl in Hbody. rewrite <- Hmi.
  rewrite (pack_block_frame _ _ _ _ _ _ _ _ Hbody Hi27).
  - apply (load_store_ne _ _ _ _ _ _ _ Hst). apply Hout. lia.
  - intros w Hw. apply Hout. lia.
Qed.

Lemma encoder_writes_destination_only_witness :
  let m := [replicate 32 1069547520; [7; 1; 2; 3; 4; 9]] in
  exists m',
    convert_fp32_to_mxfp4_tile (Ptr 0 0) (Ptr 1 0) 32 m = Some m' /\
    load m' (Ptr 1 0) 5 = load m (Ptr 1 0) 5.
Proof.
  intros m.
  destruct (convert_fp32_to_mxfp4_tile (Ptr 0 0) (Ptr 1 0) 32 m) as [m' |] eqn:E;
    [| by vm_compute in E].
  exists m'. split; [done |].
  apply (encoder_writes_destination_only m m' (Ptr 0 0) (Ptr 1 0) 32 _ _ E).
  - by vm_compute.
  - intros b Hb. unfold loc. simpl. intros [= Heq].
    change (5 * (32 / 32)) with 5 in Hb. lia.
Defined.

(** ** The order of the reader's calls *)

Lemma run_app {St : Type} (step : St -> event -> option St) (s : St)
    (tr1 tr2 : list event) :
  run step s (tr1 ++ tr2) = run step s tr1 ≫= fun s' => run step s' tr2.
Proof.
  revert s. induction tr1 as [| e tr1 IH]; intros s; [done |].
  simpl. destruct (step s e) as [s' |]; [apply IH | done].
Qed.

Lemma run_snoc {St : Type} (step : St -> event -> option St) (s s1 : St)
    (tr tr' : list event) :
  run step s tr = Some s1 ->
  run step s (tr ++ tr') = run step s1 tr'.
Proof. intros H. by rewrite run_app, H. Qed.

(** A pair of nested loops over tiles keeps what the tile body keeps. *)
Lemma tiles_loop_inv {R : Type} (Inv : R -> Prop) (tile_fn : Z -> R -> R)
    (stride_w stride_h : Z) (block_w block_h : nat) (start : Z) (st : R) :
  (forall id st, Inv st -> Inv (tile_fn id st)) ->
  Inv st ->
  Inv (snd
    (for_loop block_h 0 (fun h '(row_start_tile_id, st) =>
       (add32 row_start_tile_id stride_h,
        snd (for_loop block_w 0 (fun w '(tile_id, st) =>
          (add32 tile_id stride_w, tile_fn tile_id st))
          (row_start_tile_id, st))))
       (start, st))).
Proof.
  intros Htile H0.
  apply (for_loop_inv (fun s => Inv (snd s))); [done |].
  intros h [row st1] H1. simpl.
  apply (for_loop_inv (fun s => Inv (snd s))); [done |].
  intros w [id st2] H2. simpl. by apply Htile.
Qed.

Lemma read_tile_phase (s : TensorAccessor) (is_mxfp4 size tile_id n0 n1 : Z)
    (st : Z * list event) :
  (exists x, run reader_step R_idle (snd st) = Some (R_filling n0 n1 x)) ->
  exists x,
    run reader_step R_idle (snd (Reader.read_tile s is_mxfp4 size tile_id st)) =
      Some (R_filling n0 n1 x).
Proof.
  destruct st as [l1 tr]. intros [x Hx]. simpl in Hx.
  unfold Reader.read_tile. destruct (is_mxfp4 =? 0); simpl.
  - exists (Some l1). rewrite (run_snoc _ _ _ _ _ Hx). by destruct x.
  - exists None. rewrite <- app_assoc, (run_snoc _ _ _ _ _ Hx).
    destruct x; simpl; by rewrite decide_True.
Qed.

Lemma read_block_phase (s : TensorAccessor)
    (is_mxfp4 size block_w block_h stride_w stride_h start n0 n1 : Z)
    (st : Z * list event) :
  (exists x, run reader_step R_idle (snd st) = Some (R_filling n0 n1 x)) ->
  exists x,
    run reader_step R_idle
      (snd (Reader.read_block s is_mxfp4 size block_w block_h
              stride_w stride_h start st)) = Some (R_filling n0 n1 x).
Proof.
  intros H. unfold Reader.read_block.
  apply (tiles_loop_inv
    (fun st => exists x, run reader_step R_idle (snd st) = Some (R_filling n0 n1 x)));
    [| done].
  intros id st'. apply read_tile_phase.
Qed.

Lemma reader_block_body_phase (a : Reader.args) (pf : platform)
    (cur : Z * Z) (tr : list event) :
  run reader_step R_idle tr = Some R_idle ->
  run reader_step R_idle (Reader.block_body a pf cur tr) = Some R_idle.
Proof.
  intros H. destruct cur as [c0 c1]. unfold Reader.block_body.
  set (tr2 := (tr ++ [E_cb_reserve_back Reader.cb_id_in0 (Reader.in0_block_num_tiles a)])
                ++ [E_cb_reserve_back Reader.cb_id_in1 (Reader.in1_block_num_tiles a)]).
  assert (exists x, run reader_step R_idle tr2 =
            Some (R_filling (Reader.in0_block_num_tiles a)
                            (Reader.in1_block_num_tiles a) x)) as H2.
  { exists None. unfold tr2. by rewrite <- app_assoc, (run_snoc _ _ _ _ _ H). }
  match goal with
  | |- context [Reader.read_block ?s ?f ?sz ?w ?h ?sw ?sh ?c (?l, tr2)] =>
      pose proof (read_block_phase s f sz w h sw sh c _ _ (l, tr2) H2) as H3;
      destruct (Reader.read_block s f sz w h sw sh c (l, tr2)) as [l3 tr3]
  end.
  match goal with
  | |- context [Reader.read_block ?s ?f ?sz ?w ?h ?sw ?sh ?c (?l, tr3)] =>
      pose proof (read_block_phase s f sz w h sw sh c _ _ (l, tr3) H3) as H4;
      destruct (Reader.read_block s f sz w h sw sh c (l, tr3)) as [l4 tr4]
  end.
  destruct H4 as [x H4]. simpl in H4.
  rewrite (run_snoc _ _ _ _ _ H4).
  destruct x; simpl; by repeat (rewrite decide_True by done; simpl).
Qed.

(** X13. For every configuration, the calls of the reader follow the
    order of the circular buffers: each block reserves the buffer of
    operand 0 and then that of operand 1, reads tiles, decodes only the
    tile read last and in place, awaits the reads, and pushes the two
    buffers by the numbers of tiles it reserved; the kernel ends with
    nothing reserved. *)
Theorem reader_follows_buffer_protocol (a : Reader.args) (pf : platform) :
  run reader_step R_idle (Reader.kernel_main a pf) = Some R_idle.
Proof.
  unfold Reader.kernel_main, Reader.batches.
  apply (for_loop_inv (fun s => run reader_step R_idle (snd s) = Some R_idle));
    [done |].
  intros b [start tr] H. simpl in *. unfold Reader.batch_body.
  apply (for_loop_inv (fun s => run reader_step R_idle (snd s) = Some R_idle));
    [done |].
  intros blk [cur tr'] H'. simpl in *. by apply reader_block_body_phase.
Qed.

(** ** The order of the writer's calls *)

Lemma write_tile_phase (s : TensorAccessor) (is_mxfp4 size tile_id n : Z)
    (st : Z * list event) :
  run writer_step W_idle (snd st) = Some (W_front n) ->
  run writer_step W_idle (snd (Writer.write_tile s is_mxfp4 size tile_id st)) =
    Some (W_front n).
Proof.
  destruct st as [l1 tr]. intros H. simpl in H.
  unfold Writer.write_tile. destruct (is_mxfp4 =? 0); simpl.
  - by rewrite (run_snoc _ _ _ _ _ H).
  - rewrite (run_snoc _ _ _ _ _ H). simpl.
    by repeat (rewrite decide_True by done; simpl).
Qed.

Lemma writer_subblock_body_phase (a : Writer.args) (pf : platform)
    (start : Z) (tr : list event) :
  run writer_step W_idle tr = Some W_idle ->
  run writer_step W_idle (Writer.subblock_body a pf start tr) = Some W_idle.
Proof.
  intros H. unfold Writer.subblock_body.
  set (tr1 := tr ++ [E_cb_wait_front Writer.cb_id_out0
                       (Writer.out_subblock_tile_count a)]).
  assert (run writer_step W_idle tr1 =
            Some (W_front (Writer.out_subblock_tile_count a))) as H1
    by (unfold tr1; by rewrite (run_snoc _ _ _ _ _ H)).
  match goal with
  | |- context [for_loop ?n 0 ?body (start, (?l, tr1))] =>
      pose proof (tiles_loop_inv
        (fun st => run writer_step W_idle (snd st) =
                     Some (W_front (Writer.out_subblock_tile_count a)))
        (Writer.write_tile
           (Accessor Out (Writer.out_tensor_addr a)
              (get_tile_size pf Writer.cb_id_out0))
           (Writer.out_is_mxfp4 a) (get_tile_size pf Writer.cb_id_out0))
        (Writer.out_tensor_stride_w a) (Writer.out_tensor_stride_h a)
        (Z.to_nat (Writer.out_subblock_w a)) (Z.to_nat (Writer.out_subblock_h a))
        start (l, tr1)
        ltac:(intros id st'; apply write_tile_phase) H1) as H2;
      destruct (snd (for_loop n 0 body (start, (l, tr1)))) as [l2 tr2]
  end.
  simpl in H2. rewrite (run_snoc _ _ _ _ _ H2). simpl.
  by repeat (rewrite decide_True by done; simpl).
Qed.

(** X14. For every configuration, the calls of the writer follow the
    order of the output buffer: each subblock awaits its tiles, then
    either writes a tile whole or declares the array, encodes into that
    array and issues a write for the address the encoder read from,
    awaits the writes, and pops the buffer by the number of tiles it
    awaited; the kernel ends with nothing awaited. *)
Theorem writer_follows_buffer_protocol (a : Writer.args) (pf : platform) :
  run writer_step W_idle (Writer.kernel_main a pf) = Some W_idle.
Proof.
  unfold Writer.kernel_main, Writer.batches.
  apply (for_loop_inv (fun s => run writer_step W_idle (snd s) = Some W_idle));
    [done |].
  intros b [start tr] H. simpl in *. unfold Writer.batch_body.
  apply (for_loop_inv (fun s => run writer_step W_idle (snd s) = Some W_idle));
    [done |].
  intros sbh [row tr1] H1. simpl in *.
  apply (for_loop_inv (fun s => run writer_step W_idle (snd s) = Some W_idle));
    [done |].
  intros sbw [cur tr2] H2. simpl in *. by apply writer_subblock_body_phase.
Qed.

(** The state machines do refuse traces: a push with reads still in
    flight, a decode of a tile other than the one read last, and a write
    of a tile the encoder did not read. *)
Example reader_phase_refuses :
  run reader_step R_idle
    [E_cb_reserve_back 0 1; E_cb_reserve_back 1 1;
     E_noc_async_read_tile 0 (Accessor In0 0 4096) 1024;
     E_cb_push_back 0 1] = None /\
  run reader_step R_idle
    [E_cb_reserve_back 0 1; E_cb_reserve_back 1 1;
     E_noc_async_read_tile 0 (Accessor In0 0 4096) 1024;
     E_convert_mxfp4_to_fp32_tile (l1_ptr 8192) (l1_ptr 8192) 1024] = None.
Proof. split; reflexivity. Qed.

Example writer_phase_refuses :
  run writer_step W_idle
    [E_cb_wait_front 16 1; E_alloca (Ptr STACK 0) 170;
     E_convert_fp32_to_mxfp4_tile (l1_ptr 1024) (Ptr STACK 0) 1024;
     E_noc_async_write 0 0 8192 640] = None.
Proof. reflexivity. Qed.

(** ** Which calls a kernel makes *)

Lemma reader_calls (a : Reader.args) (pf : platform) (Q : event -> Prop) :
  Q (E_cb_reserve_back Reader.cb_id_in0 (Reader.in0_block_num_tiles a)) ->
  Q (E_cb_reserve_back Reader.cb_id_in1 (Reader.in1_block_num_tiles a)) ->
  Q E_noc_async_read_barrier ->
  Q (E_cb_push_back Reader.cb_id_in0 (Reader.in0_block_num_tiles a)) ->
  Q (E_cb_push_back Reader.cb_id_in1 (Reader.in1_block_num_tiles a)) ->
  (forall tile_id l1,
     Q (E_noc_async_read_tile tile_id
          (Accessor In0 (Reader.in0_tensor_addr a)
             (get_tile_size pf Reader.cb_id_in0)) l1)) ->
  (forall tile_id l1,
     Q (E_noc_async_read_tile tile_id
          (Accessor In1 (Reader.in1_tensor_addr a)
             (get_tile_size pf Reader.cb_id_in1)) l1)) ->
  (Reader.in0_is_mxfp4 a <> 0 -> forall l1,
     Q (E_convert_mxfp4_to_fp32_tile (l1_ptr l1) (l1_ptr l1)
          (get_tile_size pf Reader.cb_id_in0 / sizeof_uint32_t))) ->
  (Reader.in1_is_mxfp4 a <> 0 -> forall l1,
     Q (E_convert_mxfp4_to_fp32_tile (l1_ptr l1) (l1_ptr l1)
          (get_tile_size pf Reader.cb_id_in1 / sizeof_uint32_t))) ->
  Forall Q (Reader.kernel_main a pf).
Proof.
  intros Hr0 Hr1 Hbar Hp0 Hp1 Hrd0 Hrd1 Hd0 Hd1.
  assert (forall s f size,
            (forall tile_id l1, Q (E_noc_async_read_tile tile_id s l1)) ->
            (f <> 0 -> forall l1,
               Q (E_convert_mxfp4_to_fp32_tile (l1_ptr l1) (l1_ptr l1)
                    (size / sizeof_uint32_t))) ->
            forall w h sw sh c st, Forall Q (snd st) ->
              Forall Q (snd (Reader.read_block s f size w h sw sh c st)))
    as Hblock.
  { intros s f size Hrd Hd w h sw sh c st Hst. unfold Reader.read_block.
    apply (tiles_loop_inv (fun st => Forall Q (snd st))); [| done].
    intros id [l1 tr] Htr. simpl in Htr. unfold Reader.read_tile.
    destruct (Z.eqb_spec f 0) as [_ | Hf]; simpl.
    - apply Forall_app. split; [done |]. by apply Forall_singleton.
    - rewrite !Forall_app, !Forall_singleton. split_and!; [done | done |].
      by apply Hd. }
  unfold Reader.kernel_main, Reader.batches.
  apply (for_loop_inv (fun s => Forall Q (snd s))); [done |].
  intros b [start tr] H. simpl in *. unfold Reader.batch_body.
  apply (for_loop_inv (fun s => Forall Q (snd s))); [done |].
  intros blk [[c0 c1] tr'] H'. simpl in *. unfold Reader.block_body.
  match goal with
  | |- context [Reader.read_block ?s ?f ?sz ?w ?h ?sw ?sh ?c (?l, ?t)] =>
      assert (Forall Q (snd (Reader.read_block s f sz w h sw sh c (l, t)))) as H3;
      [ apply (Hblock s f sz); [done | done |]; simpl;
        rewrite !Forall_app, !Forall_singleton; by split_and!
      | destruct (Reader.read_block s f sz w h sw sh c (l, t)) as [l3 tr3] ]
  end.
  match goal with
  | |- context [Reader.read_block ?s ?f ?sz ?w ?h ?sw ?sh ?c (?l, tr3)] =>
      assert (Forall Q (snd (Reader.read_block s f sz w h sw sh c (l, tr3)))) as H4;
      [ by apply (Hblock s f sz)
      | destruct (Reader.read_block s f sz w h sw sh c (l, tr3)) as [l4 tr4] ]
  end.
  simpl in H4. apply Forall_app. split; [done |].
  by repeat constructor.
Qed.

Lemma writer_calls (a : Writer.args) (pf : platform) (Q : event -> Prop) :
  Q (E_cb_wait_front Writer.cb_id_out0 (Writer.out_subblock_tile_count a)) ->
  Q E_noc_async_write_barrier ->
  Q (E_cb_pop_front Writer.cb_id_out0 (Writer.out_subblock_tile_count a)) ->
  (Writer.out_is_mxfp4 a = 0 -> forall tile_id l1,
     Q (E_noc_async_write_tile tile_id
          (Accessor Out (Writer.out_tensor_addr a)
             (get_tile_size pf Writer.cb_id_out0)) l1)) ->
  (Writer.out_is_mxfp4 a <> 0 ->
     Q (E_alloca Writer.mxfp4_buffer
          (Writer.mxfp4_buffer_len
             (get_tile_size pf Writer.cb_id_out0 / sizeof_uint32_t))) /\
     forall tile_id l1,
       Q (E_convert_fp32_to_mxfp4_tile (l1_ptr l1) Writer.mxfp4_buffer
            (get_tile_size pf Writer.cb_id_out0 / sizeof_uint32_t)) /\
       Q (E_noc_async_write tile_id (Writer.out_tensor_addr a) l1
            (Writer.mxfp4_size
               (get_tile_size pf Writer.cb_id_out0 / sizeof_uint32_t)))) ->
  Forall Q (Writer.kernel_main a pf).
Proof.
  intros Hw Hbar Hpop Hplain Hcompact.
  unfold Writer.kernel_main, Writer.batches.
  apply (for_loop_inv (fun s => Forall Q (snd s))); [done |].
  intros b [start tr] H. simpl in *. unfold Writer.batch_body.
  apply (for_loop_inv (fun s => Forall Q (snd s))); [done |].
  intros sbh [row tr1] H1. simpl in *.
  apply (for_loop_inv (fun s => Forall Q (snd s))); [done |].
  intros sbw [cur tr2] H2. simpl in *. unfold Writer.subblock_body.
  match goal with
  | |- context [for_loop ?n 0 ?body (cur, (?l, ?t))] =>
      assert (Forall Q (snd (snd (for_loop n 0 body (cur, (l, t)))))) as H3;
      [ apply (tiles_loop_inv (fun st => Forall Q (snd st)));
        [| simpl; rewrite Forall_app, Forall_singleton; by split ]
      | destruct (snd (for_loop n 0 body (cur, (l, t)))) as [l3 tr3] ]
  end.
  { intros id [l1 tr'] Htr. simpl in Htr. unfold Writer.write_tile.
    destruct (Z.eqb_spec (Writer.out_is_mxfp4 a) 0) as [Hf | Hf]; simpl.
    - rewrite Forall_app, Forall_singleton. split; [done |]. by apply Hplain.
    - destruct (Hcompact Hf) as [Hal Hcw]. destruct (Hcw id l1) as [Hc Hwr].
      apply Forall_app. split; [done |].
      by repeat constructor. }
  simpl in H3. apply Forall_app. split; [done |].
  by repeat constructor.
Qed.

(** ** The writer leaves L1 as it is *)

Lemma store_other_block (m m' : mem) (p : ptr) (i v : Z) (blk : nat) :
  store m p i v = Some m' -> blk <> p_blk p -> m' !! blk = m !! blk.
Proof.
  unfold store. destruct (m !! p_blk p) as [b |]; simpl; [| done].
  destruct ((0 <=? p_off p + i) && (p_off p + i <? Z.of_nat (length b)));
    [| done].
  intros [= <-] Hne. by apply list_lookup_insert_ne.
Qed.

Lemma encoder_other_block (m m' : mem) (src dst : ptr) (n : Z) (blk : nat) :
  convert_fp32_to_mxfp4_tile src dst n m = Some m' ->
  blk <> p_blk dst -> m' !! blk = m !! blk.
Proof.
  intros Hrun Hne. unfold convert_fp32_to_mxfp4_tile in Hrun.
  apply (for_loopM_inv_partial (fun _ mi => mi !! blk = m !! blk)
           _ _ _ _ _ Hrun); [done |].
  intros i mi m1 _ Hmi Hbody.
  destruct (find_max_exp src i mi) as [e |]; [| done]. simpl in Hbody.
  destruct (store mi dst (mul32 i 5) (shl32 e 24)) as [ms |] eqn:Hst; [| done].
  simpl in Hbody. rewrite <- Hmi, <- (store_other_block _ _ _ _ _ blk Hst Hne).
  unfold pack_block in Hbody.
  apply (for_loopM_inv_partial (fun _ mj => mj !! blk = ms !! blk)
           _ _ _ _ _ Hbody); [done |].
  intros j mj m2 _ Hmj Hstep. cbv zeta in Hstep.
  destruct (load mj src _) as [v |]; [| done]. simpl in Hstep.
  destruct (load mj dst _) as [w |]; [| done]. simpl in Hstep.
  by rewrite <- Hmj, (store_other_block _ _ _ _ _ blk Hstep Hne).
Qed.

Lemma transfers_keep_block (blk : nat) (tr : list event) (m m' : mem)
    (ds : list (list Z)) :
  Forall (fun e => forall m m', exec e m = Some m' -> m' !! blk = m !! blk) tr ->
  transfers tr m = Some (ds, m') -> m' !! blk = m !! blk.
Proof.
  intros Hall. revert m ds.
  induction Hall as [| e tr He _ IH]; intros m ds Hrun; simpl in Hrun.
  - by injection Hrun as _ <-.
  - destruct (exec e m) as [m1 |] eqn:Hexec; [| done]. simpl in Hrun.
    rewrite <- (He _ _ Hexec).
    destruct (is_write e).
    + destruct (payload e m1) as [d |]; [| done]. simpl in Hrun.
      destruct (transfers tr m1) as [[ds1 m2] |] eqn:Hrest; [| done].
      simpl in Hrun. injection Hrun as _ <-. by apply (IH _ _ Hrest).
    + by apply (IH _ _ Hrun).
Qed.

Lemma writer_calls_keep_L1 (a : Writer.args) (pf : platform) :
  Forall (fun e => forall m m', exec e m = Some m' -> m' !! L1 = m !! L1)
    (Writer.kernel_main a pf).
Proof.
  apply writer_calls.
  - by intros m0 m1 [= <-].
  - by intros m0 m1 [= <-].
  - by intros m0 m1 [= <-].
  - by intros _ id l1 m0 m1 [= <-].
  - intros _. split.
    + intros m0 m1 Hexec. simpl in Hexec.
      destruct (m0 !! STACK) as [b |]; [| done]. simpl in Hexec.
      destruct ((0 <=? _) && _); [| done].
      injection Hexec as <-. by apply list_lookup_insert_ne.
    + intros id l1. split.
      * intros m0 m1 Hexec. simpl in Hexec.
        by apply (encoder_other_block _ _ _ _ _ L1 Hexec).
      * by intros m0 m1 [= <-].
Qed.

(** X15. Whatever the configuration and the memory, a run of the writer
    leaves every word of L1 as it found it: the staged tiles are only
    read, and the array and the encoder's output are on the stack. *)
Theorem writer_leaves_L1 (a : Writer.args) (pf : platform) (m m' : mem)
    (ds : list (list Z)) :
  transfers (Writer.kernel_main a pf) m = Some (ds, m') ->
  m' !! L1 = m !! L1.
Proof. apply transfers_keep_block, writer_calls_keep_L1. Qed.

Lemma writer_leaves_L1_witness :
  let a := Writer.Args 3000 0 1 1 1 1 1 1 1 1 1 1 1 1 in
  let pf := Platform (fun _ => 128) (fun _ _ => 0) (fun _ _ => 0) in
  let m := [replicate 32 1069547520; replicate 8 0] in
  exists ds m',
    transfers (Writer.kernel_main a pf) m = Some (ds, m') /\
    m' !! L1 = m !! L1.
Proof.
  intros a pf m.
  destruct (transfers (Writer.kernel_main a pf) m) as [[ds m'] |] eqn:E;
    [| by vm_compute in E].
  exists ds, m'. split; [done |].
  apply (writer_leaves_L1 a pf m m' ds E).
Defined.

(** ** How often the reader decodes *)

Lemma read_block_decodes (a : Reader.args) (s : TensorAccessor)
    (f size w h sw sh c : Z) (st : Z * list event) :
  let Inv := fun tr : list event =>
    length (filter is_decode tr) =
      ((if (Reader.in0_is_mxfp4 a =? 0)%Z then 0 else length (tile_ids In0 tr)) +
       (if (Reader.in1_is_mxfp4 a =? 0)%Z then 0 else length (tile_ids In1 tr)))%nat in
  (acc_operand s = In0 /\ f = Reader.in0_is_mxfp4 a) \/
  (acc_operand s = In1 /\ f = Reader.in1_is_mxfp4 a) ->
  Inv (snd st) ->
  Inv (snd (Reader.read_block s f size w h sw sh c st)).
Proof.
  intros Inv Hs H. unfold Reader.read_block.
  apply (tiles_loop_inv (fun st => Inv (snd st))); [| done].
  intros id [l1 tr] Htr. unfold Inv in *. simpl in Htr.
  rewrite !read_tile_ids. unfold Reader.read_tile, emit. simpl.
  rewrite !length_app.
  destruct Hs as [[-> ->] | [-> ->]];
    destruct (Reader.in0_is_mxfp4 a =? 0)%Z, (Reader.in1_is_mxfp4 a =? 0)%Z;
    simpl; rewrite ?list.filter_app, ?length_app; simpl; lia.
Qed.

(** X16. The reader calls the decoder once for each tile it reads of an
    operand whose format flag is set, and for no other tile: the number
    of decoder calls is the number of tiles read of the flagged
    operands. *)
Theorem reader_decodes_flagged_tiles (a : Reader.args) (pf : platform) :
  length (filter is_decode (Reader.kernel_main a pf)) =
    ((if (Reader.in0_is_mxfp4 a =? 0)%Z then 0
      else length (tile_ids In0 (Reader.kernel_main a pf))) +
     (if (Reader.in1_is_mxfp4 a =? 0)%Z then 0
      else length (tile_ids In1 (Reader.kernel_main a pf))))%nat.
Proof.
  set (Inv := fun tr : list event =>
    length (filter is_decode tr) =
      ((if (Reader.in0_is_mxfp4 a =? 0)%Z then 0 else length (tile_ids In0 tr)) +
       (if (Reader.in1_is_mxfp4 a =? 0)%Z then 0 else length (tile_ids In1 tr)))%nat).
  change (Inv (Reader.kernel_main a pf)).
  assert (forall tr e, tile_id_of In0 e = [] -> tile_id_of In1 e = [] ->
            is_decode e = false -> Inv tr -> Inv (tr ++ [e])) as Hsnoc.
  { intros tr e H0 H1 Hd Htr. unfold Inv in *.
    rewrite !tile_ids_app, list.filter_app, !length_app. unfold tile_ids at 2 4.
    simpl. rewrite H0, H1. rewrite filter_cons_False by (rewrite Hd; simpl; tauto).
    simpl. destruct (_ =? 0)%Z, (_ =? 0)%Z; lia. }
  unfold Reader.kernel_main, Reader.batches.
  apply (for_loop_inv (fun s => Inv (snd s))).
  { unfold Inv. simpl. by destruct (_ =? 0)%Z, (_ =? 0)%Z. }
  intros b [start tr] H. simpl in *. unfold Reader.batch_body.
  apply (for_loop_inv (fun s => Inv (snd s))); [done |].
  intros blk [[c0 c1] tr'] H'. simpl in *. unfold Reader.block_body.
  match goal with
  | |- context [Reader.read_block ?s ?f ?sz ?w ?h ?sw ?sh ?c (?l, ?t)] =>
      pose proof (read_block_decodes a s f sz w h sw sh c (l, t)
                    ltac:(by left)) as H3;
      destruct (Reader.read_block s f sz w h sw sh c (l, t)) as [l3 tr3]
  end.
  match goal with
  | |- context [Reader.read_block ?s ?f ?sz ?w ?h ?sw ?sh ?c (?l, tr3)] =>
      pose proof (read_block_decodes a s f sz w h sw sh c (l, tr3)
                    ltac:(by right)) as H4;
      destruct (Reader.read_block s f sz w h sw sh c (l, tr3)) as [l4 tr4]
  end.
  simpl in H3, H4.
  change [E_noc_async_read_barrier;
          E_cb_push_back Reader.cb_id_in0 (Reader.in0_block_num_tiles a);
          E_cb_push_back Reader.cb_id_in1 (Reader.in1_block_num_tiles a)]
    with ([E_noc_async_read_barrier] ++
          [E_cb_push_back Reader.cb_id_in0 (Reader.in0_block_num_tiles a)] ++
          [E_cb_push_back Reader.cb_id_in1 (Reader.in1_block_num_tiles a)]).
  rewrite !app_assoc.
  do 3 (apply Hsnoc; [done | done | done |]).
  apply H4, H3. by do 2 (apply Hsnoc; [done | done | done |]).
Qed.

(** ** How often the writer encodes, and how much it sends *)

(** X17. The writer calls the encoder once for each tile it writes when
    the output's format flag is set, and never when the flag is clear. *)
Theorem writer_encodes_flagged_tiles (a : Writer.args) (pf : platform) :
  length (filter is_encode (Writer.kernel_main a pf)) =
    if Writer.out_is_mxfp4 a =? 0 then 0%nat
    else length (tile_ids Out (Writer.kernel_main a pf)).
Proof.
  set (Inv := fun tr : list event =>
    length (filter is_encode tr) =
      if Writer.out_is_mxfp4 a =? 0 then 0%nat else length (tile_ids Out tr)).
  change (Inv (Writer.kernel_main a pf)).
  assert (forall tr e, tile_id_of Out e = [] -> is_encode e = false ->
            Inv tr -> Inv (tr ++ [e])) as Hsnoc.
  { intros tr e H0 Hd Htr. unfold Inv in *.
    rewrite !tile_ids_app, list.filter_app, !length_app. unfold tile_ids at 2.
    simpl. rewrite H0. rewrite filter_cons_False by (rewrite Hd; simpl; tauto).
    simpl. destruct (_ =? 0); lia. }
  unfold Writer.kernel_main, Writer.batches.
  apply (for_loop_inv (fun s => Inv (snd s))).
  { unfold Inv. simpl. by destruct (_ =? 0). }
  intros b [start tr] H. simpl in *. unfold Writer.batch_body.
  apply (for_loop_inv (fun s => Inv (snd s))); [done |].
  intros sbh [row tr1] H1. simpl in *.
  apply (for_loop_inv (fun s => Inv (snd s))); [done |].
  intros sbw [cur tr2] H2. simpl in *. unfold Writer.subblock_body.
  match goal with
  | |- context [for_loop ?n 0 ?body (cur, (?l, ?t))] =>
      assert (Inv (snd (snd (for_loop n 0 body (cur, (l, t)))))) as H3;
      [ apply (tiles_loop_inv (fun st => Inv (snd st)));
        [| simpl; by apply Hsnoc ]
      | destruct (snd (for_loop n 0 body (cur, (l, t)))) as [l3 tr3] ]
  end.
  { intros id [l1 tr'] Htr. unfold Inv in *. simpl in Htr.
    rewrite write_tile_ids by done. unfold Writer.write_tile, emit. simpl.
    rewrite !length_app.
    destruct (Writer.out_is_mxfp4 a =? 0); simpl;
      rewrite ?list.filter_app, ?length_app; simpl; lia. }
  simpl in H3.
  change [E_noc_async_write_barrier;
          E_cb_pop_front Writer.cb_id_out0 (Writer.out_subblock_tile_count a)]
    with ([E_noc_async_write_barrier] ++
          [E_cb_pop_front Writer.cb_id_out0 (Writer.out_subblock_tile_count a)]).
  rewrite !app_assoc. by do 2 (apply Hsnoc; [done | done |]).
Qed.

(** X18. For a tile of [S] bytes, [S] below [2 ^ 32], every write the
    writer issues for a compact tile is to the address of the output
    tensor and of [20 * (S / 128)] bytes, 20 bytes for each 32 values and
    at most 5/32 of the tile; the array declared for it has [S / 24]
    words. *)
Theorem compact_write_sizes (a : Writer.args) (pf : platform) :
  0 <= get_tile_size pf Writer.cb_id_out0 < 2 ^ 32 ->
  Forall (fun e =>
    match e with
    | E_noc_async_write _ addr _ size =>
        addr = Writer.out_tensor_addr a /\
        size = 20 * (get_tile_size pf Writer.cb_id_out0 / 128) /\
        32 * size <= 5 * get_tile_size pf Writer.cb_id_out0
    | E_alloca _ len => len = get_tile_size pf Writer.cb_id_out0 / 24
    | _ => True
    end) (Writer.kernel_main a pf).
Proof.
  intros HS. set (S := get_tile_size pf Writer.cb_id_out0) in *.
  apply writer_calls; try done.
  intros _. fold S. unfold sizeof_uint32_t. split.
  - unfold Writer.mxfp4_buffer_len. by rewrite Z.div_div by lia.
  - intros id l1. split; [done |]. split; [done |].
    assert (0 <= S / 4 < 2 ^ 32) as H4.
    { split; [apply Z.div_pos; lia | apply Z.div_lt_upper_bound; lia]. }
    rewrite (mxfp4_size_exact _ H4), Z.div_div by lia.
    change (4 * 32) with 128.
    pose proof (Z.mul_div_le S 128 ltac:(lia)). lia.
Qed.

Lemma compact_write_sizes_witness :
  let a := Writer.Args 3000 0 1 8 2 16 2 2 4 1 1 64 1 1 in
  let pf := Platform (fun _ => 4096) (fun _ _ => 0) (fun _ _ => 0) in
  Forall (fun e =>
    match e with
    | E_noc_async_write _ addr _ size =>
        addr = 3000 /\ size = 20 * (4096 / 128) /\ 32 * size <= 5 * 4096
    | E_alloca _ len => len = 4096 / 24
    | _ => True
    end) (Writer.kernel_main a pf).
Proof. intros a pf. apply (compact_write_sizes a pf). by vm_compute. Defined.

(** ** Tiles in consecutive slots *)

Lemma slot_step_other (tile_size : operand -> Z) (last : operand -> option Z)
    (e : event) :
  claims_buffer e = false -> transfer_slot e = None ->
  slot_step tile_size last e = Some last.
Proof. intros H1 H2. unfold slot_step. by rewrite H1, H2. Qed.

Lemma slot_step_next (tile_size : operand -> Z) (last : operand -> option Z)
    (e : event) (op : operand) (l1 : Z) :
  claims_buffer e = false -> transfer_slot e = Some (op, l1) ->
  (forall prev, last op = Some prev -> l1 = add32 prev (tile_size op)) ->
  slot_step tile_size last e =
    Some (fun o => if decide (o = op) then Some l1 else last o).
Proof.
  intros H1 H2 Hprev. unfold slot_step. rewrite H1, H2.
  destruct (last op) as [prev |]; [| done].
  by rewrite decide_True by (by apply Hprev).
Qed.

(** Along the tiles of one operand: the cursor is one tile size after the
    operand's last transfer, and the other operands' are as [last0] has
    them. *)
Lemma read_tile_slots (pf : platform) (s : TensorAccessor) (f tile_id : Z)
    (last0 : operand -> option Z) (st : Z * list event) :
  let Inv := fun st : Z * list event =>
    exists last,
      run (slot_step (tile_size_of pf)) (fun _ => None) (snd st) = Some last /\
      (forall prev, last (acc_operand s) = Some prev ->
         fst st = add32 prev (tile_size_of pf (acc_operand s))) /\
      (forall o, o <> acc_operand s -> last o = last0 o) in
  Inv st ->
  Inv (Reader.read_tile s f (tile_size_of pf (acc_operand s)) tile_id st).
Proof.
  intros Inv. destruct st as [l1 tr]. intros (last & Hrun & Hcur & Hoth).
  simpl in Hrun, Hcur.
  exists (fun o => if decide (o = acc_operand s) then Some l1 else last o).
  assert (run (slot_step (tile_size_of pf)) (fun _ => None)
            (tr ++ [E_noc_async_read_tile tile_id s l1]) =
          Some (fun o => if decide (o = acc_operand s) then Some l1 else last o))
    as Hread.
  { rewrite (run_snoc _ _ _ _ _ Hrun). simpl.
    by rewrite (slot_step_next _ _ _ (acc_operand s) l1). }
  split; [| split].
  - unfold Reader.read_tile. destruct (f =? 0); simpl; [done |].
    by rewrite (run_snoc _ _ _ _ _ Hread).
  - intros prev. rewrite decide_True by done. intros [= <-].
    unfold Reader.read_tile. by destruct (f =? 0).
  - intros o Ho. rewrite decide_False by done. by apply Hoth.
Qed.

Lemma read_block_slots (pf : platform) (s : TensorAccessor)
    (f w h sw sh c : Z) (last0 : operand -> option Z) (st : Z * list event) :
  let Inv := fun st : Z * list event =>
    exists last,
      run (slot_step (tile_size_of pf)) (fun _ => None) (snd st) = Some last /\
      (forall prev, last (acc_operand s) = Some prev ->
         fst st = add32 prev (tile_size_of pf (acc_operand s))) /\
      (forall o, o <> acc_operand s -> last o = last0 o) in
  Inv st ->
  Inv (Reader.read_block s f (tile_size_of pf (acc_operand s)) w h sw sh c st).
Proof.
  intros Inv H. unfold Reader.read_block.
  apply (tiles_loop_inv Inv); [| done].
  intros id st'. apply read_tile_slots.
Qed.

Lemma write_tile_slots (pf : platform) (s : TensorAccessor) (f tile_id : Z)
    (st : Z * list event) :
  let Inv := fun st : Z * list event =>
    exists last,
      run (slot_step (tile_size_of pf)) (fun _ => None) (snd st) = Some last /\
      (forall prev, last Out = Some prev ->
         fst st = add32 prev (tile_size_of pf Out)) in
  acc_operand s = Out ->
  Inv st ->
  Inv (Writer.write_tile s f (tile_size_of pf Out) tile_id st).
Proof.
  intros Inv Hs. destruct st as [l1 tr]. intros (last & Hrun & Hcur).
  simpl in Hrun, Hcur.
  exists (fun o => if decide (o = Out) then Some l1 else last o).
  split.
  - unfold Writer.write_tile. destruct (f =? 0); simpl.
    + rewrite (run_snoc _ _ _ _ _ Hrun). simpl.
      rewrite (slot_step_next _ _ _ Out l1); (done || by rewrite <- Hs).
    + rewrite (run_snoc _ _ _ _ _ Hrun). simpl.
      rewrite ?slot_step_other by done. simpl.
      by rewrite (slot_step_next _ _ _ Out l1).
  - intros prev. rewrite decide_True by done. intros [= <-].
    unfold Writer.write_tile. by destruct (f =? 0).
Qed.

(** X19. In every block, the reader reads the tiles of an operand into
    consecutive slots of L1: each read names the address one tile size
    (in 32-bit arithmetic) after the operand's previous read, whether or
    not the tile is then decoded. *)
Theorem reader_fills_consecutive_slots (a : Reader.args) (pf : platform) :
  is_Some (run (slot_step (tile_size_of pf)) (fun _ => None)
             (Reader.kernel_main a pf)).
Proof.
  set (ok := fun tr : list event =>
    is_Some (run (slot_step (tile_size_of pf)) (fun _ => None) tr)).
  change (ok (Reader.kernel_main a pf)).
  unfold Reader.kernel_main, Reader.batches.
  apply (for_loop_inv (fun s => ok (snd s))); [by eexists |].
  intros b [start tr] H. simpl in *. unfold Reader.batch_body.
  apply (for_loop_inv (fun s => ok (snd s))); [done |].
  intros blk [[c0 c1] tr'] [last H']. simpl in *. unfold Reader.block_body.
  set (s0 := Accessor In0 (Reader.in0_tensor_addr a)
               (get_tile_size pf Reader.cb_id_in0)).
  set (s1 := Accessor In1 (Reader.in1_tensor_addr a)
               (get_tile_size pf Reader.cb_id_in1)).
  set (tr2 := (tr' ++ [E_cb_reserve_back Reader.cb_id_in0
                         (Reader.in0_block_num_tiles a)])
                ++ [E_cb_reserve_back Reader.cb_id_in1
                      (Reader.in1_block_num_tiles a)]).
  assert (run (slot_step (tile_size_of pf)) (fun _ => None) tr2 =
            Some (fun _ => None)) as H2.
  { unfold tr2. by rewrite <- app_assoc, (run_snoc _ _ _ _ _ H'). }
  match goal with
  | |- context [Reader.read_block s0 ?f ?sz ?w ?h ?sw ?sh ?c (?l, tr2)] =>
      pose proof (read_block_slots pf s0 f w h sw sh c (fun _ => None) (l, tr2)
                    ltac:(exists (fun _ => None); by split_and!)) as H3;
      change (tile_size_of pf (acc_operand s0)) with sz in H3;
      destruct (Reader.read_block s0 f sz w h sw sh c (l, tr2)) as [l3 tr3]
  end.
  destruct H3 as (last3 & Hrun3 & _ & Hoth3). simpl in Hrun3.
  match goal with
  | |- context [Reader.read_block s1 ?f ?sz ?w ?h ?sw ?sh ?c (?l, tr3)] =>
      pose proof (read_block_slots pf s1 f w h sw sh c last3 (l, tr3)
                    ltac:(exists last3; split_and!; [done | | done];
                          intros prev; by rewrite Hoth3)) as H4;
      change (tile_size_of pf (acc_operand s1)) with sz in H4;
      destruct (Reader.read_block s1 f sz w h sw sh c (l, tr3)) as [l4 tr4]
  end.
  destruct H4 as (last4 & Hrun4 & _). simpl in Hrun4.
  unfold ok. rewrite (run_snoc _ _ _ _ _ Hrun4). simpl.
  rewrite ?slot_step_other by done. by eexists.
Qed.

(** X20. In every subblock, the writer takes the tiles it writes from
    consecutive slots of L1: each write names the address one tile size
    (in 32-bit arithmetic) after the previous write, in either format. *)
Theorem writer_drains_consecutive_slots (a : Writer.args) (pf : platform) :
  is_Some (run (slot_step (tile_size_of pf)) (fun _ => None)
             (Writer.kernel_main a pf)).
Proof.
  set (ok := fun tr : list event =>
    is_Some (run (slot_step (tile_size_of pf)) (fun _ => None) tr)).
  change (ok (Writer.kernel_main a pf)).
  unfold Writer.kernel_main, Writer.batches.
  apply (for_loop_inv (fun s => ok (snd s))); [by eexists |].
  intros b [start tr] H. simpl in *. unfold Writer.batch_body.
  apply (for_loop_inv (fun s => ok (snd s))); [done |].
  intros sbh [row tr1] H1. simpl in *.
  apply (for_loop_inv (fun s => ok (snd s))); [done |].
  intros sbw [cur tr2] [last H2]. simpl in *. unfold Writer.subblock_body.
  set (s := Accessor Out (Writer.out_tensor_addr a)
              (get_tile_size pf Writer.cb_id_out0)).
  set (tr3 := tr2 ++ [E_cb_wait_front Writer.cb_id_out0
                        (Writer.out_subblock_tile_count a)]).
  assert (run (slot_step (tile_size_of pf)) (fun _ => None) tr3 =
            Some (fun _ => None)) as H3
    by (unfold tr3; by rewrite (run_snoc _ _ _ _ _ H2)).
  match goal with
  | |- context [for_loop ?n 0 ?body (cur, (?l, tr3))] =>
      pose proof (tiles_loop_inv
        (fun st : Z * list event => exists last,
           run (slot_step (tile_size_of pf)) (fun _ => None) (snd st) = Some last /\
           (forall prev, last Out = Some prev ->
              fst st = add32 prev (tile_size_of pf Out)))
        (Writer.write_tile s (Writer.out_is_mxfp4 a) (tile_size_of pf Out))
        (Writer.out_tensor_stride_w a) (Writer.out_tensor_stride_h a)
        (Z.to_nat (Writer.out_subblock_w a)) (Z.to_nat (Writer.out_subblock_h a))
        cur (l, tr3)
        ltac:(intros id st; by apply (write_tile_slots pf s))
        ltac:(exists (fun _ => None); by split)) as H4;
      change (tile_size_of pf Out) with (get_tile_size pf Writer.cb_id_out0) in H4;
      destruct (snd (for_loop n 0 body (cur, (l, tr3)))) as [l4 tr4]
  end.
  destruct H4 as (last4 & Hrun4 & _). simpl in Hrun4.
  unfold ok. rewrite (run_snoc _ _ _ _ _ Hrun4). simpl.
  rewrite ?slot_step_other by done. by eexists.
Qed.

(** A read that skips a slot is refused. *)
Example slot_step_refuses :
  run (slot_step (fun _ => 4096)) (fun _ => None)
    [E_cb_reserve_back 0 2;
     E_noc_async_read_tile 7 (Accessor In0 0 4096) 8192;
     E_noc_async_read_tile 8 (Accessor In0 0 4096) 16384] = None.
Proof. reflexivity. Qed.

(** ** What the writer sends *)





(** ** What survives a decode in place *)

Lemma for_loopM_rel {St : Type} (R : Z -> St -> St -> Prop)
    (body1 body2 : Z -> St -> option St) (n : nat) (i0 : Z) (s t s' t' : St) :
  for_loopM n i0 body1 s = Some s' ->
  for_loopM n i0 body2 t = Some t' ->
  R i0 s t ->
  (forall i s t s1 t1, i0 <= i < i0 + Z.of_nat n -> R i s t ->
     body1 i s = Some s1 -> body2 i t = Some t1 -> R (i + 1) s1 t1) ->
  R (i0 + Z.of_nat n) s' t'.
Proof.
  revert i0 s t. induction n as [| n IH]; intros i0 s t Hs Ht H0 Hstep.
  - simpl in Hs, Ht. injection Hs as <-. injection Ht as <-.
    by rewrite Z.add_0_r.
  - simpl in Hs, Ht.
    destruct (body1 i0 s) as [s1 |] eqn:Hb1; [| done].
    destruct (body2 i0 t) as [t1 |] eqn:Hb2; [| done].
    simpl in Hs, Ht.
    replace (i0 + Z.of_nat (S n)) with (i0 + 1 + Z.of_nat n) by lia.
    apply (IH (i0 + 1) s1 t1 Hs Ht).
    + apply (Hstep i0 s t); (done || lia).
    + intros i s2 t2 s3 t3 Hi. apply Hstep. lia.
Qed.

(** One block decoded in place in two memories that agree on the words
    already written; in block 0 the first two values are still read from
    the tile itself. *)
Lemma unpack_block_in_place (ma mb ma' mb' : mem) (p : ptr) (i shared_exp : Z) :
  unpack_block p p i shared_exp ma = Some ma' ->
  unpack_block p p i shared_exp mb = Some mb' ->
  0 <= i < 2 ^ 27 ->
  (forall k, 0 <= k < 32 * i -> load ma p k = load mb p k) ->
  (i = 0 ->
     nibble (word_at ma p 1) 0 = nibble (word_at mb p 1) 0 /\
     nibble (word_at ma p 1) 1 = nibble (word_at mb p 1) 1) ->
  forall k, 0 <= k < 32 * (i + 1) -> load ma' p k = load mb' p k.
Proof.
  intros Ha Hb Hi Hagree Hfirst. unfold unpack_block in Ha, Hb.
  change (Z.to_nat MXFP4_BLOCK_SIZE) with 32%nat in Ha, Hb.
  assert ((forall k, 0 <= k < 32 * i + (0 + Z.of_nat 32) ->
             load ma' p k = load mb' p k) /\
          (i = 0 -> 0 + Z.of_nat 32 <= 1 ->
             nibble (word_at ma' p 1) 1 = nibble (word_at mb' p 1) 1 /\
             (0 + Z.of_nat 32 = 0 ->
                nibble (word_at ma' p 1) 0 = nibble (word_at mb' p 1) 0)))
    as [H _]; [| intros k Hk; apply H; lia].
  apply (for_loopM_rel
    (fun j mja mjb =>
       (forall k, 0 <= k < 32 * i + j -> load mja p k = load mjb p k) /\
       (i = 0 -> j <= 1 ->
          nibble (word_at mja p 1) 1 = nibble (word_at mjb p 1) 1 /\
          (j = 0 -> nibble (word_at mja p 1) 0 = nibble (word_at mjb p 1) 0)))
    _ _ _ _ _ _ _ _ Ha Hb).
  - split; [intros k Hk; apply Hagree; lia |].
    intros Hi0 _. destruct (Hfirst Hi0) as [H0 H1]. by split.
  - intros j mja mjb ma1 mb1 Hj [Hlow Hnib] Hba Hbb. cbv zeta in Hba, Hbb.
    rewrite idx_val, idx_mag in Hba, Hbb by lia.
    destruct (load mja p (5 * i + 1 + j / 8)) as [wa |] eqn:Hwa; [| done].
    destruct (load mjb p (5 * i + 1 + j / 8)) as [wb |] eqn:Hwb; [| done].
    simpl in Hba, Hbb.
    assert (0 <= j / 8 < 4) as Hj8
      by (split; [apply Z.div_pos | apply Z.div_lt_upper_bound]; lia).
    assert (nibble wa (j mod 8) = nibble wb (j mod 8)) as Hsame.
    { destruct (decide (i = 0 /\ j <= 1)) as [[Hi0 Hj1] | Hlater].
      - destruct (Hnib Hi0 Hj1) as [H1 H0].
        assert (j / 8 = 0) as Hq by (apply Z.div_small; lia).
        rewrite Hi0, Hq in Hwa, Hwb. change (5 * 0 + 1 + 0) with 1 in Hwa, Hwb.
        unfold word_at in H0, H1. rewrite Hwa, Hwb in H0, H1. simpl in H0, H1.
        destruct (decide (j = 0)) as [-> | Hj0]; [by apply H0 |].
        by replace j with 1 by lia.
      - assert (load mja p (5 * i + 1 + j / 8) =
                load mjb p (5 * i + 1 + j / 8)) as Heq.
        { apply Hlow. destruct (decide (i = 0)) as [-> | Hi0]; [| lia].
          assert (2 <= j) by lia.
          assert (j / 8 * 8 <= j) by (rewrite Z.mul_comm; apply Z.mul_div_le; lia).
          lia. }
        rewrite Hwa, Hwb in Heq. by injection Heq as ->. }
    rewrite Hsame in Hba. split.
    + intros k Hk. destruct (decide (k = 32 * i + j)) as [-> | Hne].
      * by rewrite (load_store_eq _ _ _ _ _ Hba), (load_store_eq _ _ _ _ _ Hbb).
      * rewrite (load_store_ne _ _ _ _ _ _ _ Hba) by (by apply loc_same_ptr).
        rewrite (load_store_ne _ _ _ _ _ _ _ Hbb) by (by apply loc_same_ptr).
        apply Hlow. lia.
    + intros Hi0 Hj1. assert (j = 0) as -> by lia.
      destruct (Hnib Hi0 ltac:(lia)) as [H1 _].
      split; [| intros; lia].
      unfold word_at.
      rewrite (load_store_ne _ _ _ _ _ _ _ Hba) by (apply loc_same_ptr; lia).
      rewrite (load_store_ne _ _ _ _ _ _ _ Hbb) by (apply loc_same_ptr; lia).
      apply H1.
Qed.

(** X22. Decoding a tile in place, as the reader does, the result depends
    on no more than the shared exponent of block 0 and the two lowest
    nibbles of its first magnitude word: every other word of the compact
    tile is overwritten before it is read.  Two tiles that agree on these
    come out the same, whatever else they hold. *)
Theorem in_place_decode_reads_two_nibbles (ma mb ma' mb' : mem) (p : ptr)
    (tile_size : Z) :
  0 <= tile_size < 2 ^ 32 ->
  convert_mxfp4_to_fp32_tile p p tile_size ma = Some ma' ->
  convert_mxfp4_to_fp32_tile p p tile_size mb = Some mb' ->
  shared_exp_of (word_at ma p 0) = shared_exp_of (word_at mb p 0) ->
  nibble (word_at ma p 1) 0 = nibble (word_at mb p 1) 0 ->
  nibble (word_at ma p 1) 1 = nibble (word_at mb p 1) 1 ->
  forall k, 0 <= k < 32 * (tile_size / 32) -> load ma' p k = load mb' p k.
Proof.
  intros Hn Ha Hb Hexp Hn0 Hn1. unfold convert_mxfp4_to_fp32_tile in Ha, Hb.
  change MXFP4_BLOCK_SIZE with 32 in Ha at 1. change MXFP4_BLOCK_SIZE with 32 in Hb at 1.
  assert (0 <= tile_size / 32) as HG by (apply Z.div_pos; lia).
  assert ((forall k, 0 <= k < 32 * (0 + Z.of_nat (Z.to_nat (tile_size / 32))) ->
             load ma' p k = load mb' p k) /\
          (0 + Z.of_nat (Z.to_nat (tile_size / 32)) = 0 ->
             shared_exp_of (word_at ma' p 0) = shared_exp_of (word_at mb' p 0) /\
             nibble (word_at ma' p 1) 0 = nibble (word_at mb' p 1) 0 /\
             nibble (word_at ma' p 1) 1 = nibble (word_at mb' p 1) 1))
    as [H _]; [| intros k Hk; apply H; lia].
  apply (for_loopM_rel
    (fun i mia mib =>
       (forall k, 0 <= k < 32 * i -> load mia p k = load mib p k) /\
       (i = 0 ->
          shared_exp_of (word_at mia p 0) = shared_exp_of (word_at mib p 0) /\
          nibble (word_at mia p 1) 0 = nibble (word_at mib p 1) 0 /\
          nibble (word_at mia p 1) 1 = nibble (word_at mib p 1) 1))
    _ _ _ _ _ _ _ _ Ha Hb).
  - split; [intros; lia | done].
  - intros i mia mib ma1 mb1 Hi [Hlow Hfirst] Hba Hbb.
    rewrite Z2Nat.id in Hi by done.
    assert (0 <= i < 2 ^ 27) as Hi27.
    { apply (blocks_bound tile_size); [done |]. unfold MXFP4_BLOCK_SIZE. lia. }
    rewrite idx_exp in Hba, Hbb by done.
    destruct (load mia p (5 * i)) as [wa |] eqn:Hwa; [| done].
    destruct (load mib p (5 * i)) as [wb |] eqn:Hwb; [| done].
    simpl in Hba, Hbb.
    assert (shared_exp_of wa = shared_exp_of wb) as Hsame.
    { destruct (decide (i = 0)) as [Hi0 | Hi0].
      - destruct (Hfirst Hi0) as [He _]. rewrite Hi0 in Hwa, Hwb.
        change (5 * 0) with 0 in Hwa, Hwb.
        unfold word_at in He. by rewrite Hwa, Hwb in He.
      - assert (load mia p (5 * i) = load mib p (5 * i)) as Heq
          by (apply Hlow; lia).
        rewrite Hwa, Hwb in Heq. by injection Heq as ->. }
    rewrite Hsame in Hba. split; [| intros; lia].
    apply (unpack_block_in_place mia mib ma1 mb1 p i _ Hba Hbb Hi27 Hlow).
    intros Hi0. by destruct (Hfirst Hi0) as (_ & H0 & H1).
Qed.

Lemma in_place_decode_reads_two_nibbles_witness :
  let ma := [[2130706432; 305419896; 1; 2; 3] ++ replicate 59 7] in
  let mb := [[2131755007; 2882400120; 9; 8; 7] ++ replicate 59 5] in
  exists ma' mb',
    convert_mxfp4_to_fp32_tile (Ptr 0 0) (Ptr 0 0) 64 ma = Some ma' /\
    convert_mxfp4_to_fp32_tile (Ptr 0 0) (Ptr 0 0) 64 mb = Some mb' /\
    forall k, 0 <= k < 32 * (64 / 32) ->
      load ma' (Ptr 0 0) k = load mb' (Ptr 0 0) k.
Proof.
  intros ma mb.
  destruct (convert_mxfp4_to_fp32_tile (Ptr 0 0) (Ptr 0 0) 64 ma) as [ma' |] eqn:Ea;
    [| by vm_compute in Ea].
  destruct (convert_mxfp4_to_fp32_tile (Ptr 0 0) (Ptr 0 0) 64 mb) as [mb' |] eqn:Eb;
    [| by vm_compute in Eb].
  exists ma', mb'. split; [done |]. split; [done |].
  apply (in_place_decode_reads_two_nibbles ma mb ma' mb' (Ptr 0 0) 64);
    [by vm_compute | done | done | by vm_compute ..].
Defined.
